(** * OmniFlow Protocol: smart account, on-chain aggregator and route aggregation

  A shallow embedding of the two cores of the repository:

  - [contracts/SmartAccount.sol] and
    [contracts/OmniFlowSmartAggregator_Fixed.sol] (Solidity 0.8: checked
    [uint256] arithmetic, [require]/[revert], storage mappings);
  - [services/MultiProtocolAggregator.ts] and
    [services/SmartAggregatorBridge.ts] (TypeScript: IEEE-754 doubles,
    truthiness, [Array.prototype.sort]).

  Solidity functions are state transformers in an error monad; a reverted
  call hands back no state, and [commit] is the platform's commit-or-roll-back.
  JavaScript numbers are the kernel's binary64 floats. *)

From Stdlib Require Import ZArith List String Ascii Bool Lia.
From Stdlib Require Import Uint63 PrimFloat FloatOps FloatAxioms SpecFloat Sorted.
From stdpp Require Import base option gmap strings list.

Set Warnings "-inexact-float".
#[local] Open Scope Z_scope.

(* ===================================================================== *)
(** * Solidity basics *)
(* ===================================================================== *)

Module Sol.

(** [address] is a 160-bit word, [uint256] a 256-bit one; both are kept as
    [Z] and the checks the compiler inserts are written out. *)
Definition address := Z.
Definition bytes := list Byte.byte.
Definition uint256_max : Z := 2 ^ 256 - 1.
Definition is_uint256 (z : Z) : Prop := 0 <= z <= uint256_max.

Inductive result (A : Type) : Type :=
| Ok (a : A)
| Revert (reason : string).
Arguments Ok {A} a.
Arguments Revert {A} reason.

#[global] Instance result_ret : MRet result := @Ok.
#[global] Instance result_bind : MBind result :=
  fun A B f m => match m with Ok a => f a | Revert r => Revert r end.

#[global] Instance result_fmap : FMap result :=
  fun A B f m => match m with Ok a => Ok (f a) | Revert r => Revert r end.

Definition require (c : bool) (reason : string) : result unit :=
  if c then Ok tt else Revert reason.

(** Checked arithmetic of Solidity >= 0.8: out of range is [Panic(0x11)]. *)
Definition panic_overflow : string := "Panic(0x11)".
Definition panic_division : string := "Panic(0x12)".
Definition panic_index : string := "Panic(0x32)".

Definition checked (z : Z) : result Z :=
  if (0 <=? z) && (z <=? uint256_max) then Ok z else Revert panic_overflow.
Definition add (a b : Z) : result Z := checked (a + b).
Definition sub (a b : Z) : result Z := checked (a - b).
Definition mul (a b : Z) : result Z := checked (a * b).
Definition div (a b : Z) : result Z :=
  if b =? 0 then Revert panic_division else Ok (a / b).

(** Reading a [mapping(K => bool)] or a [mapping(K => V)]: absent keys read
    as the zero value. *)
Definition mget_bool `{Countable K} (m : gmap K bool) (k : K) : bool :=
  default false (m !! k).

(** The platform's atomicity of one top-level call: the new state is
    committed on success and the old one kept on revert. *)
Definition commit {S : Type} (s : S) (r : result S) : S :=
  match r with
  | Ok s' => s'
  | Revert _ => s
  end.

Definition succeeds {A : Type} (r : result A) : Prop :=
  match r with Ok _ => True | Revert _ => False end.
Definition reverts {A : Type} (r : result A) : Prop :=
  match r with Ok _ => False | Revert _ => True end.

End Sol.
Import Sol.

(* ===================================================================== *)
(** * contracts/SmartAccount.sol *)
(* ===================================================================== *)

Module SmartAccount.

(** [struct Recovery]; the nested [mapping(address => bool) confirmed] is a
    finite map read through [mget_bool]. *)
Record Recovery : Type := mkRecovery {
  newOwner : address;
  confirmations : Z;
  confirmed : gmap address bool;
  timestamp : Z;
  executed : bool
}.

(** An untouched storage slot of [recoveries]. *)
Definition Recovery_zero : Recovery := mkRecovery 0 0 ∅ 0 false.

(** [struct Call]. *)
Record Call : Type := mkCall {
  to : address;
  value : Z;
  data : bytes
}.

Inductive Event : Type :=
| OwnerChanged (previousOwner newOwner : address)
| GuardianAdded (guardian : address)
| GuardianRemoved (guardian : address)
| RecoveryInitiated (newOwner : address) (recoveryId : Z)
| RecoveryExecuted (newOwner : address) (recoveryId : Z)
| BatchExecuted (batchHash : Z)
| GasPaymentExecuted (token : address) (amount : Z).

(** Contract storage, the reentrancy guard's flag and the emitted log. *)
Record State : Type := mkState {
  owner : address;
  guardians : gmap address bool;
  guardianList : list address;
  guardianCount : Z;
  requiredGuardians : Z;
  entryPoint : address;
  recoveries : gmap Z Recovery;
  recoveryCounter : Z;
  entered : bool;
  events : list Event
}.

(** [msg.sender] and [block.timestamp] of the current call. *)
Record Env : Type := mkEnv {
  msg_sender : address;
  block_timestamp : Z
}.

Definition RECOVERY_PERIOD : Z := 2 * 24 * 60 * 60.

Definition set_owner (o : address) (s : State) : State :=
  mkState o (guardians s) (guardianList s) (guardianCount s)
    (requiredGuardians s) (entryPoint s) (recoveries s) (recoveryCounter s)
    (entered s) (events s).
Definition set_guardians (g : gmap address bool) (l : list address) (n : Z)
    (s : State) : State :=
  mkState (owner s) g l n (requiredGuardians s) (entryPoint s) (recoveries s)
    (recoveryCounter s) (entered s) (events s).
Definition set_recovery (id : Z) (r : Recovery) (s : State) : State :=
  mkState (owner s) (guardians s) (guardianList s) (guardianCount s)
    (requiredGuardians s) (entryPoint s) (<[id := r]> (recoveries s))
    (recoveryCounter s) (entered s) (events s).
Definition set_recoveryCounter (n : Z) (s : State) : State :=
  mkState (owner s) (guardians s) (guardianList s) (guardianCount s)
    (requiredGuardians s) (entryPoint s) (recoveries s) n (entered s)
    (events s).
Definition set_entered (b : bool) (s : State) : State :=
  mkState (owner s) (guardians s) (guardianList s) (guardianCount s)
    (requiredGuardians s) (entryPoint s) (recoveries s) (recoveryCounter s)
    b (events s).
Definition emit (e : Event) (s : State) : State :=
  mkState (owner s) (guardians s) (guardianList s) (guardianCount s)
    (requiredGuardians s) (entryPoint s) (recoveries s) (recoveryCounter s)
    (entered s) (events s ++ [e]).

Definition isGuardian (s : State) (a : address) : bool :=
  mget_bool (guardians s) a.
Definition recovery (s : State) (id : Z) : Recovery :=
  default Recovery_zero (recoveries s !! id).
Definition hasConfirmedRecovery (s : State) (id : Z) (g : address) : bool :=
  mget_bool (confirmed (recovery s id)) g.

(** The constructor's loop over [_guardians]. *)
Fixpoint add_initial_guardians (gs : list address) (m : gmap address bool)
    (l : list address) : result (gmap address bool * list address) :=
  match gs with
  | [] => Ok (m, l)
  | g :: gs' =>
      require (negb (g =? 0)) "SmartAccount: guardian cannot be zero address";;
      require (negb (mget_bool m g)) "SmartAccount: duplicate guardian";;
      add_initial_guardians gs' (<[g := true]> m) (l ++ [g])
  end.

Definition constructor (_owner : address) (_guardians : list address)
    (_requiredGuardians : Z) (_entryPoint : address) : result State :=
  require (negb (_owner =? 0)) "SmartAccount: owner cannot be zero address";;
  require (negb (_entryPoint =? 0))
    "SmartAccount: entryPoint cannot be zero address";;
  require ((0 <? _requiredGuardians)
           && (_requiredGuardians <=? Z.of_nat (length _guardians)))
    "SmartAccount: invalid required guardians count";;
  '(m, l) ← add_initial_guardians _guardians ∅ [];
  Ok (mkState _owner m l (Z.of_nat (length _guardians)) _requiredGuardians
        _entryPoint ∅ 0 false [OwnerChanged 0 _owner]).

Definition onlyOwner (env : Env) (s : State) : result unit :=
  require (msg_sender env =? owner s) "SmartAccount: caller is not the owner".
Definition onlyGuardian (env : Env) (s : State) : result unit :=
  require (isGuardian s (msg_sender env))
    "SmartAccount: caller is not a guardian".

Definition addGuardian (env : Env) (guardian : address) (s : State)
    : result State :=
  onlyOwner env s;;
  require (negb (guardian =? 0))
    "SmartAccount: guardian cannot be zero address";;
  require (negb (isGuardian s guardian))
    "SmartAccount: guardian already exists";;
  require (negb (guardian =? owner s))
    "SmartAccount: owner cannot be guardian";;
  n ← add (guardianCount s) 1;
  Ok (emit (GuardianAdded guardian)
        (set_guardians (<[guardian := true]> (guardians s))
           (guardianList s ++ [guardian]) n s)).

(** The swap-with-last-and-pop loop of [removeGuardian]: the first slot
    holding [guardian] receives the last element, then the array shrinks. *)
Fixpoint swap_pop (guardian : address) (l : list address) : list address :=
  match l with
  | [] => []
  | x :: l' =>
      if x =? guardian
      then match l' with
           | [] => []
           | _ => List.last l' x :: List.removelast l'
           end
      else x :: swap_pop guardian l'
  end.

Definition removeGuardian (env : Env) (guardian : address) (s : State)
    : result State :=
  onlyOwner env s;;
  require (isGuardian s guardian) "SmartAccount: guardian does not exist";;
  require (requiredGuardians s <? guardianCount s)
    "SmartAccount: cannot remove guardian, would fall below required count";;
  n ← sub (guardianCount s) 1;
  Ok (emit (GuardianRemoved guardian)
        (set_guardians (<[guardian := false]> (guardians s))
           (swap_pop guardian (guardianList s)) n s)).

Definition initiateRecovery (env : Env) (newOwner' : address) (s : State)
    : result State :=
  onlyGuardian env s;;
  require (negb (newOwner' =? 0))
    "SmartAccount: new owner cannot be zero address";;
  require (negb (newOwner' =? owner s))
    "SmartAccount: new owner is current owner";;
  let recoveryId := recoveryCounter s in
  next ← add (recoveryCounter s) 1;
  let s1 := set_recoveryCounter next s in
  let r := recovery s1 recoveryId in
  let r' := mkRecovery newOwner' 1 (<[msg_sender env := true]> (confirmed r))
              (block_timestamp env) (executed r) in
  Ok (emit (RecoveryInitiated newOwner' recoveryId)
        (set_recovery recoveryId r' s1)).

Definition _executeRecovery (recoveryId : Z) (s : State) : State :=
  let r := recovery s recoveryId in
  let previousOwner := owner s in
  let s1 := set_owner (newOwner r) s in
  let s2 := set_recovery recoveryId
              (mkRecovery (newOwner r) (confirmations r) (confirmed r)
                 (timestamp r) true) s1 in
  emit (OwnerChanged previousOwner (newOwner r))
    (emit (RecoveryExecuted (newOwner r) recoveryId) s2).

Definition confirmRecovery (env : Env) (recoveryId : Z) (s : State)
    : result State :=
  onlyGuardian env s;;
  let r := recovery s recoveryId in
  require (negb (newOwner r =? 0)) "SmartAccount: recovery does not exist";;
  require (negb (executed r)) "SmartAccount: recovery already executed";;
  require (negb (mget_bool (confirmed r) (msg_sender env)))
    "SmartAccount: already confirmed";;
  c ← add (confirmations r) 1;
  let r' := mkRecovery (newOwner r) c (<[msg_sender env := true]> (confirmed r))
              (timestamp r) (executed r) in
  let s1 := set_recovery recoveryId r' s in
  if requiredGuardians s1 <=? c
  then
    deadline ← add (timestamp r') RECOVERY_PERIOD;
    if deadline <=? block_timestamp env
    then Ok (_executeRecovery recoveryId s1)
    else Ok s1
  else Ok s1.

Definition executeRecovery (env : Env) (recoveryId : Z) (s : State)
    : result State :=
  let r := recovery s recoveryId in
  require (requiredGuardians s <=? confirmations r)
    "SmartAccount: insufficient confirmations";;
  deadline ← add (timestamp r) RECOVERY_PERIOD;
  require (deadline <=? block_timestamp env)
    "SmartAccount: recovery period not passed";;
  require (negb (executed r)) "SmartAccount: recovery already executed";;
  Ok (_executeRecovery recoveryId s).

(** ** External calls

    [to.call{value: v}(data)] runs code outside the account.  What it does
    is a parameter: it may change anything outside ([World]) and, through
    calls back into functions that carry no guard, the account itself; a
    failed call leaves no trace but its return data. *)
Section ExternalCalls.

Variable World : Type.

Inductive CallResult : Type :=
| CallOk (c : State * World)
| CallFail (returndata : string).

Variable extcall : address -> Z -> bytes -> State * World -> CallResult.
(** [keccak256(abi.encode(calls, block.timestamp))]. *)
Variable keccak256_batch : list Call -> Z -> Z.

(** [abi.encodePacked] of a [uint256]: 32 bytes, big endian. *)
Fixpoint be_bytes (n : nat) (z : Z) (acc : string) : string :=
  match n with
  | O => acc
  | S n' =>
      be_bytes n' (z / 256)
        (String (ascii_of_N (Z.to_N (z mod 256))) acc)
  end.
Definition encodePacked_uint256 (z : Z) : string := be_bytes 32 z "".

Definition nonReentrant_enter (s : State) : result State :=
  require (negb (entered s)) "ReentrancyGuardReentrantCall()";;
  Ok (set_entered true s).

(** The [for] loop of [batchExecute], from index [i] on. *)
Fixpoint run_calls (i : Z) (calls : list Call) (c : State * World)
    : result (State * World) :=
  match calls with
  | [] => Ok c
  | cl :: rest =>
      match extcall (to cl) (value cl) (data cl) c with
      | CallOk c' => run_calls (i + 1) rest c'
      | CallFail res =>
          Revert ("SmartAccount: call " ++ encodePacked_uint256 i
                    ++ " failed: " ++ res)
      end
  end.

Definition batchExecute (env : Env) (calls : list Call) (c : State * World)
    : result (State * World) :=
  onlyOwner env (fst c);;
  s1 ← nonReentrant_enter (fst c);
  require (0 <? Z.of_nat (length calls)) "SmartAccount: empty calls array";;
  let batchHash := keccak256_batch calls (block_timestamp env) in
  c2 ← run_calls 0 calls (s1, snd c);
  Ok (set_entered false (emit (BatchExecuted batchHash) (fst c2)), snd c2).

Definition execute (env : Env) (to' : address) (value' : Z) (data' : bytes)
    (c : State * World) : result (State * World) :=
  onlyOwner env (fst c);;
  s1 ← nonReentrant_enter (fst c);
  require (negb (to' =? 0)) "SmartAccount: target cannot be zero address";;
  match extcall to' value' data' (s1, snd c) with
  | CallOk c2 => Ok (set_entered false (fst c2), snd c2)
  | CallFail res => Revert ("SmartAccount: execution failed: " ++ res)
  end.

(** In-order execution of a batch, as a relation: every sub-call
    succeeds and hands its state to the next one. *)
Inductive exec_seq : list Call -> State * World -> State * World -> Prop :=
| exec_nil c : exec_seq [] c c
| exec_cons cl rest c c1 c2 :
    extcall (to cl) (value cl) (data cl) c = CallOk c1 ->
    exec_seq rest c1 c2 ->
    exec_seq (cl :: rest) c c2.

(** Sub-call number [i] (from 0) is the first one to fail. *)
Inductive fails_at : nat -> list Call -> State * World -> Prop :=
| fails_here cl rest c res :
    extcall (to cl) (value cl) (data cl) c = CallFail res ->
    fails_at 0 (cl :: rest) c
| fails_later i cl rest c c1 :
    extcall (to cl) (value cl) (data cl) c = CallOk c1 ->
    fails_at i rest c1 ->
    fails_at (S i) (cl :: rest) c.

End ExternalCalls.

Arguments CallOk {World} c.
Arguments CallFail {World} returndata.

End SmartAccount.

(* ===================================================================== *)
(** * ERC-20 tokens *)
(* ===================================================================== *)

(** The tokens the contracts move are OpenZeppelin [ERC20] tokens, as the
    repository's [MockERC20] is.  One ledger holds every token's balances
    and allowances; [SafeERC20]'s wrappers revert when the token does. *)
Module ERC20.

Record Ledger : Type := mkLedger {
  balances : gmap (address * address) Z;            (* token, holder *)
  allowances : gmap (address * address * address) Z (* token, owner, spender *)
}.

Definition balanceOf (l : Ledger) (token holder : address) : Z :=
  default 0 (balances l !! (token, holder)).
Definition allowance (l : Ledger) (token owner spender : address) : Z :=
  default 0 (allowances l !! (token, owner, spender)).

Definition set_balance (token holder : address) (v : Z) (l : Ledger) : Ledger :=
  mkLedger (<[(token, holder) := v]> (balances l)) (allowances l).
Definition set_allowance (token owner spender : address) (v : Z) (l : Ledger)
    : Ledger :=
  mkLedger (balances l) (<[(token, owner, spender) := v]> (allowances l)).

(** [ERC20._transfer]: both ends non-zero, then [_update]. *)
Definition _transfer (token from to value : Z) (l : Ledger) : result Ledger :=
  require (negb (from =? 0)) "ERC20InvalidSender";;
  require (negb (to =? 0)) "ERC20InvalidReceiver";;
  require (value <=? balanceOf l token from) "ERC20InsufficientBalance";;
  let l1 := set_balance token from (balanceOf l token from - value) l in
  Ok (set_balance token to (balanceOf l1 token to + value) l1).

(** [ERC20._spendAllowance]: an unlimited allowance is not consumed. *)
Definition _spendAllowance (token owner spender value : Z) (l : Ledger)
    : result Ledger :=
  let currentAllowance := allowance l token owner spender in
  if currentAllowance =? uint256_max then Ok l
  else
    require (value <=? currentAllowance) "ERC20InsufficientAllowance";;
    Ok (set_allowance token owner spender (currentAllowance - value) l).

(** [token.transfer(to, value)] called by [sender]. *)
Definition safeTransfer (token sender to value : Z) (l : Ledger)
    : result Ledger :=
  _transfer token sender to value l.

(** [token.transferFrom(from, to, value)] called by [spender]. *)
Definition safeTransferFrom (token spender from to value : Z) (l : Ledger)
    : result Ledger :=
  l1 ← _spendAllowance token from spender value l;
  _transfer token from to value l1.

(** [token.approve(spender, value)] called by [owner]. *)
Definition forceApprove (token owner spender value : Z) (l : Ledger)
    : result Ledger :=
  require (negb (owner =? 0)) "ERC20InvalidApprover";;
  require (negb (spender =? 0)) "ERC20InvalidSpender";;
  Ok (set_allowance token owner spender value l).

End ERC20.

(* ===================================================================== *)
(** * contracts/OmniFlowSmartAggregator_Fixed.sol *)
(* ===================================================================== *)

Module OmniFlowSmartAggregator.
Import ERC20.

(** [struct ProtocolRoute]. *)
Record ProtocolRoute : Type := mkProtocolRoute {
  protocol : string;
  bridge : address;
  callData : bytes;
  value : Z;
  amount : Z
}.

(** [struct AggregatedRouteStrategy]. *)
Record AggregatedRouteStrategy : Type := mkStrategy {
  strategyType : string;
  routes : list ProtocolRoute;
  totalAmount : Z;
  minOutput : Z;
  deadline : Z;
  securityScore : Z;
  estimatedTime : Z;
  estimatedFees : Z
}.

Inductive Event : Type :=
| AggregatedRouteExecuted (user : address) (strategyType : string)
    (protocolCount totalAmount securityScore estimatedTime estimatedFees : Z)
    (success : bool)
| ProtocolRouteExecuted (user : address) (protocol : string) (amount : Z)
    (success : bool)
| RouteSplit (user : address) (protocol1 : string) (amount1 : Z)
    (protocol2 : string) (amount2 : Z).

(** Contract storage. *)
Record Storage : Type := mkStorage {
  owner : address;
  lifiDiamond : address;
  acrossSpokePools : gmap Z address;
  trustedBridges : gmap address bool;
  protocolFeeBps : Z;
  feeRecipient : address;
  supportedChains : gmap Z bool;
  minGlobalSecurityScore : Z;
  maxFeePercentage : Z;
  minAmountForSplit : Z;
  entered : bool
}.

(** Storage, the token ledger and the event log: what one transaction can
    change. *)
Record Chain : Type := mkChain {
  storage : Storage;
  ledger : Ledger;
  events : list Event
}.

(** [msg.sender], [block.timestamp] and [address(this)]. *)
Record Env : Type := mkEnv {
  msg_sender : address;
  block_timestamp : Z;
  this : address
}.

Definition ether : Z := 10 ^ 18.

Definition set_ledger (l : Ledger) (c : Chain) : Chain :=
  mkChain (storage c) l (events c).
Definition emit (e : Event) (c : Chain) : Chain :=
  mkChain (storage c) (ledger c) (events c ++ [e]).
Definition set_entered (b : bool) (c : Chain) : Chain :=
  let s := storage c in
  mkChain
    (mkStorage (owner s) (lifiDiamond s) (acrossSpokePools s) (trustedBridges s)
       (protocolFeeBps s) (feeRecipient s) (supportedChains s)
       (minGlobalSecurityScore s) (maxFeePercentage s) (minAmountForSplit s) b)
    (ledger c) (events c).

(** [_initializeProtocols] and the initial values of the state variables. *)
Definition spokePool_ethereum : address := 0x5c7BCd6E7De5423a257D81B442095A1a6ced35C5.
Definition spokePool_arbitrum : address := 0xe35e9842fceaCA96570B734083f4a58e8F7C5f2A.
Definition spokePool_optimism : address := 0x6f26Bf09B1C792e3228e5467807a900A503c0281.
Definition spokePool_polygon : address := 0x9295ee1d8C5b022Be115A2AD3c30C72E34e7F096.
Definition spokePool_base : address := 0x09aea4b2242abC8bb4BB78D537A67a245A7bEC64.

Definition constructor (initialOwner _feeRecipient _lifiDiamond : address)
    : result Storage :=
  require (negb (initialOwner =? 0)) "OwnableInvalidOwner";;
  require (negb (_feeRecipient =? 0)) "Invalid fee recipient";;
  require (negb (_lifiDiamond =? 0)) "Invalid LiFi Diamond";;
  let pools : gmap Z address :=
    <[8453 := spokePool_base]> (<[137 := spokePool_polygon]>
      (<[10 := spokePool_optimism]> (<[42161 := spokePool_arbitrum]>
        (<[1 := spokePool_ethereum]> ∅)))) in
  let trusted : gmap address bool :=
    <[spokePool_base := true]> (<[spokePool_polygon := true]>
      (<[spokePool_optimism := true]> (<[spokePool_arbitrum := true]>
        (<[spokePool_ethereum := true]> (<[_lifiDiamond := true]> ∅))))) in
  let chains : gmap Z bool :=
    <[8453 := true]> (<[137 := true]> (<[10 := true]> (<[42161 := true]>
      (<[1 := true]> ∅)))) in
  Ok (mkStorage initialOwner _lifiDiamond pools trusted 10 _feeRecipient chains
        70 200 (ether / 2) false).

(** ** Administration

    The [onlyOwner] functions; [onlyOwner] is OpenZeppelin's [Ownable]
    modifier, which reverts with [OwnableUnauthorizedAccount]. *)
Definition onlyOwner (env : Env) (st : Storage) : result unit :=
  require (msg_sender env =? owner st) "OwnableUnauthorizedAccount".

Definition with_lifiDiamond (v : address) (s : Storage) : Storage :=
  mkStorage (owner s) v (acrossSpokePools s) (trustedBridges s)
    (protocolFeeBps s) (feeRecipient s) (supportedChains s)
    (minGlobalSecurityScore s) (maxFeePercentage s) (minAmountForSplit s)
    (entered s).
Definition with_acrossSpokePools (v : gmap Z address) (s : Storage) : Storage :=
  mkStorage (owner s) (lifiDiamond s) v (trustedBridges s)
    (protocolFeeBps s) (feeRecipient s) (supportedChains s)
    (minGlobalSecurityScore s) (maxFeePercentage s) (minAmountForSplit s)
    (entered s).
Definition with_trustedBridges (v : gmap address bool) (s : Storage)
    : Storage :=
  mkStorage (owner s) (lifiDiamond s) (acrossSpokePools s) v
    (protocolFeeBps s) (feeRecipient s) (supportedChains s)
    (minGlobalSecurityScore s) (maxFeePercentage s) (minAmountForSplit s)
    (entered s).
Definition with_protocolFeeBps (v : Z) (s : Storage) : Storage :=
  mkStorage (owner s) (lifiDiamond s) (acrossSpokePools s) (trustedBridges s)
    v (feeRecipient s) (supportedChains s)
    (minGlobalSecurityScore s) (maxFeePercentage s) (minAmountForSplit s)
    (entered s).
Definition with_feeRecipient (v : address) (s : Storage) : Storage :=
  mkStorage (owner s) (lifiDiamond s) (acrossSpokePools s) (trustedBridges s)
    (protocolFeeBps s) v (supportedChains s)
    (minGlobalSecurityScore s) (maxFeePercentage s) (minAmountForSplit s)
    (entered s).
Definition with_supportedChains (v : gmap Z bool) (s : Storage) : Storage :=
  mkStorage (owner s) (lifiDiamond s) (acrossSpokePools s) (trustedBridges s)
    (protocolFeeBps s) (feeRecipient s) v
    (minGlobalSecurityScore s) (maxFeePercentage s) (minAmountForSplit s)
    (entered s).
Definition with_minGlobalSecurityScore (v : Z) (s : Storage) : Storage :=
  mkStorage (owner s) (lifiDiamond s) (acrossSpokePools s) (trustedBridges s)
    (protocolFeeBps s) (feeRecipient s) (supportedChains s)
    v (maxFeePercentage s) (minAmountForSplit s) (entered s).
Definition with_maxFeePercentage (v : Z) (s : Storage) : Storage :=
  mkStorage (owner s) (lifiDiamond s) (acrossSpokePools s) (trustedBridges s)
    (protocolFeeBps s) (feeRecipient s) (supportedChains s)
    (minGlobalSecurityScore s) v (minAmountForSplit s) (entered s).
Definition with_minAmountForSplit (v : Z) (s : Storage) : Storage :=
  mkStorage (owner s) (lifiDiamond s) (acrossSpokePools s) (trustedBridges s)
    (protocolFeeBps s) (feeRecipient s) (supportedChains s)
    (minGlobalSecurityScore s) (maxFeePercentage s) v (entered s).

Definition setLiFiDiamond (env : Env) (_lifiDiamond : address) (st : Storage)
    : result Storage :=
  onlyOwner env st;;
  require (negb (_lifiDiamond =? 0)) "Invalid address";;
  Ok (with_trustedBridges (<[_lifiDiamond := true]> (trustedBridges st))
        (with_lifiDiamond _lifiDiamond st)).

Definition setAcrossSpokePool (env : Env) (chainId : Z) (spokePool : address)
    (st : Storage) : result Storage :=
  onlyOwner env st;;
  require (negb (spokePool =? 0)) "Invalid address";;
  require (0 <? chainId) "Invalid chain ID";;
  Ok (with_supportedChains (<[chainId := true]> (supportedChains st))
        (with_trustedBridges (<[spokePool := true]> (trustedBridges st))
           (with_acrossSpokePools
              (<[chainId := spokePool]> (acrossSpokePools st)) st))).

Definition setTrustedBridge (env : Env) (bridge' : address) (trusted : bool)
    (st : Storage) : result Storage :=
  onlyOwner env st;;
  require (negb (bridge' =? 0)) "Invalid address";;
  Ok (with_trustedBridges (<[bridge' := trusted]> (trustedBridges st)) st).

Definition setProtocolFee (env : Env) (feeBps : Z) (st : Storage)
    : result Storage :=
  onlyOwner env st;;
  require (feeBps <=? 100) "Fee too high (max 1%)";;
  Ok (with_protocolFeeBps feeBps st).

Definition setFeeRecipient (env : Env) (_feeRecipient : address)
    (st : Storage) : result Storage :=
  onlyOwner env st;;
  require (negb (_feeRecipient =? 0)) "Invalid recipient";;
  Ok (with_feeRecipient _feeRecipient st).

Definition setMinGlobalSecurityScore (env : Env) (score : Z) (st : Storage)
    : result Storage :=
  onlyOwner env st;;
  require (score <=? 100) "Score must be <= 100";;
  require (50 <=? score) "Score must be >= 50";;
  Ok (with_minGlobalSecurityScore score st).

Definition setMaxFeePercentage (env : Env) (percentage : Z) (st : Storage)
    : result Storage :=
  onlyOwner env st;;
  require (percentage <=? 500) "Max 5%";;
  Ok (with_maxFeePercentage percentage st).

Definition setMinAmountForSplit (env : Env) (amount' : Z) (st : Storage)
    : result Storage :=
  onlyOwner env st;;
  require (0 <? amount') "Invalid amount";;
  Ok (with_minAmountForSplit amount' st).

Section Native.

(** [payable(a).transfer(v)]: whether the contract's ether covers [v] and
    the receiver takes it; a refused transfer reverts with no data. *)
Variable native_transfer : address -> Z -> bool.

Definition emergencyWithdraw (env : Env) (token amount' : Z) (c : Chain)
    : result Chain :=
  onlyOwner env (storage c);;
  require (0 <? amount') "Invalid amount";;
  if token =? 0
  then
    if native_transfer (owner (storage c)) amount' then Ok c else Revert ""
  else
    l ← safeTransfer token (this env) (owner (storage c)) amount' (ledger c);
    Ok (set_ledger l c).

End Native.

(** ** Calls into a bridge

    [route.bridge.call{value: route.value}(route.callData)] runs the bridge's
    code, which may move tokens (it holds an allowance).  Its outcome is a
    parameter: [Some l'] is a successful call that left the ledger [l'],
    [None] a failed one, which changes nothing. *)
Section Bridges.

Variable bridge_call : address -> Z -> bytes -> Ledger -> option Ledger.

Definition low_level_call (r : ProtocolRoute) (c : Chain) : bool * Chain :=
  match bridge_call (bridge r) (value r) (callData r) (ledger c) with
  | Some l' => (true, set_ledger l' c)
  | None => (false, c)
  end.

Definition _executeSingleRoute (env : Env) (sourceToken : address)
    (route : ProtocolRoute) (amount' : Z) (c : Chain) : result (bool * Chain) :=
  require (mget_bool (trustedBridges (storage c)) (bridge route))
    "Untrusted bridge";;
  require (0 <? Z.of_nat (length (callData route))) "Empty callData";;
  l1 ← forceApprove sourceToken (this env) (bridge route) amount' (ledger c);
  let '(success, c2) := low_level_call route (set_ledger l1 c) in
  Ok (success,
      emit (ProtocolRouteExecuted (msg_sender env) (protocol route) amount'
              success) c2).

(** The [for] loop of [_executeSplitRoute]. *)
Fixpoint split_loop (env : Env) (sourceToken : address)
    (rs : list ProtocolRoute) (totalAmount' amountUsed : Z) (allSuccess : bool)
    (c : Chain) : result (bool * Chain) :=
  match rs with
  | [] => Ok (allSuccess, c)
  | route :: rest =>
      require (mget_bool (trustedBridges (storage c)) (bridge route))
        "Untrusted bridge";;
      require (0 <? Z.of_nat (length (callData route))) "Empty callData";;
      used ← add amountUsed (amount route);
      require (used <=? totalAmount') "Amount overflow";;
      l1 ← forceApprove sourceToken (this env) (bridge route) (amount route)
             (ledger c);
      let '(success, c2) := low_level_call route (set_ledger l1 c) in
      let c3 := emit (ProtocolRouteExecuted (msg_sender env) (protocol route)
                        (amount route) success) c2 in
      split_loop env sourceToken rest totalAmount' used
        (allSuccess && success) c3
  end.

Definition _executeSplitRoute (env : Env) (sourceToken : address)
    (rs : list ProtocolRoute) (totalAmount' : Z) (c : Chain)
    : result (bool * Chain) :=
  require (2 <=? Z.of_nat (length rs)) "Split requires 2+ routes";;
  '(allSuccess, c1) ← split_loop env sourceToken rs totalAmount' 0 true c;
  let c2 :=
    match rs with
    | [r0; r1] =>
        emit (RouteSplit (msg_sender env) (protocol r0) (amount r0)
                (protocol r1) (amount r1)) c1
    | _ => c1
    end in
  Ok (allSuccess, c2).

(** [keccak256(bytes(a)) == keccak256(bytes(b))] compares the two strings. *)
Definition same_string (a b : string) : bool := String.eqb a b.

Definition executeAggregatedRoute (env : Env) (sourceToken : address)
    (strategy : AggregatedRouteStrategy) (c : Chain) : result (bool * Chain) :=
  require (negb (entered (storage c))) "ReentrancyGuardReentrantCall()";;
  let c := set_entered true c in
  let st := storage c in
  require (block_timestamp env <=? deadline strategy) "Strategy expired";;
  require (0 <? Z.of_nat (length (routes strategy))) "No routes provided";;
  require (0 <? totalAmount strategy) "Invalid amount";;
  require (negb (sourceToken =? 0)) "Invalid token";;
  require (minGlobalSecurityScore st <=? securityScore strategy)
    "Security score below minimum threshold";;
  scaled ← mul (estimatedFees strategy) 10000;
  feePercentage ← div scaled (totalAmount strategy);
  require (feePercentage <=? maxFeePercentage st) "Estimated fees too high";;
  (if same_string (strategyType strategy) "split-route"
   then
     require (minAmountForSplit st <=? totalAmount strategy)
       "Amount too small for split routing";;
     require ((2 <=? Z.of_nat (length (routes strategy)))
              && (Z.of_nat (length (routes strategy)) <=? 5))
       "Split routing requires 2-5 routes"
   else Ok tt);;
  (* 1. pull the tokens in *)
  l1 ← safeTransferFrom sourceToken (this env) (msg_sender env) (this env)
         (totalAmount strategy) (ledger c);
  (* 2. protocol fee *)
  feeScaled ← mul (totalAmount strategy) (protocolFeeBps st);
  protocolFee ← div feeScaled 10000;
  netAmount ← sub (totalAmount strategy) protocolFee;
  l2 ← (if 0 <? protocolFee
        then safeTransfer sourceToken (this env) (feeRecipient st) protocolFee l1
        else Ok l1);
  let c2 := set_ledger l2 c in
  (* 3. run the strategy *)
  '(success, c3) ←
    (if same_string (strategyType strategy) "single-route"
     then
       match routes strategy with
       | route0 :: _ => _executeSingleRoute env sourceToken route0 netAmount c2
       | [] => Revert panic_index
       end
     else if same_string (strategyType strategy) "split-route"
     then _executeSplitRoute env sourceToken (routes strategy) netAmount c2
     else Revert "Unknown strategy type");
  (* 4. refund on failure *)
  l4 ← (if negb success
        then safeTransfer sourceToken (this env) (msg_sender env) netAmount
               (ledger c3)
        else Ok (ledger c3));
  let c4 := set_ledger l4 c3 in
  let c5 :=
    emit (AggregatedRouteExecuted (msg_sender env) (strategyType strategy)
            (Z.of_nat (length (routes strategy))) (totalAmount strategy)
            (securityScore strategy) (estimatedTime strategy)
            (estimatedFees strategy) success) c4 in
  Ok (success, set_entered false c5).

(** ** Direct routes *)

(** An argument of [abi.encodeWithSignature], and the encoder. *)
Inductive AbiArg : Type :=
| abi_address (a : address)
| abi_uint256 (z : Z)
| abi_uint32 (z : Z)
| abi_bytes (b : bytes).

Variable abi_encodeWithSignature : string -> list AbiArg -> bytes.

(** [bridge.call{value: v}(data)] on a ledger.  The ledger holds the
    ERC-20 balances and allowances; the ether [v] sent along is handed to
    the call and is kept in no balance here. *)
Definition call_bridge (b : address) (v : Z) (d : bytes) (l : Ledger)
    : bool * Ledger :=
  match bridge_call b v d l with
  | Some l' => (true, l')
  | None => (false, l)
  end.

Definition executeLiFiRoute (env : Env) (msg_value : Z)
    (sourceToken amount' : Z) (lifiCallData : bytes) (c : Chain)
    : result (bool * Chain) :=
  require (negb (entered (storage c))) "ReentrancyGuardReentrantCall()";;
  let c := set_entered true c in
  let st := storage c in
  require (negb (lifiDiamond st =? 0)) "LiFi not configured";;
  require (negb (sourceToken =? 0)) "Invalid token";;
  require (0 <? amount') "Invalid amount";;
  require (0 <? Z.of_nat (length lifiCallData)) "Empty callData";;
  l1 ← safeTransferFrom sourceToken (this env) (msg_sender env) (this env)
         amount' (ledger c);
  feeScaled ← mul amount' (protocolFeeBps st);
  protocolFee ← div feeScaled 10000;
  netAmount ← sub amount' protocolFee;
  l2 ← (if 0 <? protocolFee
        then safeTransfer sourceToken (this env) (feeRecipient st) protocolFee l1
        else Ok l1);
  l3 ← forceApprove sourceToken (this env) (lifiDiamond st) netAmount l2;
  let '(success, l4) := call_bridge (lifiDiamond st) msg_value lifiCallData l3 in
  l5 ← (if negb success
        then safeTransfer sourceToken (this env) (msg_sender env) netAmount l4
        else Ok l4);
  Ok (success,
      set_entered false
        (emit (ProtocolRouteExecuted (msg_sender env) "LiFi" amount' success)
           (set_ledger l5 c))).

(** A [uint32] argument: the decoder of the call's arguments reverts, with
    no reason, on a word that does not fit the type.  ([address] and
    [uint256] arguments are words of their type, as everywhere here.) *)
Definition fits_uint32 (z : Z) : bool := (0 <=? z) && (z <? 2 ^ 32).

Definition depositV3_signature : string :=
  "depositV3(address,address,address,address,uint256,uint256,uint256,address,uint32,uint32,uint32,bytes)".

Definition executeAcrossV3Route (env : Env) (msg_value : Z)
    (sourceChainId : Z) (inputToken outputToken : address)
    (inputAmount outputAmount destinationChainId : Z)
    (recipient exclusiveRelayer : address)
    (quoteTimestamp fillDeadline exclusivityDeadline : Z) (c : Chain)
    : result (bool * Chain) :=
  require (fits_uint32 quoteTimestamp && fits_uint32 fillDeadline
           && fits_uint32 exclusivityDeadline) "";;
  require (negb (entered (storage c))) "ReentrancyGuardReentrantCall()";;
  let c := set_entered true c in
  let st := storage c in
  let spokePool := default 0 (acrossSpokePools st !! sourceChainId) in
  require (negb (spokePool =? 0)) "Across not available on this chain";;
  require (negb (inputToken =? 0)) "Invalid input token";;
  require (negb (outputToken =? 0)) "Invalid output token";;
  require (0 <? inputAmount) "Invalid input amount";;
  require (0 <? outputAmount) "Invalid output amount";;
  require (negb (recipient =? 0)) "Invalid recipient";;
  l1 ← safeTransferFrom inputToken (this env) (msg_sender env) (this env)
         inputAmount (ledger c);
  feeScaled ← mul inputAmount (protocolFeeBps st);
  protocolFee ← div feeScaled 10000;
  netInputAmount ← sub inputAmount protocolFee;
  outScaled ← mul outputAmount (protocolFeeBps st);
  outFee ← div outScaled 10000;
  netOutputAmount ← sub outputAmount outFee;
  l2 ← (if 0 <? protocolFee
        then safeTransfer inputToken (this env) (feeRecipient st) protocolFee l1
        else Ok l1);
  l3 ← forceApprove inputToken (this env) spokePool netInputAmount l2;
  let acrossCallData :=
    abi_encodeWithSignature depositV3_signature
      [ abi_address (this env);
        abi_address recipient;
        abi_address inputToken;
        abi_address outputToken;
        abi_uint256 netInputAmount;
        abi_uint256 netOutputAmount;
        abi_uint256 destinationChainId;
        abi_address exclusiveRelayer;
        abi_uint32 quoteTimestamp;
        abi_uint32 fillDeadline;
        abi_uint32 exclusivityDeadline;
        abi_bytes [] ] in
  let '(success, l4) := call_bridge spokePool msg_value acrossCallData l3 in
  l5 ← (if negb success
        then safeTransfer inputToken (this env) (msg_sender env) netInputAmount
               l4
        else Ok l4);
  Ok (success,
      set_entered false
        (emit (ProtocolRouteExecuted (msg_sender env) "Across" inputAmount
                 success)
           (set_ledger l5 c))).

End Bridges.

End OmniFlowSmartAggregator.

(* ===================================================================== *)
(** * contracts/SmartAccount.sol: views, token payment and ERC-4337 *)
(* ===================================================================== *)

Module SmartAccountViews.
Import SmartAccount.

(** [getGuardians] and [getRecoveryInfo]. *)
Definition getGuardians (s : State) : list address := guardianList s.
Definition getRecoveryInfo (s : State) (recoveryId : Z)
    : address * Z * Z * bool :=
  let r := recovery s recoveryId in
  (newOwner r, confirmations r, timestamp r, executed r).

End SmartAccountViews.

Module SmartAccountGas.
Import SmartAccount ERC20.

(** [IERC20(token).transfer(to, value)] called by [sender]: OpenZeppelin's
    [transfer] is [_transfer(msg.sender, to, value)] and returns [true]. *)
Definition transfer (token sender to value : Z) (l : Ledger) : result Ledger :=
  _transfer token sender to value l.

(** [payGasWithToken]; [this] is the account's own address, the sender of
    the token transfer.  The value [transfer] returns is not looked at. *)
Definition payGasWithToken (env : Env) (this : address)
    (token amount recipient : Z) (c : State * Ledger)
    : result (State * Ledger) :=
  onlyOwner env (fst c);;
  require (negb (token =? 0)) "SmartAccount: token cannot be zero address";;
  require (negb (recipient =? 0))
    "SmartAccount: recipient cannot be zero address";;
  require (0 <? amount) "SmartAccount: amount must be greater than zero";;
  l ← transfer token this recipient amount (snd c);
  Ok (emit (GasPaymentExecuted token amount) (fst c), l).

End SmartAccountGas.

Module SmartAccountERC4337.
Import SmartAccount.

(** [struct UserOperation]. *)
Record UserOperation : Type := mkUserOperation {
  sender : address;
  nonce : Z;
  initCode : bytes;
  callData : bytes;
  callGasLimit : Z;
  verificationGasLimit : Z;
  preVerificationGas : Z;
  maxFeePerGas : Z;
  maxPriorityFeePerGas : Z;
  paymasterAndData : bytes;
  signature : bytes
}.

(** The account's storage with its private [_nonce]. *)
Record Account : Type := mkAccount {
  base : State;
  _nonce : Z
}.

Definition getNonce (a : Account) : Z := _nonce a.

Definition onlyEntryPoint (env : Env) (a : Account) : result unit :=
  require (msg_sender env =? entryPoint (base a))
    "SmartAccount: caller is not EntryPoint".

Section Calls.

Variable World : Type.

(** What a call out of the account hands back: the account and the world
    as the callee left them, or the callee's revert data. *)
Inductive Outcome : Type :=
| Done (c : Account * World)
| Failed (returndata : string).

(** [MessageHashUtils.toEthSignedMessageHash], [ECDSA.recover] (which
    reverts on a malformed signature) and [target.call{value: v}(data)]. *)
Variable toEthSignedMessageHash : Z -> Z.
Variable recover : Z -> bytes -> result address.
Variable call : address -> Z -> bytes -> Account * World -> Outcome.

Definition _validateSignature (userOp : UserOperation) (userOpHash : Z)
    (a : Account) : result Z :=
  let hash := toEthSignedMessageHash userOpHash in
  signer ← recover hash (signature userOp);
  if signer =? owner (base a) then Ok 0 else Ok 1.

Definition validateUserOp (env : Env) (userOp : UserOperation)
    (userOpHash missingAccountFunds : Z) (c : Account * World)
    : result (Z * (Account * World)) :=
  onlyEntryPoint env (fst c);;
  require (nonce userOp =? _nonce (fst c)) "SmartAccount: invalid nonce";;
  validationData ← _validateSignature userOp userOpHash (fst c);
  n ← add (_nonce (fst c)) 1;
  let c1 := (mkAccount (base (fst c)) n, snd c) in
  c2 ← (if 0 <? missingAccountFunds
        then
          match call (msg_sender env) missingAccountFunds [] c1 with
          | Done c' => Ok c'
          | Failed _ => Revert "SmartAccount: failed to pay prefund"
          end
        else Ok c1);
  Ok (validationData, c2).

(** [_call]: a failed call reverts with the callee's revert data. *)
Definition _call (target : address) (value' : Z) (data' : bytes)
    (c : Account * World) : result (Account * World) :=
  match call target value' data' c with
  | Done c' => Ok c'
  | Failed result' => Revert result'
  end.

Definition executeUserOp (env : Env) (dest : address) (value' : Z)
    (func : bytes) (c : Account * World) : result (Account * World) :=
  onlyEntryPoint env (fst c);;
  _call dest value' func c.

End Calls.

Arguments Done {World} c.
Arguments Failed {World} returndata.

End SmartAccountERC4337.
(* ===================================================================== *)
(** * JavaScript values *)
(* ===================================================================== *)

(** A [number] is an IEEE-754 binary64 value: the kernel's [float], whose
    [+], [-], [*], [/] round to nearest-even as JavaScript's do, and whose
    comparisons treat [NaN] and the two zeros as JavaScript's [<], [<=] and
    [===] do. *)
Module JS.

Abbreviation number := float.

Definition NaN : number := PrimFloat.nan.
Definition MAX_SAFE_INTEGER : number := 9007199254740991%float.

(** [ToBoolean]: a number is falsy when it is [+0], [-0] or [NaN]; a
    string when it is empty; [undefined] always. *)
Definition truthy (x : number) : bool :=
  negb (PrimFloat.is_nan x || PrimFloat.is_zero x).
Definition truthy_string (s : string) : bool :=
  match s with EmptyString => false | _ => true end.

(** [x || d] on numbers, and on an optional number or string, where
    [None] is [undefined]. *)
Definition or_num (x d : number) : number := if truthy x then x else d.
Definition or_default (x : option number) (d : number) : number :=
  match x with
  | Some v => or_num v d
  | None => d
  end.
Definition or_string (x : option string) (d : string) : string :=
  match x with
  | Some s => if truthy_string s then s else d
  | None => d
  end.

(** An integer as a number (exact below 2^53). *)
Definition of_Z (z : Z) : number :=
  if z <? 0 then (- PrimFloat.of_uint63 (Uint63.of_Z (- z)))%float
  else PrimFloat.of_uint63 (Uint63.of_Z z).

(** [Math.round]: the closest integer, a tie going towards +infinity; an
    integral, infinite or [NaN] argument is returned as it is, and a result
    of zero keeps the argument's sign. *)
Definition Math_round (x : number) : number :=
  match Prim2SF x with
  | S754_finite s m e =>
      if 0 <=? e then x
      else
        let n := if s then Z.neg m else Z.pos m in
        let d := 2 ^ (- e) in
        let r := (2 * n + d) / (2 * d) in
        if r =? 0 then (if s then (-0)%float else 0%float) else of_Z r
  | _ => x
  end.

(** [Math.max] of two numbers: [NaN] if either is, and [+0] above [-0]. *)
Definition Math_max (a b : number) : number :=
  if PrimFloat.is_nan a || PrimFloat.is_nan b then NaN
  else if (a <? b)%float then b
  else if (b <? a)%float then a
  else if PrimFloat.is_zero a && PrimFloat.get_sign a then b
  else a.

Definition Math_abs (x : number) : number := PrimFloat.abs x.

(** [String.prototype.toLowerCase] on ASCII letters; other bytes stay.  No
    character outside ASCII lowers to a letter of the keys looked up here. *)
Definition lower_ascii (c : ascii) : ascii :=
  let n := nat_of_ascii c in
  if ((65 <=? n) && (n <=? 90))%nat then ascii_of_nat (n + 32) else c.
Fixpoint toLowerCase (s : string) : string :=
  match s with
  | EmptyString => EmptyString
  | String c s' => String (lower_ascii c) (toLowerCase s')
  end.

(** [String.prototype.toUpperCase] on ASCII text, and the strings on which
    the two case conversions above and below are exact. *)
Definition upper_ascii (c : ascii) : ascii :=
  let n := nat_of_ascii c in
  if ((97 <=? n) && (n <=? 122))%nat then ascii_of_nat (n - 32) else c.
Fixpoint toUpperCase (s : string) : string :=
  match s with
  | EmptyString => EmptyString
  | String c s' => String (upper_ascii c) (toUpperCase s')
  end.
Fixpoint ascii_only (s : string) : bool :=
  match s with
  | EmptyString => true
  | String c s' => (nat_of_ascii c <? 128)%nat && ascii_only s'
  end.

(** [String.prototype.startsWith]. *)
Definition startsWith (s pre : string) : bool := String.prefix pre s.

(** The properties every object literal inherits from [Object.prototype];
    each is a function or an object, hence truthy. *)
Definition Object_prototype_names : list string :=
  [ "constructor"; "__defineGetter__"; "__defineSetter__"; "hasOwnProperty";
    "__lookupGetter__"; "__lookupSetter__"; "isPrototypeOf";
    "propertyIsEnumerable"; "toString"; "valueOf"; "__proto__";
    "toLocaleString" ].

(** [o[key]] on an object literal whose own properties are strings: an own
    property, an inherited one, or [undefined]. *)
Inductive Property : Type :=
| Own (v : string)
| Inherited (name : string).

Fixpoint own_property (o : list (string * string)) (key : string)
    : option string :=
  match o with
  | [] => None
  | (k, v) :: rest => if String.eqb key k then Some v else own_property rest key
  end.
Definition get_property (o : list (string * string)) (key : string)
    : option Property :=
  match own_property o key with
  | Some v => Some (Own v)
  | None =>
      if existsb (String.eqb key) Object_prototype_names
      then Some (Inherited key)
      else None
  end.

(** [Math.floor]: the largest integer not above the argument; an integral,
    infinite or [NaN] argument is returned as it is. *)
Definition Math_floor (x : number) : number :=
  match Prim2SF x with
  | S754_finite s m e =>
      if 0 <=? e then x
      else
        let n := if s then Z.neg m else Z.pos m in
        let r := n / 2 ^ (- e) in
        if r =? 0 then (if s then (-0)%float else 0%float) else of_Z r
  | _ => x
  end.

(** [BigInt.prototype.toString]: the decimal digits, behind a minus sign
    for a negative integer.  [digits] is given one step per binary digit,
    more than there are decimal ones. *)
Fixpoint digits (fuel : nat) (n : Z) (acc : string) : string :=
  match fuel with
  | O => acc
  | S fuel' =>
      let acc' := String (ascii_of_nat (48 + Z.to_nat (n mod 10))) acc in
      if n <? 10 then acc' else digits fuel' (n / 10) acc'
  end.
Definition bigint_toString (n : Z) : string :=
  if n <? 0 then String "-" (digits (S (Z.to_nat (Z.log2 (- n)))) (- n) "")
  else digits (S (Z.to_nat (Z.log2 n))) n "".

(** [Array.prototype.join]. *)
Fixpoint join (sep : string) (l : list string) : string :=
  match l with
  | [] => ""
  | [x] => x
  | x :: rest => x ++ sep ++ join sep rest
  end.

(** [Array.prototype.sort(compare)]: a stable sort in which [b] moves in
    front of [a] only when [compare a b > 0]; a [NaN] or zero result keeps
    the order.  Written as the insertion of each element, in turn, behind
    the elements that need not follow it. *)
Section Sort.

Context {A : Type}.
Variable compare : A -> A -> number.

Fixpoint sort_insert (x : A) (sorted : list A) : list A :=
  match sorted with
  | [] => [x]
  | y :: rest =>
      if (0 <? compare y x)%float then x :: y :: rest
      else y :: sort_insert x rest
  end.

Definition sort (l : list A) : list A :=
  fold_left (fun acc x => sort_insert x acc) l [].

End Sort.

End JS.

(* ===================================================================== *)
(** * services/MultiProtocolAggregator.ts *)
(* ===================================================================== *)

Module MultiProtocolAggregator.
Import JS.

(** The keys of [this.protocols]. *)
Inductive ProtocolKey : Type := lifi | across.

Definition key_string (k : ProtocolKey) : string :=
  match k with lifi => "lifi" | across => "across" end.
Definition key_eqb (a b : ProtocolKey) : bool :=
  match a, b with
  | lifi, lifi | across, across => true
  | _, _ => false
  end.

(** An entry of [this.protocols]: display name and supported chains. *)
Record Protocol : Type := mkProtocol {
  name : string;
  supportedChains : list Z
}.

Definition protocols : list (ProtocolKey * Protocol) :=
  [ (lifi, mkProtocol "Li.Fi" [1; 10; 42161; 137; 8453; 56; 43114]);
    (across, mkProtocol "Across Protocol" [1; 10; 42161; 137; 8453]) ].

(** The parts of a provider's [estimate] and [rawData] that are read:
    the quoted USD amounts (strings) and the number of [includedSteps]. *)
Record Estimate : Type := mkEstimate {
  fromAmountUSD : option string;
  toAmountUSD : option string;
  includedSteps : option nat
}.
Record RawData : Type := mkRawData {
  raw_includedSteps : option nat
}.

(** What [getLiFiRoutes] and [getAcrossRoutes] return for a quote; an
    absent ([undefined]) field is [None]. *)
Record RawRoute : Type := mkRawRoute {
  id : string;
  tool : option string;
  executionDuration : option number;
  totalFee : option string;
  toAmount : option string;
  estimate : option Estimate;
  rawData : option RawData
}.

(** [interface ProtocolRoute]: the quote with [protocol], [protocolName] and
    [actualTool] spread over it. *)
Record ProtocolRoute : Type := mkProtocolRoute {
  raw : RawRoute;
  protocol : ProtocolKey;
  protocolName : string;
  actualTool : option string
}.

Record SecurityAnalysis : Type := mkSecurityAnalysis {
  protocolSecurity : number;
  liquiditySecurity : number;
  timeSecurity : number;
  feeSecurity : number;
  routeComplexity : number
}.

(** [interface AnalyzedRoute]. *)
Record AnalyzedRoute : Type := mkAnalyzedRoute {
  route : ProtocolRoute;
  securityAnalysis : SecurityAnalysis;
  overallSecurity : number;
  riskFactors : list string
}.

Record Split : Type := mkSplit {
  split_protocol : ProtocolKey;
  split_protocolName : string;
  split_route : AnalyzedRoute;
  split_amount : number;
  percentage : number
}.

(** [interface AggregatedRoute]. *)
Record AggregatedRoute : Type := mkAggregatedRoute {
  strategy : string;
  routes : list AnalyzedRoute;
  totalAmount : number;
  splits : list Split;
  estimatedTime : number;
  totalFees : number;
  securityScore : number;
  description : string
}.

Record Params : Type := mkParams {
  fromChain : Z;
  toChain : Z;
  fromToken : string;
  toToken : string;
  amount : string;
  userAddress : string
}.

(** A call either returns or throws. *)
Inductive completion (A : Type) : Type :=
| Return (a : A)
| Throw (message : string).
Arguments Return {A} a.
Arguments Throw {A} message.

Definition chain_in (c : Z) (l : list Z) : bool := existsb (Z.eqb c) l.

(** [isProtocolEnabled]. *)
Definition isProtocolEnabled (k : ProtocolKey) : bool :=
  match k with lifi => true | across => true end.

(** ** Token addresses *)

(** [tokenMap] of [getTokenAddress] and [acrossTokenMap] of
    [getAcrossTokenAddress]: per chain id, the address of each symbol. *)
Definition tokenMap : list (Z * list (string * string)) :=
  [ (1, [ ("ETH", "0xEeeeeEeeeEeEeeEeEeEeeEEEeeeeEeeeeeeeEEeE");
          ("USDC", "0xA0b86991c6218b36c1d19D4a2e9Eb0cE3606eB48");
          ("USDT", "0xdAC17F958D2ee523a2206206994597C13D831ec7");
          ("WETH", "0xC02aaA39b223FE8D0A0e5C4F27eAD9083C756Cc2") ]);
    (42161, [ ("ETH", "0xEeeeeEeeeEeEeeEeEeEeeEEEeeeeEeeeeeeeEEeE");
              ("USDC", "0xaf88d065e77c8cC2239327C5EDb3A432268e5831");
              ("USDT", "0xFd086bC7CD5C481DCC9C85ebE478A1C0b69FCbb9");
              ("WETH", "0x82aF49447D8a07e3bd95BD0d56f35241523fBab1") ]);
    (137, [ ("MATIC", "0xEeeeeEeeeEeEeeEeEeEeeEEEeeeeEeeeeeeeEEeE");
            ("USDC", "0x3c499c542cEF5E3811e1192ce70d8cC03d5c3359");
            ("USDT", "0xc2132D05D31c914a87C6611C10748AEb04B58e8F");
            ("WETH", "0x7ceB23fD6bC0adD59E62ac25578270cFf1b9f619") ]) ].

Definition acrossTokenMap : list (Z * list (string * string)) :=
  [ (1, [ ("ETH", "0xC02aaA39b223FE8D0A0e5C4F27eAD9083C756Cc2");
          ("WETH", "0xC02aaA39b223FE8D0A0e5C4F27eAD9083C756Cc2");
          ("USDC", "0xA0b86991c6218b36c1d19D4a2e9Eb0cE3606eB48");
          ("USDT", "0xdAC17F958D2ee523a2206206994597C13D831ec7");
          ("DAI", "0x6B175474E89094C44Da98b954EedeAC495271d0F") ]);
    (10, [ ("ETH", "0x4200000000000000000000000000000000000006");
           ("WETH", "0x4200000000000000000000000000000000000006");
           ("USDC", "0x0b2C639c533813f4Aa9D7837CAf62653d097Ff85");
           ("USDT", "0x94b008aA00579c1307B0EF2c499aD98a8ce58e58") ]);
    (42161, [ ("ETH", "0x82aF49447D8a07e3bd95BD0d56f35241523fBab1");
              ("WETH", "0x82aF49447D8a07e3bd95BD0d56f35241523fBab1");
              ("USDC", "0xaf88d065e77c8cC2239327C5EDb3A432268e5831");
              ("USDT", "0xFd086bC7CD5C481DCC9C85ebE478A1C0b69FCbb9") ]);
    (137, [ ("MATIC", "0x0d500B1d8E8eF31E21C99d1Db9A6444d3ADf1270");
            ("WMATIC", "0x0d500B1d8E8eF31E21C99d1Db9A6444d3ADf1270");
            ("USDC", "0x3c499c542cEF5E3811e1192ce70d8cC03d5c3359");
            ("USDT", "0xc2132D05D31c914a87C6611C10748AEb04B58e8F");
            ("WETH", "0x7ceB23fD6bC0adD59E62ac25578270cFf1b9f619") ]);
    (8453, [ ("ETH", "0x4200000000000000000000000000000000000006");
             ("WETH", "0x4200000000000000000000000000000000000006");
             ("USDC", "0x833589fCD6eDb6E08f4c7C32D4f71b54bdA02913") ]) ].

(** [map[chainId]] for an integer chain id: the keys of the outer object
    are the decimal texts of the chain ids. *)
Fixpoint chain_entry (m : list (Z * list (string * string))) (chainId : Z)
    : option (list (string * string)) :=
  match m with
  | [] => None
  | (k, t) :: rest => if chainId =? k then Some t else chain_entry rest chainId
  end.

(** [map[chainId]?.[key]]. *)
Definition token_entry (m : list (Z * list (string * string))) (chainId : Z)
    (key : string) : option Property :=
  match chain_entry m chainId with
  | Some t => get_property t key
  | None => None
  end.

(** [getTokenAddress]: [tokenMap[chainId]?.[tokenSymbol] || tokenSymbol];
    addresses and inherited properties are truthy. *)
Definition getTokenAddress (tokenSymbol : string) (chainId : Z) : Property :=
  match token_entry tokenMap chainId tokenSymbol with
  | Some p => p
  | None => Own tokenSymbol
  end.

(** [getAcrossTokenAddress]. *)
Definition getAcrossTokenAddress (tokenSymbol : string) (chainId : Z)
    : Property :=
  match token_entry acrossTokenMap chainId (toUpperCase tokenSymbol) with
  | Some address => address
  | None => getTokenAddress tokenSymbol chainId
  end.

(** ** Security scoring *)

(** [getProtocolSecurityScore]: the static [securityDatabase]. *)
Definition securityDatabase : list (string * number) :=
  [ ("relay", 92%float); ("across", 89%float); ("lifi", 92%float) ].

Fixpoint lookup_score (k : string) (db : list (string * number))
    : option number :=
  match db with
  | [] => None
  | (k', v) :: rest => if String.eqb k k' then Some v else lookup_score k rest
  end.

Definition getProtocolSecurityScore (protocolName' : string) : option number :=
  lookup_score (toLowerCase protocolName') securityDatabase.

Section Scoring.

(** The built-in [parseFloat], and the conversion of a number inside a
    template literal. *)
Variable parseFloat : string -> number.
Variable number_toString : number -> string.

Definition estimate_fromAmountUSD (r : RawRoute) : option string :=
  match estimate r with Some e => fromAmountUSD e | None => None end.
Definition estimate_toAmountUSD (r : RawRoute) : option string :=
  match estimate r with Some e => toAmountUSD e | None => None end.

Definition assessLiquiditySecurity (r : RawRoute) : option number :=
  let fromAmountUSD' := parseFloat (or_string (estimate_fromAmountUSD r) "0") in
  let toAmountUSD' := parseFloat (or_string (estimate_toAmountUSD r) "0") in
  if (fromAmountUSD' =? 0)%float then None
  else
    let slippage :=
      (Math_abs (fromAmountUSD' - toAmountUSD') / fromAmountUSD')%float in
    if (slippage <? 0.001)%float then Some 95%float
    else if (slippage <? 0.005)%float then Some 90%float
    else if (slippage <? 0.01)%float then Some 85%float
    else if (slippage <? 0.03)%float then Some 75%float
    else Some 60%float.

Definition assessTimeSecurity (r : RawRoute) : option number :=
  match executionDuration r with
  | None => None
  | Some time =>
      if negb (truthy time) then None
      else if (time <=? 5)%float then Some 98%float
      else if (time <=? 30)%float then Some 92%float
      else if (time <=? 120)%float then Some 85%float
      else if (time <=? 600)%float then Some 75%float
      else Some 60%float
  end.

Definition assessFeeReasonableness (r : RawRoute) : option number :=
  let fee := parseFloat (or_string (totalFee r) "0") in
  if (fee =? 0)%float then None
  else
    let fromAmountUSD' := parseFloat (or_string (estimate_fromAmountUSD r) "0") in
    if (fromAmountUSD' =? 0)%float then None
    else
      let feePercentage := (fee / fromAmountUSD' * 100)%float in
      if (feePercentage <? 0.1)%float then Some 95%float
      else if (feePercentage <? 0.5)%float then Some 90%float
      else if (feePercentage <? 1.0)%float then Some 85%float
      else if (feePercentage <? 2.0)%float then Some 75%float
      else Some 60%float.

(** [estimate?.includedSteps?.length || rawData?.includedSteps?.length]. *)
Definition steps_of (r : RawRoute) : option nat :=
  match match estimate r with Some e => includedSteps e | None => None end with
  | Some (S n) => Some (S n)
  | _ => match rawData r with Some d => raw_includedSteps d | None => None end
  end.

Definition assessRouteComplexity (r : RawRoute) : option number :=
  match steps_of r with
  | None | Some O => None
  | Some steps =>
      if (steps <=? 1)%nat then Some 95%float
      else if (steps <=? 2)%nat then Some 90%float
      else if (steps <=? 3)%nat then Some 80%float
      else if (steps <=? 5)%nat then Some 70%float
      else Some 60%float
  end.

Definition identifyRealRiskFactors (analysis : SecurityAnalysis) : list string :=
  (if truthy (protocolSecurity analysis)
      && (protocolSecurity analysis <? 80)%float
   then [("协议安全评分较低: "
            ++ number_toString (protocolSecurity analysis) ++ "/100")%string]
   else [])
  ++ (if truthy (liquiditySecurity analysis)
         && (liquiditySecurity analysis <? 80)%float
      then ["流动性风险: 滑点较高"] else [])
  ++ (if truthy (timeSecurity analysis)
         && (timeSecurity analysis <? 80)%float
      then ["时间风险: 执行时间较长，MEV风险增加"] else [])
  ++ (if truthy (feeSecurity analysis)
         && (feeSecurity analysis <? 80)%float
      then ["费用偏高: 超过正常市场水平"] else [])
  ++ (if truthy (routeComplexity analysis)
         && (routeComplexity analysis <? 80)%float
      then ["路由复杂: 多步骤执行，失败风险增加"] else []).

(** [route.tool || route.protocol]. *)
Definition scored_name (r : ProtocolRoute) : string :=
  or_string (tool (raw r)) (key_string (protocol r)).

(** The body of the [routes.map] of [analyzeBasicRoutes]. *)
Definition analyzeRoute (r : ProtocolRoute) : AnalyzedRoute :=
  let protocolSecurity' := getProtocolSecurityScore (scored_name r) in
  let liquiditySecurity' := assessLiquiditySecurity (raw r) in
  let timeSecurity' := assessTimeSecurity (raw r) in
  let feeSecurity' := assessFeeReasonableness (raw r) in
  let routeComplexity' := assessRouteComplexity (raw r) in
  match protocolSecurity' with
  | Some p =>
      if truthy p
      then
        let analysis :=
          mkSecurityAnalysis p
            (or_default liquiditySecurity' 75)
            (or_default timeSecurity' 75)
            (or_default feeSecurity' 75)
            (or_default routeComplexity' 75) in
        let overall :=
          Math_round
            (protocolSecurity analysis * 0.3
             + liquiditySecurity analysis * 0.25
             + timeSecurity analysis * 0.2
             + feeSecurity analysis * 0.15
             + routeComplexity analysis * 0.1)%float in
        mkAnalyzedRoute r analysis overall (identifyRealRiskFactors analysis)
      else
        mkAnalyzedRoute r (mkSecurityAnalysis 0 0 0 0 0) 0
          ["协议安全数据不可用"]
  | None =>
      mkAnalyzedRoute r (mkSecurityAnalysis 0 0 0 0 0) 0
        ["协议安全数据不可用"]
  end.

Definition analyzeBasicRoutes (rs : list ProtocolRoute) : list AnalyzedRoute :=
  map analyzeRoute rs.

(** ** Route optimisation *)

(** The flags of [preferences], by truthiness. *)
Record Preferences : Type := mkPreferences {
  prioritizeSecurity : bool;
  prioritizeSpeed : bool;
  prioritizeCost : bool
}.

Inductive RecommendationLevel : Type :=
| highly_recommended
| recommended
| acceptable
| not_recommended.

(** [interface OptimizedRoute]. *)
Record OptimizedRoute : Type := mkOptimizedRoute {
  analyzed : AnalyzedRoute;
  optimizationScore : number;
  recommendationLevel : RecommendationLevel
}.

(** The body of the [routes.map] of [optimizeRoutes]. *)
Definition optimizationScore_of (preferences : Preferences)
    (r : AnalyzedRoute) : number :=
  let score := 0%float in
  let score := (score + overallSecurity r * 0.4)%float in
  let score :=
    if prioritizeSecurity preferences
    then (score + overallSecurity r * 0.3)%float
    else score in
  let score :=
    match executionDuration (raw (route r)) with
    | Some duration =>
        if prioritizeSpeed preferences && truthy duration
        then
          let speedScore := Math_max 0 (100 - duration / 10)%float in
          (score + speedScore * 0.2)%float
        else score
    | None => score
    end in
  let score :=
    if prioritizeCost preferences
    then
      let costScore :=
        Math_max 0
          (100 - parseFloat (or_string (totalFee (raw (route r))) "0") * 100)
          %float in
      (score + costScore * 0.2)%float
    else score in
  score.

Definition level_of (score : number) : RecommendationLevel :=
  if (80 <? score)%float then highly_recommended
  else if (60 <? score)%float then recommended
  else if (40 <? score)%float then acceptable
  else not_recommended.

Definition optimizeRoute (preferences : Preferences) (r : AnalyzedRoute)
    : OptimizedRoute :=
  let score := optimizationScore_of preferences r in
  mkOptimizedRoute r score (level_of score).

Definition compareOptimized (a b : OptimizedRoute) : number :=
  (optimizationScore b - optimizationScore a)%float.

Definition optimizeRoutes (rs : list AnalyzedRoute) (preferences : Preferences)
    : list OptimizedRoute :=
  sort compareOptimized (map (optimizeRoute preferences) rs).

(** ** Strategy synthesis *)

(** The [reduce] that groups routes by [route.protocol]; the keys keep the
    order in which they first appear, as [Object.keys] lists them. *)
Fixpoint group_insert (r : AnalyzedRoute)
    (acc : list (ProtocolKey * list AnalyzedRoute))
    : list (ProtocolKey * list AnalyzedRoute) :=
  match acc with
  | [] => [(protocol (route r), [r])]
  | (k, rs) :: rest =>
      if key_eqb k (protocol (route r)) then (k, rs ++ [r]) :: rest
      else (k, rs) :: group_insert r rest
  end.
Definition routesByProtocol (rs : list AnalyzedRoute)
    : list (ProtocolKey * list AnalyzedRoute) :=
  fold_left (fun acc r => group_insert r acc) rs [].

(** [r.totalFee ? parseFloat(r.totalFee) : d]. *)
Definition fee_or (r : AnalyzedRoute) (d : number) : number :=
  match totalFee (raw (route r)) with
  | Some s => if truthy_string s then parseFloat s else d
  | None => d
  end.

(** The score inside the comparator that picks the best single route. *)
Definition routeScore (r : AnalyzedRoute) : number :=
  let time := or_default (executionDuration (raw (route r))) 300 in
  let fee := fee_or r MAX_SAFE_INTEGER in
  if (fee =? MAX_SAFE_INTEGER)%float then 0%float
  else (1000 / time + 100 / fee)%float.
Definition compareRoutes (a b : AnalyzedRoute) : number :=
  (routeScore b - routeScore a)%float.

(** The score inside the comparator of the final sort. *)
Definition sortScore (s : AggregatedRoute) : number :=
  (1000 / Math_max (estimatedTime s) 60 + 100 / Math_max (totalFees s) 1)%float.
Definition compareStrategies (a b : AggregatedRoute) : number :=
  (sortScore b - sortScore a)%float.

(** [calculateStrategyScore]; no function calls it. *)
Definition calculateStrategyScore (s : AggregatedRoute) : number :=
  (or_num (securityScore s) 80 * 0.4
   + 1000 / Math_max (estimatedTime s) 60 * 0.3
   + 100 / Math_max (totalFees s) 1 * 0.3)%float.

Definition display_name (r : AnalyzedRoute) : string :=
  if truthy_string (protocolName (route r)) then protocolName (route r)
  else key_string (protocol (route r)).

Definition bestSingleRoute (amount' : number) (bestRoute : AnalyzedRoute)
    : AggregatedRoute :=
  mkAggregatedRoute "best-single-route" [bestRoute] amount'
    [mkSplit (protocol (route bestRoute)) (display_name bestRoute) bestRoute
       amount' 100]
    (or_default (executionDuration (raw (route bestRoute))) 0)
    (fee_or bestRoute 0)
    (or_num (overallSecurity bestRoute) 75)
    ("最优单路由: " ++ protocolName (route bestRoute) ++ " (工具: "
       ++ match tool (raw (route bestRoute)) with
          | Some t => t
          | None => "undefined"
          end ++ ")")%string.

Definition multiProtocolSplit (amount' : number) (route1 route2 : AnalyzedRoute)
    : AggregatedRoute :=
  let route1Security := or_num (overallSecurity route1) 75 in
  let route2Security := or_num (overallSecurity route2) 75 in
  let combinedSecurity :=
    Math_round (route1Security * 0.7 + route2Security * 0.3)%float in
  let route1Fee := fee_or route1 0 in
  let route2Fee := fee_or route2 0 in
  let combinedFees := (route1Fee * 0.7 + route2Fee * 0.3)%float in
  mkAggregatedRoute "multi-protocol-split" [route1; route2] amount'
    [mkSplit (protocol (route route1)) (display_name route1) route1
       (amount' * 0.7)%float 70;
     mkSplit (protocol (route route2)) (display_name route2) route2
       (amount' * 0.3)%float 30]
    (Math_max (or_default (executionDuration (raw (route route1))) 0)
       (or_default (executionDuration (raw (route route2))) 0))
    combinedFees combinedSecurity
    ("风险分散: " ++ protocolName (route route1) ++ "(70%) + "
       ++ protocolName (route route2) ++ "(30%)")%string.

Definition generateMultiProtocolSplits (rs : list AnalyzedRoute)
    (params : Params) : list AggregatedRoute :=
  let amount' := parseFloat (amount params) in
  let groups := routesByProtocol rs in
  let strategy1 :=
    match sort compareRoutes rs with
    | bestRoute :: _ => [bestSingleRoute amount' bestRoute]
    | [] => []
    end in
  let strategy2 :=
    if (1 <? length groups)%nat && (0.5 <? amount')%float
    then
      match groups with
      | (_, route1 :: _) :: (_, route2 :: _) :: _ =>
          [multiProtocolSplit amount' route1 route2]
      | _ => []
      end
    else [] in
  sort compareStrategies (strategy1 ++ strategy2).

(** ** Aggregation *)

Variable getLiFiRoutes : Params -> completion (list RawRoute).
Variable getAcrossRoutes : Params -> completion (list RawRoute).

Definition getProtocolRoutes (k : ProtocolKey) (params : Params)
    : completion (list RawRoute) :=
  match k with
  | lifi => getLiFiRoutes params
  | across => getAcrossRoutes params
  end.

(** The body of one [routePromises] entry: the routes one protocol
    contributes; a thrown error is caught and counts as no route. *)
Definition protocolRoutes (params : Params) (entry : ProtocolKey * Protocol)
    : list ProtocolRoute :=
  let '(protocolKey, protocol') := entry in
  if negb (isProtocolEnabled protocolKey) then []
  else if chain_in (fromChain params) (supportedChains protocol')
          && chain_in (toChain params) (supportedChains protocol')
  then
    match getProtocolRoutes protocolKey params with
    | Return rs =>
        map (fun r => mkProtocolRoute r protocolKey (name protocol') (tool r))
          rs
    | Throw _ => []
    end
  else [].

Definition collectRoutes (params : Params) : list ProtocolRoute :=
  flat_map (protocolRoutes params) protocols.

Definition getAggregatedRoutes (params : Params)
    : completion (list AggregatedRoute) :=
  let allRoutes := collectRoutes params in
  match allRoutes with
  | [] => Throw "所有协议都无法提供路由"
  | _ =>
      let analyzedRoutes := analyzeBasicRoutes allRoutes in
      Return (generateMultiProtocolSplits analyzedRoutes params)
  end.

End Scoring.

End MultiProtocolAggregator.

(* ===================================================================== *)
(** * services/SmartAggregatorBridge.ts *)
(* ===================================================================== *)

Module SmartAggregatorBridge.
Import JS.
Import MultiProtocolAggregator (completion, Return, Throw).

(** A value read from a provider's JSON. *)
Inductive value : Type :=
| Undefined
| Null
| Boolean (b : bool)
| Number (n : number)
| Str (s : string).

(** [ToBoolean]. *)
Definition truthy_value (v : value) : bool :=
  match v with
  | Undefined | Null => false
  | Boolean b => b
  | Number n => truthy n
  | Str s => truthy_string s
  end.

Definition is_undefined (v : value) : bool :=
  match v with Undefined => true | _ => false end.

(** The fields of an Across route that [generateAcrossCallData] reads;
    a path that ends in [undefined] reads as [Undefined]. *)
Record AcrossRoute : Type := mkAcrossRoute {
  id : option string;
  estimate_inputToken_address : value;
  estimate_outputToken_address : value;
  fromAmount : value;
  toAmount : value;
  estimate_outputToken_chainId : value;
  rawData_exclusiveRelayer : value;
  rawData_timestamp : value;
  rawData_fillDeadline : value;
  rawData_exclusivityDeadline : value
}.

Definition ZeroAddress : string := "0x0000000000000000000000000000000000000000".

Section Ethers.

(** [BigInt(v)] ([None] when it throws), the text of a value inside a
    template literal, and ethers' ABI encoder for [depositV3] applied to its
    twelve arguments. *)
Variable BigInt : value -> option Z.
Variable value_toString : value -> string.
Variable encodeDepositV3 : list value -> completion string.

(** [if (!x) missingFields.push(name)], field by field. *)
Definition missingFields (r : AcrossRoute) : list string :=
  (if negb (truthy_value (estimate_inputToken_address r))
   then ["inputToken"] else [])
  ++ (if negb (truthy_value (estimate_outputToken_address r))
      then ["outputToken"] else [])
  ++ (if negb (truthy_value (fromAmount r)) then ["inputAmount"] else [])
  ++ (if negb (truthy_value (toAmount r)) then ["outputAmount"] else [])
  ++ (if negb (truthy_value (estimate_outputToken_chainId r))
      then ["destinationChainId"] else [])
  ++ (if negb (truthy_value (rawData_exclusiveRelayer r))
      then ["exclusiveRelayer"] else [])
  ++ (if negb (truthy_value (rawData_timestamp r))
      then ["quoteTimestamp"] else [])
  ++ (if negb (truthy_value (rawData_fillDeadline r))
      then ["fillDeadline"] else [])
  ++ (if is_undefined (rawData_exclusivityDeadline r)
      then ["exclusivityDeadline"] else []).

Definition missing_message (r : AcrossRoute) : string :=
  ("Across 路由数据不完整，缺少以下必需字段: "
   ++ join ", " (missingFields r) ++ "。"
   ++ "路由 ID: " ++ or_string (id r) "unknown" ++ "。"
   ++ "请确保 Across API 返回完整的报价数据。")%string.

(** The arguments handed to [encodeFunctionData('depositV3', ...)]. *)
Definition depositV3_arguments (r : AcrossRoute) (userAddress : string)
    : list value :=
  [ Str ZeroAddress;
    Str userAddress;
    estimate_inputToken_address r;
    estimate_outputToken_address r;
    fromAmount r;
    toAmount r;
    estimate_outputToken_chainId r;
    rawData_exclusiveRelayer r;
    rawData_timestamp r;
    rawData_fillDeadline r;
    rawData_exclusivityDeadline r;
    Str "0x" ].

Definition generateAcrossCallData (r : AcrossRoute) (userAddress : string)
    : completion string :=
  match missingFields r with
  | _ :: _ => Throw (missing_message r)
  | [] =>
      match BigInt (fromAmount r), BigInt (toAmount r) with
      | Some _, Some _ => encodeDepositV3 (depositV3_arguments r userAddress)
      | _, _ =>
          Throw ("Across 金额格式无效。inputAmount: "
                 ++ value_toString (fromAmount r) ++ ", outputAmount: "
                 ++ value_toString (toAmount r))%string
      end
  end.

(** ** Protocol names, bridges and amounts *)

Definition and_then {A B : Type} (c : completion A) (f : A -> completion B)
    : completion B :=
  match c with
  | Return a => f a
  | Throw message => Throw message
  end.

(** [normalizeProtocolName]. *)
Definition normalizeProtocolName (protocol : string) : completion string :=
  let lower := toLowerCase protocol in
  if String.eqb lower "across" then Return "Across"
  else if String.eqb lower "lifi" || String.eqb lower "li.fi"
          || String.eqb lower "relay"
  then Return "LiFi"
  else if String.eqb lower "ccip" then Return "CCIP"
  else Throw ("未知的协议名称: " ++ protocol)%string.

(** A route of a strategy: the fields above, the names
    MultiProtocolAggregator gives the route ([protocol] always, [tool] and
    [actualTool] when the provider named a tool), and the fields read for a
    Li.Fi call and for the source chain. *)
Record Route : Type := mkRoute {
  fields : AcrossRoute;
  actualTool : option string;
  tool : option string;
  protocol : string;
  estimate_inputToken_chainId : value;
  rawData_transactionRequest_data : value;
  rawData_transactionRequest_value : value
}.

(** [route.actualTool || route.tool || route.protocol]. *)
Definition protocol_of (r : Route) : string :=
  or_string (actualTool r) (or_string (tool r) (protocol r)).

(** [typeof]. *)
Definition typeof (v : value) : string :=
  match v with
  | Undefined => "undefined"
  | Null => "object"
  | Boolean _ => "boolean"
  | Number _ => "number"
  | Str _ => "string"
  end.

(** [String.prototype.length]: the UTF-16 code units of a text held as
    UTF-8 bytes; a four-byte sequence makes a surrogate pair. *)
Definition code_units (c : ascii) : nat :=
  let n := nat_of_ascii c in
  if (n <? 128)%nat then 1%nat
  else if (n <? 192)%nat then 0%nat
  else if (n <? 240)%nat then 1%nat
  else 2%nat.
Fixpoint String_length (s : string) : nat :=
  match s with
  | EmptyString => 0%nat
  | String c s' => (code_units c + String_length s')%nat
  end.

(** The message of the error [BigInt(v)] throws. *)
Variable BigInt_error : value -> string.

Definition BigInt_or_throw (v : value) : completion Z :=
  match BigInt v with
  | Some n => Return n
  | None => Throw (BigInt_error v)
  end.

(** [generateLiFiCallData]. *)
Definition generateLiFiCallData (r : Route) (userAddress : string)
    : completion string :=
  if negb (truthy_value (rawData_transactionRequest_data r))
  then
    Throw ("Li.Fi 路由数据不完整，缺少 transactionRequest.data。"
           ++ "路由 ID: " ++ or_string (id (fields r)) "unknown" ++ "。"
           ++ "请确保调用 Li.Fi API 时请求完整的 transactionRequest 字段。")%string
  else
    match rawData_transactionRequest_data r with
    | Str callData =>
        if negb (startsWith callData "0x")
        then
          Throw ("Li.Fi transactionRequest.data 格式无效。"
                 ++ "预期: 0x开头的十六进制字符串，实际类型: "
                 ++ typeof (Str callData))%string
        else if (String_length callData <? 10)%nat
        then
          Throw ("Li.Fi transactionRequest.data 长度过短: "
                 ++ value_toString
                      (Number (of_Z (Z.of_nat (String_length callData))))
                 ++ " 字符。"
                 ++ "有效的 calldata 至少需要 10 个字符（0x + 8位函数选择器）")%string
        else Return callData
    | callData =>
        Throw ("Li.Fi transactionRequest.data 格式无效。"
               ++ "预期: 0x开头的十六进制字符串，实际类型: "
               ++ typeof callData)%string
    end.

(** [generateCallData]. *)
Definition generateCallData (protocol' : string) (r : Route)
    (userAddress : string) : completion string :=
  and_then (normalizeProtocolName protocol') (fun normalizedProtocol =>
  if String.eqb normalizedProtocol "LiFi"
  then generateLiFiCallData r userAddress
  else if String.eqb normalizedProtocol "Across"
  then generateAcrossCallData (fields r) userAddress
  else Throw ("不支持的协议: " ++ protocol')%string).

Definition LIFI_DIAMOND : string := "0x1231DEB6f5749EF6cE6943a275A1D3E7486F4EaE".

(** [spokePools] of [getBridgeAddress]; [Object.keys] lists its keys, which
    are integers, in ascending order. *)
Definition spokePools : list (string * string) :=
  [ ("1", "0x5c7BCd6E7De5423a257D81B442095A1a6ced35C5");
    ("42161", "0xe35e9842fceaCA96570B734083f4a58e8F7C5f2A");
    ("10", "0x6f26Bf09B1C792e3228e5467807a900A503c0281");
    ("137", "0x9295ee1d8C5b022Be115A2AD3c30C72E34e7F096");
    ("8453", "0x09aea4b2242abC8bb4BB78D537A67a245A7bEC64") ].
Definition spokePools_keys : list string :=
  [ "1"; "10"; "137"; "8453"; "42161" ].

(** [getBridgeAddress]; the key of [spokePools[chainId]] is the text of
    [chainId]. *)
Definition getBridgeAddress (protocol' : string) (r : Route)
    : completion Property :=
  and_then (normalizeProtocolName protocol') (fun normalized =>
  if String.eqb normalized "LiFi" then Return (Own LIFI_DIAMOND)
  else if String.eqb normalized "Across"
  then
    let chainId := estimate_inputToken_chainId r in
    if negb (truthy_value chainId)
    then Throw "无法确定源链 ID，Across 路由数据不完整"
    else
      match get_property spokePools (value_toString chainId) with
      | Some spokePool => Return spokePool
      | None =>
          Throw ("Across SpokePool 不支持链 ID " ++ value_toString chainId
                 ++ "。" ++ "支持的链: " ++ join ", " spokePools_keys)%string
      end
  else Throw ("无法获取 " ++ protocol' ++ " 的桥接合约地址")%string).

(** [calculateValue]. *)
Definition calculateValue (protocol' : string) (r : Route) : completion Z :=
  and_then (normalizeProtocolName protocol') (fun normalized =>
  if String.eqb normalized "LiFi"
  then
    let value' := rawData_transactionRequest_value r in
    if is_undefined value' then Return 0
    else
      match BigInt value' with
      | Some valueBigInt => Return valueBigInt
      | None =>
          Throw ("Li.Fi transactionRequest.value 格式无效: "
                 ++ value_toString value')%string
      end
  else if String.eqb normalized "Across" then Return 0
  else Return 0).

(** [calculateMinOutput]; the division of two [bigint]s truncates. *)
Definition calculateMinOutput (r : Route) : completion Z :=
  let outputAmount := toAmount (fields r) in
  if negb (truthy_value outputAmount)
  then Throw "路由缺少 toAmount，无法计算最小输出"
  else
    match BigInt outputAmount with
    | Some outputBigInt => Return (Z.quot (outputBigInt * 98) 100)
    | None =>
        Throw ("outputAmount 格式无效: " ++ value_toString outputAmount)%string
    end.

(** An entry of [strategy.splits]. *)
Record Split : Type := mkSplit {
  split_protocol : string;
  split_route : Route;
  split_amount : number
}.

(** [interface AggregatedRoute], as far as it is read. *)
Record AggregatedRoute : Type := mkAggregatedRoute {
  strategy : string;
  routes : list Route;
  totalAmount : number;
  splits : list Split;
  estimatedTime : number;
  totalFees : number;
  securityScore : number
}.

(** The loop of [calculateMinOutputForSplit]. *)
Fixpoint sum_outputs (l : list Split) (totalOutput : Z) : completion Z :=
  match l with
  | [] => Return totalOutput
  | split :: rest =>
      let toAmount' := toAmount (fields (split_route split)) in
      if negb (truthy_value toAmount')
      then Throw ("拆分路由缺少 toAmount: " ++ split_protocol split)%string
      else
        match BigInt toAmount' with
        | Some outputAmount => sum_outputs rest (totalOutput + outputAmount)
        | None =>
            Throw ("拆分路由 " ++ split_protocol split ++ " 的 toAmount 格式无效: "
                   ++ value_toString toAmount')%string
        end
  end.

Definition calculateMinOutputForSplit (s : AggregatedRoute) : completion Z :=
  and_then (sum_outputs (splits s) 0) (fun totalOutput =>
  Return (Z.quot (totalOutput * 98) 100)).

(** ** Execution data *)

(** [interface ProtocolRoute]. *)
Record ProtocolRoute : Type := mkProtocolRoute {
  pr_protocol : string;
  pr_bridge : Property;
  pr_callData : string;
  pr_value : Z;
  pr_amount : Z
}.

(** [interface AggregatedRouteStrategy]. *)
Record AggregatedRouteStrategy : Type := mkAggregatedRouteStrategy {
  strategyType : string;
  ars_routes : list ProtocolRoute;
  ars_totalAmount : Z;
  minOutput : Z;
  deadline : number;
  ars_securityScore : number;
  ars_estimatedTime : number;
  estimatedFees : Z
}.

(** What [serializeStrategy] returns. *)
Record SerializedRoute : Type := mkSerializedRoute {
  sr_protocol : string;
  sr_bridge : Property;
  sr_callData : string;
  sr_value : string;
  sr_amount : string
}.
Record SerializedStrategy : Type := mkSerializedStrategy {
  ss_strategyType : string;
  ss_routes : list SerializedRoute;
  ss_totalAmount : string;
  ss_minOutput : string;
  ss_deadline : number;
  ss_securityScore : number;
  ss_estimatedTime : number;
  ss_estimatedFees : string
}.

Definition serializeStrategy (s : AggregatedRouteStrategy)
    : SerializedStrategy :=
  mkSerializedStrategy (strategyType s)
    (map (fun r =>
            mkSerializedRoute (pr_protocol r) (pr_bridge r) (pr_callData r)
              (bigint_toString (pr_value r)) (bigint_toString (pr_amount r)))
       (ars_routes s))
    (bigint_toString (ars_totalAmount s))
    (bigint_toString (minOutput s))
    (deadline s) (ars_securityScore s) (ars_estimatedTime s)
    (bigint_toString (estimatedFees s)).

(** [interface ContractExecutionData]; [parameters] holds the source token
    and the serialized strategy. *)
Record ContractExecutionData : Type := mkContractExecutionData {
  success : bool;
  ced_strategy : AggregatedRoute;
  functionName : string;
  parameters : string * SerializedStrategy;
  ced_value : string;
  aggregatedStrategy : AggregatedRouteStrategy;
  protocolRoutes : list ProtocolRoute
}.

(** The route object built for one route: its properties are evaluated in
    the order written, [amount] last. *)
Definition build_route (r : Route) (userAddress : string)
    (amount' : completion Z) : completion ProtocolRoute :=
  let protocol' := protocol_of r in
  and_then (normalizeProtocolName protocol') (fun name' =>
  and_then (getBridgeAddress protocol' r) (fun bridge' =>
  and_then (generateCallData protocol' r userAddress) (fun callData' =>
  and_then (calculateValue protocol' r) (fun value' =>
  and_then amount' (fun amount'' =>
  Return (mkProtocolRoute name' bridge' callData' value' amount'')))))).

(** [fromAmount || totalAmount]. *)
Definition amount_or (v : value) (d : number) : value :=
  if truthy_value v then v else Number d.

(** The fields both kinds of strategy share; [now] is [Date.now()]. *)
Definition strategy_of (strategyType' : string) (rs : list ProtocolRoute)
    (s : AggregatedRoute) (minOutput' : completion Z) (now : number)
    : completion AggregatedRouteStrategy :=
  and_then (BigInt_or_throw (Number (totalAmount s))) (fun totalAmount' =>
  and_then minOutput' (fun minOutput'' =>
  and_then (BigInt_or_throw
              (Number (Math_floor (totalFees s * 1e18)%float)))
    (fun estimatedFees' =>
  Return (mkAggregatedRouteStrategy strategyType' rs totalAmount' minOutput''
            (Math_floor (now / 1000) + 3600)%float
            (or_num (securityScore s) 75) (or_num (estimatedTime s) 0)
            estimatedFees')))).

(** [generateSingleRouteData]; reading a property of the absent first
    route throws (the message is V8's). *)
Definition generateSingleRouteData (s : AggregatedRoute)
    (sourceToken userAddress : string) (now : number)
    : completion ContractExecutionData :=
  match routes s with
  | [] =>
      Throw "Cannot read properties of undefined (reading 'actualTool')"
  | route :: _ =>
      and_then
        (build_route route userAddress
           (BigInt_or_throw
              (amount_or (fromAmount (fields route)) (totalAmount s))))
        (fun protocolRoute =>
      and_then
        (strategy_of "single-route" [protocolRoute] s
           (calculateMinOutput route) now)
        (fun aggregatedStrategy' =>
      Return (mkContractExecutionData true s "executeAggregatedRoute"
                (sourceToken, serializeStrategy aggregatedStrategy')
                (bigint_toString (pr_value protocolRoute))
                aggregatedStrategy' [protocolRoute])))
  end.

(** The loop of [generateSplitRouteData]: the amount of a split is converted
    before its route is built. *)
Fixpoint split_routes (l : list Split) (userAddress : string)
    (protocolRoutes' : list ProtocolRoute) (totalValue : Z)
    : completion (list ProtocolRoute * Z) :=
  match l with
  | [] => Return (protocolRoutes', totalValue)
  | split :: rest =>
      and_then
        (BigInt_or_throw (Number (Math_floor (split_amount split))))
        (fun amount' =>
      and_then (build_route (split_route split) userAddress (Return amount'))
        (fun route =>
      split_routes rest userAddress (protocolRoutes' ++ [route])
        (totalValue + pr_value route)))
  end.

Definition generateSplitRouteData (s : AggregatedRoute)
    (sourceToken userAddress : string) (now : number)
    : completion ContractExecutionData :=
  and_then (split_routes (splits s) userAddress [] 0)
    (fun '(protocolRoutes', totalValue) =>
  and_then
    (strategy_of "split-route" protocolRoutes' s
       (calculateMinOutputForSplit s) now)
    (fun aggregatedStrategy' =>
  Return (mkContractExecutionData true s "executeAggregatedRoute"
            (sourceToken, serializeStrategy aggregatedStrategy')
            (bigint_toString totalValue)
            aggregatedStrategy' protocolRoutes'))).

(** [generateContractExecutionData]: an error is logged and thrown again. *)
Definition generateContractExecutionData (s : AggregatedRoute)
    (sourceToken userAddress : string) (now : number)
    : completion ContractExecutionData :=
  if String.eqb (strategy s) "best-single-route"
  then generateSingleRouteData s sourceToken userAddress now
  else if String.eqb (strategy s) "multi-protocol-split"
  then generateSplitRouteData s sourceToken userAddress now
  else Throw ("未知的路由策略: " ++ strategy s)%string.

End Ethers.

End SmartAggregatorBridge.

(* ===================================================================== *)
(** * Vocabulary of the statements and concrete scenarios *)
(* ===================================================================== *)

(** What the theorems below speak of, stated over the embedding: the
    conditions the specification names, the phases of a call, and the
    concrete runs used as examples. *)

Module SmartAccountSpec.
Import SmartAccount.

(** The three conditions of a recovery, as the specification words them:
    enough confirmations, the delay elapsed since initiation, not executed. *)
Definition recovery_ready (env : Env) (s : State) (id : Z) : Prop :=
  requiredGuardians s <= confirmations (recovery s id)
  /\ RECOVERY_PERIOD <= block_timestamp env - timestamp (recovery s id)
  /\ executed (recovery s id) = false.

(** The guardian invariant of the account. *)
Definition owner_not_guardian (s : State) : Prop :=
  isGuardian s (owner s) = false.

Section Batches.

Variable World : Type.
Variable keccak256_batch : list Call -> Z -> Z.

(** The state a batch hands back once every sub-call has run. *)
Definition batch_done (env : Env) (calls : list Call) (c2 : State * World)
    : State * World :=
  (set_entered false
     (emit (BatchExecuted (keccak256_batch calls (block_timestamp env)))
        (fst c2)),
   snd c2).

End Batches.

(** The scenario of the test-suite: guardians 1, 2 and 3, threshold 2;
    guardian 1 initiates a recovery to address 50 at time 1000 and guardian 2
    confirms at time 2000. *)
Definition blank_state : State := mkState 0 ∅ [] 0 0 0 ∅ 0 false [].
Definition scenario_confirmed : result State :=
  s0 ← constructor 100 [1; 2; 3] 2 999;
  s1 ← initiateRecovery (mkEnv 1 1000) 50 s0;
  confirmRecovery (mkEnv 2 2000) 0 s1.
Definition scenario_state : State := commit blank_state scenario_confirmed.

(** A world that is one balance: a call pays out of it and fails when it
    does not hold enough. *)
Definition pay (t : address) (v : Z) (d : bytes) (c : State * Z)
    : CallResult Z :=
  if v <=? snd c then CallOk (fst c, snd c - v) else CallFail "out of funds".

End SmartAccountSpec.

Module AggregatorSpec.
Import ERC20 OmniFlowSmartAggregator.

(** ** The three phases of [executeAggregatedRoute] *)

Section Bridges.

Variable bridge_call : address -> Z -> bytes -> Ledger -> option Ledger.

(** Phase 1: the guard, the checks on the strategy, the transfer of
    [totalAmount] into the contract and the payment of the protocol fee.
    Hands on the fee, the net amount and the chain so far. *)
Definition collect (env : Env) (sourceToken : address)
    (strategy : AggregatedRouteStrategy) (c : Chain)
    : result (Z * Z * Chain) :=
  require (negb (entered (storage c))) "ReentrancyGuardReentrantCall()";;
  let c := set_entered true c in
  let st := storage c in
  require (block_timestamp env <=? deadline strategy) "Strategy expired";;
  require (0 <? Z.of_nat (length (routes strategy))) "No routes provided";;
  require (0 <? totalAmount strategy) "Invalid amount";;
  require (negb (sourceToken =? 0)) "Invalid token";;
  require (minGlobalSecurityScore st <=? securityScore strategy)
    "Security score below minimum threshold";;
  scaled ← mul (estimatedFees strategy) 10000;
  feePercentage ← div scaled (totalAmount strategy);
  require (feePercentage <=? maxFeePercentage st) "Estimated fees too high";;
  (if same_string (strategyType strategy) "split-route"
   then
     require (minAmountForSplit st <=? totalAmount strategy)
       "Amount too small for split routing";;
     require ((2 <=? Z.of_nat (length (routes strategy)))
              && (Z.of_nat (length (routes strategy)) <=? 5))
       "Split routing requires 2-5 routes"
   else Ok tt);;
  l1 ← safeTransferFrom sourceToken (this env) (msg_sender env) (this env)
         (totalAmount strategy) (ledger c);
  feeScaled ← mul (totalAmount strategy) (protocolFeeBps st);
  protocolFee ← div feeScaled 10000;
  netAmount ← sub (totalAmount strategy) protocolFee;
  l2 ← (if 0 <? protocolFee
        then safeTransfer sourceToken (this env) (feeRecipient st) protocolFee l1
        else Ok l1);
  Ok (protocolFee, netAmount, set_ledger l2 c).

(** Phase 2: the bridge execution, by strategy type. *)
Definition run_strategy (env : Env) (sourceToken : address)
    (strategy : AggregatedRouteStrategy) (netAmount : Z) (c2 : Chain)
    : result (bool * Chain) :=
  if same_string (strategyType strategy) "single-route"
  then
    match routes strategy with
    | route0 :: _ =>
        _executeSingleRoute bridge_call env sourceToken route0 netAmount c2
    | [] => Revert panic_index
    end
  else if same_string (strategyType strategy) "split-route"
  then
    _executeSplitRoute bridge_call env sourceToken (routes strategy) netAmount
      c2
  else Revert "Unknown strategy type".

(** Phase 3: the refund when the bridge execution reported failure, the
    event and the release of the guard. *)
Definition settle (env : Env) (sourceToken : address)
    (strategy : AggregatedRouteStrategy) (netAmount : Z) (success : bool)
    (c3 : Chain) : result (bool * Chain) :=
  l4 ← (if negb success
        then safeTransfer sourceToken (this env) (msg_sender env) netAmount
               (ledger c3)
        else Ok (ledger c3));
  Ok (success,
      set_entered false
        (emit (AggregatedRouteExecuted (msg_sender env) (strategyType strategy)
                 (Z.of_nat (length (routes strategy))) (totalAmount strategy)
                 (securityScore strategy) (estimatedTime strategy)
                 (estimatedFees strategy) success)
           (set_ledger l4 c3))).

End Bridges.

(** ** Which failures revert *)

(** The conditions [executeAggregatedRoute] states with [require] before it
    moves any token. *)
Definition violates_precondition (env : Env) (sourceToken : address)
    (strategy : AggregatedRouteStrategy) (st : Storage) : Prop :=
  entered st = true
  \/ deadline strategy < block_timestamp env
  \/ routes strategy = []
  \/ totalAmount strategy <= 0
  \/ sourceToken = 0
  \/ securityScore strategy < minGlobalSecurityScore st
  \/ maxFeePercentage st
     < estimatedFees strategy * 10000 / totalAmount strategy
  \/ (strategyType strategy = "split-route"
      /\ (totalAmount strategy < minAmountForSplit st
          \/ (length (routes strategy) < 2)%nat
          \/ (5 < length (routes strategy))%nat))
  \/ (strategyType strategy <> "single-route"
      /\ strategyType strategy <> "split-route").

(** The caller cannot pay [totalAmount], or has not approved it. *)
Definition cannot_pay (env : Env) (sourceToken : address)
    (strategy : AggregatedRouteStrategy) (l : Ledger) : Prop :=
  balanceOf l sourceToken (msg_sender env) < totalAmount strategy
  \/ (allowance l sourceToken (msg_sender env) (this env)
      < totalAmount strategy
      /\ totalAmount strategy <= uint256_max).

(** A route the contract refuses to call. *)
Definition refused_route (st : Storage) (r : ProtocolRoute) : Prop :=
  mget_bool (trustedBridges st) (bridge r) = false \/ callData r = [].

(** The routes a strategy executes: the first one of a single-route
    strategy, every one of a split-route strategy. *)
Definition executed_routes (strategy : AggregatedRouteStrategy)
    : list ProtocolRoute :=
  if same_string (strategyType strategy) "single-route"
  then firstn 1 (routes strategy)
  else routes strategy.

(** ** Concrete runs

    The aggregator at address 500, deployed with fee recipient 600 and LiFi
    diamond 900; token 77; the caller, address 10, holds 2 ether of the token
    and has approved the aggregator for it. *)
Definition blank_storage : Storage := mkStorage 0 0 ∅ ∅ 0 0 ∅ 0 0 0 false.
Definition demo_storage : Storage := commit blank_storage (constructor 1 600 900).
Definition demo_chain : Chain :=
  mkChain demo_storage
    (mkLedger {[ (77, 10) := 2 * ether ]} {[ (77, 10, 500) := 2 * ether ]}) [].
Definition demo_env : Env := mkEnv 10 1000 500.

(** A bridge whose every call fails, and one where the LiFi diamond pulls
    the allowance the aggregator gave it while every other bridge fails. *)
Definition dead_bridge (b : address) (v : Z) (d : bytes) (l : Ledger)
    : option Ledger := None.
Definition pulling_bridge (b : address) (v : Z) (d : bytes) (l : Ledger)
    : option Ledger :=
  if b =? 900
  then match safeTransferFrom 77 b 500 b (allowance l 77 500 b) l with
       | Ok l' => Some l'
       | Revert _ => None
       end
  else None.

Definition single_strategy : AggregatedRouteStrategy :=
  mkStrategy "single-route"
    [mkProtocolRoute "LiFi" 900 [Byte.x01] 0 ether]
    ether 0 2000 90 60 0.
Definition split_strategy : AggregatedRouteStrategy :=
  mkStrategy "split-route"
    [mkProtocolRoute "LiFi" 900 [Byte.x01] 0 (6 * (ether / 10));
     mkProtocolRoute "Across" spokePool_ethereum [Byte.x01] 0 (3 * (ether / 10))]
    ether 0 2000 90 60 0.

End AggregatorSpec.

Module JSSpec.

(** A binary64 value above zero, on the specification of floats. *)
Definition SFpositive (f : spec_float) : bool := SFltb (S754_zero false) f.

End JSSpec.

Module MultiProtocolAggregatorSpec.
Import JS MultiProtocolAggregator.

(** The weighted sum of five integer sub-scores, rounded half up, in exact
    integer arithmetic:
    round(0.30 p + 0.25 l + 0.20 t + 0.15 f + 0.10 c). *)
Definition weighted_round (p l t f c : Z) : Z :=
  (2 * (30 * p + 25 * l + 20 * t + 15 * f + 10 * c) + 100) / 200.

(** The values each sub-score can take, 75 standing in for an unavailable
    one. *)
Definition protocol_scores : list Z := [92; 89].
Definition liquidity_scores : list Z := [95; 90; 85; 75; 60].
Definition time_scores : list Z := [98; 92; 85; 75; 60].
Definition fee_scores : list Z := [95; 90; 85; 75; 60].
Definition complexity_scores : list Z := [95; 90; 80; 70; 60; 75].

(** The reputation table: the ids of the providers that have a record,
    written in lower case, each with its score; an id is looked up without
    regard to case. *)
Definition reputation : list (string * Z) :=
  [ ("relay", 92); ("across", 89); ("lifi", 92) ].
Definition known_protocol (id : string) (score : Z) : Prop :=
  In (toLowerCase id, score) reputation.
Definition unknown_protocol (id : string) : Prop :=
  forall score, ~ known_protocol id score.

(** The id under which a route is looked up: the tool it names, or else
    the key of its provider. *)
Definition provider_id (r : ProtocolRoute) : string :=
  match tool (raw r) with
  | Some (String c t) => String c t
  | _ => key_string (protocol r)
  end.

(** Every route of a group is one of the routes and carries the group's
    key. *)
Definition group_sound (rs : list AnalyzedRoute)
    (groups : list (ProtocolKey * list AnalyzedRoute)) : Prop :=
  forall k g x, In (k, g) groups -> In x g ->
                In x rs /\ protocol (route x) = k.

Section Providers.

Variable getLiFiRoutes : Params -> completion (list RawRoute).
Variable getAcrossRoutes : Params -> completion (list RawRoute).

(** The query each provider answers. *)
Definition provider_query (k : ProtocolKey)
    : Params -> completion (list RawRoute) :=
  match k with
  | lifi => getLiFiRoutes
  | across => getAcrossRoutes
  end.

(** A provider serves a request when both chains are among the chains it
    supports. *)
Definition serves (p : Protocol) (params : Params) : Prop :=
  In (fromChain params) (supportedChains p)
  /\ In (toChain params) (supportedChains p).

(** A provider succeeds with the quotes [q] when it serves the request and
    its query returns [q], at least one quote. *)
Definition provider_succeeds (params : Params)
    (entry : ProtocolKey * Protocol) (q : list RawRoute) : Prop :=
  serves (snd entry) params
  /\ provider_query (fst entry) params = Return q
  /\ q <> [].

(** A provider has failed for a request when it does not serve the chain
    pair, when its query threw (a network error, a timeout, a malformed
    answer), or when it answered with no quote. *)
Definition provider_failed (params : Params) (entry : ProtocolKey * Protocol)
    : Prop :=
  ~ serves (snd entry) params
  \/ (exists msg, provider_query (fst entry) params = Throw msg)
  \/ provider_query (fst entry) params = Return [].

(** The route made of a provider's quote: the quote with the provider's
    key and name and, kept apart, the tool the quote names. *)
Definition route_of_quote (entry : ProtocolKey * Protocol) (quote : RawRoute)
    : ProtocolRoute :=
  mkProtocolRoute quote (fst entry) (name (snd entry)) (tool quote).

End Providers.

(** ** Concrete queries

    [parseFloat] on the strings that occur below; no protocol score is under
    80 here, so no number is printed into a risk factor. *)
Definition parseFloat_table (s : string) : number :=
  if String.eqb s "0" then 0%float
  else if String.eqb s "1.0" then 1%float
  else if String.eqb s "0.002" then 0.002%float
  else if String.eqb s "0.003" then 0.003%float
  else NaN.
Definition toString_unused (x : number) : string := "".

Definition quote (id' tool' : string) (duration : number) (fee : string)
    : RawRoute :=
  mkRawRoute id' (Some tool') (Some duration) (Some fee) None None None.
Definition one_native_unit : Params :=
  mkParams 1 42161 "ETH" "ETH" "1.0" "0xUser".

(** The scenario of the specification: quotes with fees 0.002 and 0.003 and
    durations 20s and 90s, for an amount of 1.0. *)
Definition lifi_20s : Params -> completion (list RawRoute) :=
  fun _ => Return [quote "lifi-1" "relay" 20 "0.002"].
Definition across_90s : Params -> completion (list RawRoute) :=
  fun _ => Return [quote "across-1" "across" 90 "0.003"].
Definition scenario_routes : list AnalyzedRoute :=
  analyzeBasicRoutes parseFloat_table toString_unused
    (collectRoutes lifi_20s across_90s one_native_unit).
Definition scenario_lifi : AnalyzedRoute :=
  analyzeRoute parseFloat_table toString_unused
    (mkProtocolRoute (quote "lifi-1" "relay" 20 "0.002") lifi "Li.Fi"
       (Some "relay")).
Definition scenario_across : AnalyzedRoute :=
  analyzeRoute parseFloat_table toString_unused
    (mkProtocolRoute (quote "across-1" "across" 90 "0.003") across
       "Across Protocol" (Some "across")).
Definition scenario_split : AggregatedRoute :=
  multiProtocolSplit parseFloat_table 1 scenario_lifi scenario_across.

(** A Li.Fi query that times out. *)
Definition lifi_timeout : Params -> completion (list RawRoute) :=
  fun _ => Throw "timeout of 15000ms exceeded".

(** Quotes of 30s at fee 0.003 (Li.Fi) and 20s at fee 0.002 (Across). *)
Definition lifi_30s : Params -> completion (list RawRoute) :=
  fun _ => Return [quote "lifi-1" "relay" 30 "0.003"].
Definition across_20s : Params -> completion (list RawRoute) :=
  fun _ => Return [quote "across-1" "across" 20 "0.002"].

End MultiProtocolAggregatorSpec.

Module SmartAggregatorBridgeSpec.
Import JS SmartAggregatorBridge.

(** A message names a field when the field's name occurs in it. *)
Definition names (msg field : string) : Prop :=
  exists pre post, msg = (pre ++ field ++ post)%string.

(** The nine fields taken from the quote, each with the test that reports
    it missing. *)
Definition required_fields (r : AcrossRoute) : list (string * bool) :=
  [ ("inputToken", negb (truthy_value (estimate_inputToken_address r)));
    ("outputToken", negb (truthy_value (estimate_outputToken_address r)));
    ("inputAmount", negb (truthy_value (fromAmount r)));
    ("outputAmount", negb (truthy_value (toAmount r)));
    ("destinationChainId", negb (truthy_value (estimate_outputToken_chainId r)));
    ("exclusiveRelayer", negb (truthy_value (rawData_exclusiveRelayer r)));
    ("quoteTimestamp", negb (truthy_value (rawData_timestamp r)));
    ("fillDeadline", negb (truthy_value (rawData_fillDeadline r)));
    ("exclusivityDeadline", is_undefined (rawData_exclusivityDeadline r)) ].

(** A quote with every field but [exclusiveRelayer]. *)
Definition quote_without_relayer : AcrossRoute :=
  mkAcrossRoute (Some "across-1")
    (Str "0xC02aaA39b223FE8D0A0e5C4F27eAD9083C756Cc2")
    (Str "0x82aF49447D8a07e3bd95BD0d56f35241523fBab1")
    (Str "1000000000000000000") (Str "999000000000000000")
    (Number 42161) Undefined (Number 1700000000) (Number 1700003600)
    (Number 0).

End SmartAggregatorBridgeSpec.

(* ===================================================================== *)
(** * Runs of the smart account *)
(* ===================================================================== *)

(** The life of an account as a sequence of calls: the functions that
    write its storage without calling out, each by any caller at any time. *)
Module SmartAccountSteps.
Import SmartAccount.

Inductive Action : Type :=
| AddGuardian (guardian : address)
| RemoveGuardian (guardian : address)
| InitiateRecovery (newOwner' : address)
| ConfirmRecovery (recoveryId : Z)
| ExecuteRecovery (recoveryId : Z).

Definition run (env : Env) (a : Action) (s : State) : result State :=
  match a with
  | AddGuardian guardian => addGuardian env guardian s
  | RemoveGuardian guardian => removeGuardian env guardian s
  | InitiateRecovery newOwner' => initiateRecovery env newOwner' s
  | ConfirmRecovery recoveryId => confirmRecovery env recoveryId s
  | ExecuteRecovery recoveryId => executeRecovery env recoveryId s
  end.

(** [steps s s']: some sequence of successful calls leads from [s] to [s']. *)
Inductive steps : State -> State -> Prop :=
| steps_refl s : steps s s
| steps_next env a s s1 s2 :
    run env a s = Ok s1 -> steps s1 s2 -> steps s s2.

(** A state the constructor produces, and a state reached from one. *)
Definition deployed (s : State) : Prop :=
  exists _owner _guardians _requiredGuardians _entryPoint,
    constructor _owner _guardians _requiredGuardians _entryPoint = Ok s.
Definition reachable (s : State) : Prop :=
  exists s0, deployed s0 /\ steps s0 s.

(** The guardian mapping, the guardian array and the two counters agree. *)
Definition guardians_consistent (s : State) : Prop :=
  guardianCount s = Z.of_nat (length (guardianList s))
  /\ NoDup (guardianList s)
  /\ (forall a, isGuardian s a = true <-> a ∈ guardianList s)
  /\ 0 < requiredGuardians s <= guardianCount s.

(** [gs] lists, once each, the addresses that confirmed request [id], and
    the request's counter is their number. *)
Definition confirmers (s : State) (id : Z) (gs : list address) : Prop :=
  NoDup gs
  /\ (forall g, hasConfirmedRecovery s id g = true <-> g ∈ gs)
  /\ confirmations (recovery s id) = Z.of_nat (length gs).

(** The requests are numbered [0 .. recoveryCounter - 1]. *)
Definition initiated (s : State) (id : Z) : Prop :=
  0 <= id < recoveryCounter s.

(** The stored requests are the initiated ones; each names a new owner,
    holds only positive confirmation flags and counts them. *)
Definition requests_wf (s : State) : Prop :=
  0 <= recoveryCounter s
  /\ forall id,
       (~ initiated s id -> recoveries s !! id = None)
       /\ forall r,
            recoveries s !! id = Some r ->
            newOwner r <> 0
            /\ (forall g b, confirmed r !! g = Some b -> b = true)
            /\ confirmations r = Z.of_nat (size (confirmed r)).

(** What no call takes away from an initiated request. *)
Definition kept (s s' : State) (id : Z) : Prop :=
  requiredGuardians s' = requiredGuardians s
  /\ recoveryCounter s <= recoveryCounter s'
  /\ newOwner (recovery s' id) = newOwner (recovery s id)
  /\ timestamp (recovery s' id) = timestamp (recovery s id)
  /\ confirmations (recovery s id) <= confirmations (recovery s' id)
  /\ (executed (recovery s id) = true -> executed (recovery s' id) = true)
  /\ (forall g, hasConfirmedRecovery s id g = true ->
                hasConfirmedRecovery s' id g = true).

(** Concrete runs: the account of the test-suite (owner 100, guardians 1,
    2 and 3, threshold 2) when deployed; after guardian 1 initiated a
    recovery to address 50 at time 1000; where guardian 2 has confirmed it
    at time 2000 ([scenario_state]) and the owner then removed guardian 3,
    or guardian 2; and after the recovery was executed. *)
Definition scenario_deployed : State :=
  commit SmartAccountSpec.blank_state (constructor 100 [1; 2; 3] 2 999).
Definition scenario_initiated : State :=
  commit scenario_deployed
    (initiateRecovery (mkEnv 1 1000) 50 scenario_deployed).
Definition scenario_removed3 : State :=
  commit SmartAccountSpec.scenario_state
    (removeGuardian (mkEnv 100 3000) 3 SmartAccountSpec.scenario_state).
Definition scenario_removed2 : State :=
  commit SmartAccountSpec.scenario_state
    (removeGuardian (mkEnv 100 3000) 2 SmartAccountSpec.scenario_state).
Definition scenario_recovered : State :=
  commit SmartAccountSpec.scenario_state
    (executeRecovery (mkEnv 7 (1000 + 172800)) 0
       SmartAccountSpec.scenario_state).

End SmartAccountSteps.
(* ===================================================================== *)
(** * Runs of the aggregator contract *)
(* ===================================================================== *)

(** The external functions the contract declares, as calls by anybody, and
    what a call logs. *)
Module AggregatorCalls.
Import ERC20 OmniFlowSmartAggregator AggregatorSpec.

Inductive Call : Type :=
| SetLiFiDiamond (_lifiDiamond : address)
| SetAcrossSpokePool (chainId : Z) (spokePool : address)
| SetTrustedBridge (bridge' : address) (trusted : bool)
| SetProtocolFee (feeBps : Z)
| SetFeeRecipient (_feeRecipient : address)
| SetMinGlobalSecurityScore (score : Z)
| SetMaxFeePercentage (percentage : Z)
| SetMinAmountForSplit (amount' : Z)
| EmergencyWithdraw (token amount' : Z)
| ExecuteAggregatedRoute (sourceToken : address)
    (strategy : AggregatedRouteStrategy)
| ExecuteLiFiRoute (msg_value : Z) (sourceToken amount' : Z)
    (lifiCallData : bytes)
| ExecuteAcrossV3Route (msg_value : Z) (sourceChainId : Z)
    (inputToken outputToken : address)
    (inputAmount outputAmount destinationChainId : Z)
    (recipient exclusiveRelayer : address)
    (quoteTimestamp fillDeadline exclusivityDeadline : Z).

(** The [uint256] arguments of the configuration functions are in range. *)
Definition uint_args (call : Call) : Prop :=
  match call with
  | SetAcrossSpokePool chainId _ => is_uint256 chainId
  | SetProtocolFee feeBps => is_uint256 feeBps
  | SetMinGlobalSecurityScore score => is_uint256 score
  | SetMaxFeePercentage percentage => is_uint256 percentage
  | SetMinAmountForSplit amount' => is_uint256 amount'
  | _ => True
  end.

Definition on_storage (f : Storage -> result Storage) (c : Chain)
    : result Chain :=
  st ← f (storage c);
  Ok (mkChain st (ledger c) (events c)).

Section Outside.

Variable bridge_call : address -> Z -> bytes -> Ledger -> option Ledger.
Variable abi_encodeWithSignature : string -> list AbiArg -> bytes.
Variable native_transfer : address -> Z -> bool.

Definition run (env : Env) (call : Call) (c : Chain) : result Chain :=
  match call with
  | SetLiFiDiamond a => on_storage (setLiFiDiamond env a) c
  | SetAcrossSpokePool chainId pool =>
      on_storage (setAcrossSpokePool env chainId pool) c
  | SetTrustedBridge b t => on_storage (setTrustedBridge env b t) c
  | SetProtocolFee feeBps => on_storage (setProtocolFee env feeBps) c
  | SetFeeRecipient a => on_storage (setFeeRecipient env a) c
  | SetMinGlobalSecurityScore score =>
      on_storage (setMinGlobalSecurityScore env score) c
  | SetMaxFeePercentage percentage =>
      on_storage (setMaxFeePercentage env percentage) c
  | SetMinAmountForSplit amount' =>
      on_storage (setMinAmountForSplit env amount') c
  | EmergencyWithdraw token amount' =>
      emergencyWithdraw native_transfer env token amount' c
  | ExecuteAggregatedRoute sourceToken strategy =>
      snd <$> executeAggregatedRoute bridge_call env sourceToken strategy c
  | ExecuteLiFiRoute msg_value sourceToken amount' lifiCallData =>
      snd <$> executeLiFiRoute bridge_call env msg_value sourceToken amount'
                lifiCallData c
  | ExecuteAcrossV3Route msg_value sourceChainId inputToken outputToken
      inputAmount outputAmount destinationChainId recipient exclusiveRelayer
      quoteTimestamp fillDeadline exclusivityDeadline =>
      snd <$> executeAcrossV3Route bridge_call abi_encodeWithSignature env
                msg_value sourceChainId inputToken outputToken inputAmount
                outputAmount destinationChainId recipient exclusiveRelayer
                quoteTimestamp fillDeadline exclusivityDeadline c
  end.

(** [runs c c']: some sequence of successful calls leads from [c] to [c']. *)
Inductive runs : Chain -> Chain -> Prop :=
| runs_refl c : runs c c
| runs_next env call c c1 c2 :
    uint_args call -> run env call c = Ok c1 -> runs c1 c2 -> runs c c2.

End Outside.

(** A chain on which the contract has just been deployed. *)
Definition deployed (c : Chain) : Prop :=
  exists initialOwner _feeRecipient _lifiDiamond,
    constructor initialOwner _feeRecipient _lifiDiamond = Ok (storage c).

(** The limits the configuration functions state. *)
Definition within_limits (st : Storage) : Prop :=
  0 <= protocolFeeBps st <= 100
  /\ 50 <= minGlobalSecurityScore st <= 100
  /\ 0 <= maxFeePercentage st <= 500
  /\ 0 < minAmountForSplit st
  /\ feeRecipient st <> 0
  /\ lifiDiamond st <> 0.

Definition trusted (st : Storage) (b : address) : Prop :=
  mget_bool (trustedBridges st) b = true.

(** ** What a call of [executeAggregatedRoute] logs *)

Definition total_of_amounts (rs : list ProtocolRoute) : Z :=
  fold_right Z.add 0 (map amount rs).

(** The amount logged for a route: the net amount for the one route of a
    single-route strategy, the route's own amount in a split. *)
Definition logged_amount (strategy : AggregatedRouteStrategy) (net : Z)
    (r : ProtocolRoute) : Z :=
  if same_string (strategyType strategy) "single-route" then net
  else amount r.

Definition route_events (env : Env) (strategy : AggregatedRouteStrategy)
    (net : Z) (flags : list bool) : list Event :=
  zip_with
    (fun r f =>
       ProtocolRouteExecuted (msg_sender env) (protocol r)
         (logged_amount strategy net r) f)
    (executed_routes strategy) flags.

Definition split_event (env : Env) (strategy : AggregatedRouteStrategy)
    : list Event :=
  if same_string (strategyType strategy) "single-route" then []
  else
    match routes strategy with
    | [r0; r1] =>
        [RouteSplit (msg_sender env) (protocol r0) (amount r0) (protocol r1)
           (amount r1)]
    | _ => []
    end.

Definition final_event (env : Env) (strategy : AggregatedRouteStrategy)
    (success : bool) : Event :=
  AggregatedRouteExecuted (msg_sender env) (strategyType strategy)
    (Z.of_nat (length (routes strategy))) (totalAmount strategy)
    (securityScore strategy) (estimatedTime strategy)
    (estimatedFees strategy) success.

(** ** Concrete runs

    The chain of the examples after the owner (address 1) has replaced the
    LiFi diamond by address 901 and lowered the fee to 5 basis points. *)
Definition demo_reconfigured : Chain :=
  commit demo_chain
    (c1 ← on_storage (setLiFiDiamond (mkEnv 1 1000 500) 901) demo_chain;
     on_storage (setProtocolFee (mkEnv 1 1000 500) 5) c1).

(** An encoder that yields one byte, a contract without ether, and a
    bridge whose every call succeeds and moves nothing. *)
Definition no_encoder (sig : string) (args : list AbiArg) : bytes :=
  [Byte.x00].
Definition no_ether (a : address) (v : Z) : bool := false.
Definition idle_bridge (b : address) (v : Z) (d : bytes) (l : Ledger)
    : option Ledger := Some l.

(** The chain of the examples after the caller's direct LiFi route of one
    ether failed, after its direct Across route from chain 1 failed, and
    after its split strategy went through. *)
Definition demo_after_failed_lifi : Chain :=
  commit demo_chain
    (snd <$> executeLiFiRoute dead_bridge demo_env 0 77 ether [Byte.x01]
               demo_chain).
Definition demo_after_failed_across : Chain :=
  commit demo_chain
    (snd <$> executeAcrossV3Route dead_bridge no_encoder demo_env 0 1 77 78
               ether ether 10 10 0 0 0 0 demo_chain).
Definition demo_after_split : Chain :=
  commit demo_chain
    (snd <$> executeAggregatedRoute idle_bridge demo_env 77 split_strategy
               demo_chain).

End AggregatorCalls.
(* ===================================================================== *)
(** * Vocabulary: token addresses, risks and strategy sets *)
(* ===================================================================== *)

Module MultiProtocolAggregatorTerms.
Import JS MultiProtocolAggregator.

(** The placeholder address that stands for a chain's native token. *)
Definition native_placeholder : string :=
  "0xEeeeeEeeeEeEeeEeEeEeeEEEeeeeEeeeeeeeEEeE".

(** The risk factors a route can be given. *)
Definition reported_risks : list string :=
  [ "协议安全数据不可用";
    "流动性风险: 滑点较高";
    "时间风险: 执行时间较长，MEV风险增加";
    "费用偏高: 超过正常市场水平";
    "路由复杂: 多步骤执行，失败风险增加" ].

(** Routes of two different providers are among [rs]. *)
Definition two_providers (rs : list AnalyzedRoute) : Prop :=
  exists x y, In x rs /\ In y rs /\ protocol (route x) <> protocol (route y).

(** No group of routes is empty. *)
Definition nonempty_groups (acc : list (ProtocolKey * list AnalyzedRoute))
    : Prop :=
  Forall (fun kg => snd kg <> []) acc.

(** No preference set. *)
Definition no_preference : Preferences := mkPreferences false false false.

End MultiProtocolAggregatorTerms.
(* ===================================================================== *)
(** * Vocabulary: the routes and the execution data of the bridge service *)
(* ===================================================================== *)

Module SmartAggregatorBridgeTerms.
Import JS SmartAggregatorBridge.
Import MultiProtocolAggregator (completion, Return, Throw).

(** ** Addresses and chain ids read back from their texts *)

Definition hex_digit (c : ascii) : option Z :=
  let n := Z.of_nat (nat_of_ascii c) in
  if (48 <=? n) && (n <=? 57) then Some (n - 48)
  else if (65 <=? n) && (n <=? 70) then Some (n - 55)
  else if (97 <=? n) && (n <=? 102) then Some (n - 87)
  else None.
Fixpoint hex_value (s : string) (acc : Z) : option Z :=
  match s with
  | EmptyString => Some acc
  | String c s' =>
      match hex_digit c with
      | Some d => hex_value s' (16 * acc + d)
      | None => None
      end
  end.
(** The address a text such as ["0x5c7B...35C5"] writes. *)
Definition address_of_text (s : string) : option Z :=
  match s with
  | String "0" (String "x" (String c s')) => hex_value (String c s') 0
  | _ => None
  end.

Definition decimal_digit (c : ascii) : option Z :=
  let n := Z.of_nat (nat_of_ascii c) in
  if (48 <=? n) && (n <=? 57) then Some (n - 48) else None.
Fixpoint decimal_value (s : string) (acc : Z) : option Z :=
  match s with
  | EmptyString => Some acc
  | String c s' =>
      match decimal_digit c with
      | Some d => decimal_value s' (10 * acc + d)
      | None => None
      end
  end.
(** The chain id a key such as ["42161"] writes. *)
Definition chain_of_key (s : string) : option Z :=
  match s with
  | EmptyString => None
  | _ => decimal_value s 0
  end.

(** ** Routes as they leave the service *)

Definition total_value (rs : list ProtocolRoute) : Z :=
  fold_right Z.add 0 (map pr_value rs).

(** The routes a strategy is built from: its first route when it is a
    best single route, the routes of its splits otherwise. *)
Definition used_routes (s : AggregatedRoute) : list Route :=
  if String.eqb (strategy s) "best-single-route" then take 1 (routes s)
  else map split_route (splits s).

Definition sum_of (outs : list Z) : Z := fold_right Z.add 0 outs.

Section Ethers.

Variable BigInt : value -> option Z.
Variable value_toString : value -> string.
Variable encodeDepositV3 : list value -> completion string.

(** A Li.Fi route: the diamond as bridge and the provider's own
    transaction data, which starts with [0x] and has ten characters or
    more. *)
Definition lifi_route (r : Route) (pr : ProtocolRoute) : Prop :=
  normalizeProtocolName (protocol_of r) = Return "LiFi"
  /\ pr_protocol pr = "LiFi"
  /\ pr_bridge pr = Own LIFI_DIAMOND
  /\ rawData_transactionRequest_data r = Str (pr_callData pr)
  /\ startsWith (pr_callData pr) "0x" = true
  /\ (10 <= String_length (pr_callData pr))%nat.

(** An Across route: no value, the [depositV3] call of the quote as data
    and, as bridge, what the table of spoke pools holds under the text of
    the source chain. *)
Definition across_route (userAddress : string) (r : Route)
    (pr : ProtocolRoute) : Prop :=
  normalizeProtocolName (protocol_of r) = Return "Across"
  /\ pr_protocol pr = "Across"
  /\ pr_value pr = 0
  /\ generateAcrossCallData BigInt value_toString encodeDepositV3 (fields r)
       userAddress
     = Return (pr_callData pr)
  /\ truthy_value (estimate_inputToken_chainId r) = true
  /\ get_property spokePools (value_toString (estimate_inputToken_chainId r))
     = Some (pr_bridge pr).

(** The quoted output of each route. *)
Definition quoted_outputs (l : list Route) (outs : list Z) : Prop :=
  Forall2
    (fun r out =>
       truthy_value (toAmount (fields r)) = true
       /\ BigInt (toAmount (fields r)) = Some out)
    l outs.

End Ethers.

(** ** A concrete run *)

(** [BigInt] on whole numbers and on plain decimal texts; every other
    value is taken to throw. *)
Definition BigInt_number (n : number) : option Z :=
  match Prim2SF n with
  | S754_zero _ => Some 0
  | S754_finite s m e =>
      let z := if s then Z.neg m else Z.pos m in
      if 0 <=? e then Some (z * 2 ^ e)
      else if Z.pos m mod 2 ^ (- e) =? 0 then Some (z / 2 ^ (- e))
      else None
  | _ => None
  end.
Definition BigInt_plain (v : value) : option Z :=
  match v with
  | Number n => BigInt_number n
  | Str s => chain_of_key s
  | _ => None
  end.

(** The text of a string and of a whole number. *)
Definition text_of (v : value) : string :=
  match v with
  | Str s => s
  | Number n =>
      match BigInt_number n with
      | Some z => bigint_toString z
      | None => "NaN"
      end
  | Boolean true => "true"
  | Boolean false => "false"
  | Null => "null"
  | Undefined => "undefined"
  end.

Definition encoder_stub (args : list value) : completion string :=
  Return "0x7b939232".
Definition error_stub (v : value) : string := "Cannot convert to a BigInt".

(** A complete Across quote from Ethereum, a Li.Fi quote with its
    transaction request, and the split strategy over the two. *)
Definition across_quote : Route :=
  mkRoute
    (mkAcrossRoute (Some "across-1")
       (Str "0xC02aaA39b223FE8D0A0e5C4F27eAD9083C756Cc2")
       (Str "0x82aF49447D8a07e3bd95BD0d56f35241523fBab1")
       (Str "300000000000000000") (Str "299000000000000000")
       (Number 42161) (Str "0x0000000000000000000000000000000000000000")
       (Number 1700000000) (Number 1700003600) (Number 0))
    (Some "across") (Some "across") "across" (Number 1) Undefined Undefined.
Definition lifi_quote : Route :=
  mkRoute
    (mkAcrossRoute (Some "lifi-1") Undefined Undefined
       (Str "700000000000000000") (Str "698000000000000000")
       Undefined Undefined Undefined Undefined Undefined)
    (Some "relay") (Some "relay") "lifi" (Number 1)
    (Str "0x4666fc80aabbccdd") (Str "5").
Definition split_of_quotes : AggregatedRoute :=
  mkAggregatedRoute "multi-protocol-split" [lifi_quote; across_quote]
    1000000000000000000
    [ mkSplit "lifi" lifi_quote 700000000000000000;
      mkSplit "across" across_quote 300000000000000000 ]
    90 0.002 91.

Definition returned {A : Type} (c : completion A) (d : A) : A :=
  match c with
  | Return a => a
  | Throw _ => d
  end.

Definition no_data : ContractExecutionData :=
  mkContractExecutionData false split_of_quotes "" ("", serializeStrategy
    (mkAggregatedRouteStrategy "" [] 0 0 0 0 0 0)) "" 
    (mkAggregatedRouteStrategy "" [] 0 0 0 0 0 0) [].

(** What the service makes of that strategy at time 1700000000000 ms. *)
Definition split_data : ContractExecutionData :=
  returned
    (generateContractExecutionData BigInt_plain text_of encoder_stub
       error_stub split_of_quotes "0xToken" "0xUser" 1700000000000)
    no_data.

End SmartAggregatorBridgeTerms.
(* ===================================================================== *)
(** * Facts about the Solidity primitives *)
(* ===================================================================== *)

Module SolFacts.

Lemma require_ok c reason : require c reason = Ok tt <-> c = true.
Proof. unfold require. destruct c; split; intros; congruence. Qed.

Lemma checked_ok z : is_uint256 z -> checked z = Ok z.
Proof.
  unfold is_uint256, checked. intros [H0 H1].
  apply Z.leb_le in H0, H1. now rewrite H0, H1.
Qed.

Lemma checked_inv z r : checked z = Ok r -> r = z /\ is_uint256 z.
Proof.
  unfold checked, is_uint256.
  destruct (0 <=? z) eqn:H0, (z <=? uint256_max) eqn:H1; simpl; try discriminate.
  intros [= <-]. apply Z.leb_le in H0, H1. auto.
Qed.

Lemma checked_revert z : ~ is_uint256 z -> checked z = Revert panic_overflow.
Proof.
  unfold checked, is_uint256. intros Hn.
  destruct (0 <=? z) eqn:H0, (z <=? uint256_max) eqn:H1; simpl; try reflexivity.
  apply Z.leb_le in H0, H1. tauto.
Qed.

End SolFacts.
Import SolFacts.

(* ===================================================================== *)
(** * SmartAccount: recovery, guardians and batches *)
(* ===================================================================== *)

Module SmartAccountFacts.
Import SmartAccount SmartAccountSpec.

Ltac unfold_result :=
  unfold onlyGuardian, onlyOwner, nonReentrant_enter in *;
  unfold mbind, result_bind, mret, result_ret, require, add, sub in *.

Lemma RECOVERY_PERIOD_value : RECOVERY_PERIOD = 172800.
Proof. reflexivity. Qed.

Lemma classic_ready env s id :
  recovery_ready env s id \/ ~ recovery_ready env s id.
Proof.
  unfold recovery_ready.
  destruct (Z_le_dec (requiredGuardians s) (confirmations (recovery s id)));
    [| right; tauto].
  destruct (Z_le_dec RECOVERY_PERIOD
              (block_timestamp env - timestamp (recovery s id)));
    [| right; tauto].
  destruct (executed (recovery s id)); [right | left]; intuition congruence.
Qed.

Lemma recovery_set_recovery_eq id r s : recovery (set_recovery id r s) id = r.
Proof. unfold recovery, set_recovery. simpl. now rewrite lookup_insert_eq. Qed.

Lemma recovery_set_recovery_ne id id' r s :
  id <> id' -> recovery (set_recovery id r s) id' = recovery s id'.
Proof.
  intros Hne. unfold recovery, set_recovery. simpl.
  now rewrite lookup_insert_ne.
Qed.

Lemma owner_executeRecovery id s :
  owner (_executeRecovery id s) = newOwner (recovery s id).
Proof. reflexivity. Qed.

Lemma executed_executeRecovery id s :
  executed (recovery (_executeRecovery id s) id) = true.
Proof.
  unfold _executeRecovery, recovery. simpl. now rewrite lookup_insert_eq.
Qed.

Lemma events_executeRecovery id s :
  events (_executeRecovery id s)
  = events s ++ [RecoveryExecuted (newOwner (recovery s id)) id;
                 OwnerChanged (owner s) (newOwner (recovery s id))].
Proof.
  unfold _executeRecovery. simpl.
  replace (default Recovery_zero (recoveries s !! id)) with (recovery s id)
    by reflexivity.
  now rewrite <- app_assoc.
Qed.

Lemma executeRecovery_ready env s id :
  is_uint256 (timestamp (recovery s id)) ->
  is_uint256 (block_timestamp env) ->
  recovery_ready env s id ->
  executeRecovery env id s = Ok (_executeRecovery id s).
Proof.
  intros Hts Hnow (Hc & Hd & He). unfold executeRecovery.
  apply Z.leb_le in Hc. unfold_result. rewrite Hc.
  pose proof RECOVERY_PERIOD_value as HP.
  rewrite checked_ok by (unfold is_uint256 in *; lia).
  replace (timestamp (recovery s id) + RECOVERY_PERIOD <=? block_timestamp env)
    with true by (symmetry; apply Z.leb_le; lia).
  now rewrite He.
Qed.

Lemma executeRecovery_not_ready env s id :
  is_uint256 (block_timestamp env) ->
  ~ recovery_ready env s id ->
  reverts (executeRecovery env id s).
Proof.
  intros Hnow Hn. unfold executeRecovery, recovery_ready in *. unfold_result.
  destruct (requiredGuardians s <=? confirmations (recovery s id)) eqn:Hc;
    [| exact I].
  apply Z.leb_le in Hc. unfold checked.
  destruct ((0 <=? timestamp (recovery s id) + RECOVERY_PERIOD)
            && (timestamp (recovery s id) + RECOVERY_PERIOD <=? uint256_max));
    [| exact I].
  destruct (timestamp (recovery s id) + RECOVERY_PERIOD <=? block_timestamp env)
    eqn:Hd; [| exact I].
  apply Z.leb_le in Hd.
  destruct (executed (recovery s id)) eqn:He; [exact I |].
  exfalso. apply Hn. repeat split; [lia | lia].
Qed.


(** The scenario of the test-suite: threshold met, delay not elapsed. *)
Example scenario_too_early :
  executeRecovery (mkEnv 7 2000) 0 scenario_state
  = Revert "SmartAccount: recovery period not passed".
Proof. vm_compute. reflexivity. Qed.

(** ... and once the delay has elapsed. *)
Example scenario_after_delay :
  owner (commit scenario_state
           (executeRecovery (mkEnv 7 (1000 + 172800)) 0 scenario_state)) = 50.
Proof. vm_compute. reflexivity. Qed.


(** ** Owner and guardians *)

Lemma isGuardian_set_guardians m l n s a :
  isGuardian (set_guardians m l n s) a = mget_bool m a.
Proof. reflexivity. Qed.

(** [addGuardian] refuses the owner, so it keeps the owner out of the set. *)
Lemma addGuardian_keeps_owner_out env g s s' :
  owner_not_guardian s -> addGuardian env g s = Ok s' -> owner_not_guardian s'.
Proof.
  unfold owner_not_guardian, addGuardian. intros Hinv Hok. unfold_result.
  destruct (msg_sender env =? owner s); simpl in Hok; [| discriminate].
  destruct (g =? 0); simpl in Hok; [discriminate |].
  destruct (isGuardian s g); simpl in Hok; [discriminate |].
  destruct (g =? owner s) eqn:Hg; simpl in Hok; [discriminate |].
  destruct (checked (guardianCount s + 1)); [| discriminate].
  injection Hok as <-. apply Z.eqb_neq in Hg.
  unfold isGuardian, mget_bool in *. simpl.
  now rewrite lookup_insert_ne.
Qed.

Lemma removeGuardian_keeps_owner_out env g s s' :
  owner_not_guardian s -> removeGuardian env g s = Ok s' ->
  owner_not_guardian s'.
Proof.
  unfold owner_not_guardian, removeGuardian. intros Hinv Hok. unfold_result.
  destruct (msg_sender env =? owner s); simpl in Hok; [| discriminate].
  destruct (isGuardian s g); simpl in Hok; [| discriminate].
  destruct (requiredGuardians s <? guardianCount s); simpl in Hok;
    [| discriminate].
  destruct (checked (guardianCount s - 1)); [| discriminate].
  injection Hok as <-. unfold isGuardian, mget_bool in *. simpl.
  destruct (decide (g = owner s)) as [-> | Hne].
  - now rewrite lookup_insert_eq.
  - now rewrite lookup_insert_ne.
Qed.

(** C2. The constructor and the recovery path do not keep the owner out of
    the guardian set: the constructor accepts the owner among the initial
    guardians, and a guardian may be proposed as the new owner and becomes
    owner while still a guardian. *)
Theorem owner_may_be_guardian :
  (exists s, constructor 100 [100; 2] 1 999 = Ok s
             /\ isGuardian s (owner s) = true)
  /\ (exists s0 s1 s2 s3,
        constructor 100 [1; 2; 3] 2 999 = Ok s0
        /\ owner_not_guardian s0
        /\ initiateRecovery (mkEnv 1 1000) 1 s0 = Ok s1
        /\ confirmRecovery (mkEnv 2 2000) 0 s1 = Ok s2
        /\ executeRecovery (mkEnv 7 (1000 + 172800)) 0 s2 = Ok s3
        /\ owner s3 = 1
        /\ isGuardian s3 (owner s3) = true).
Proof.
  split.
  - eexists. split; [vm_compute; reflexivity | vm_compute; reflexivity].
  - do 4 eexists.
    split; [vm_compute; reflexivity |].
    split; [vm_compute; reflexivity |].
    split; [vm_compute; reflexivity |].
    split; [vm_compute; reflexivity |].
    split; [vm_compute; reflexivity |].
    split; vm_compute; reflexivity.
Qed.

(** ** Batches *)

Section Batches.

Variable World : Type.
Variable extcall : address -> Z -> bytes -> State * World -> CallResult World.
Variable keccak256_batch : list Call -> Z -> Z.

#[local] Abbreviation run_calls := (run_calls World extcall).
#[local] Abbreviation batchExecute := (batchExecute World extcall keccak256_batch).
#[local] Abbreviation exec_seq := (exec_seq World extcall).
#[local] Abbreviation fails_at := (fails_at World extcall).
#[local] Abbreviation batch_done := (batch_done World keccak256_batch).

Lemma run_calls_exec_seq i calls c c2 :
  run_calls i calls c = Ok c2 <-> exec_seq calls c c2.
Proof.
  revert i c. induction calls as [| cl rest IH]; intros i c; simpl.
  - split.
    + intros [= <-]. constructor.
    + intros H. inversion H; subst. reflexivity.
  - split.
    + destruct (extcall (to cl) (value cl) (data cl) c) as [c1 |] eqn:Hc;
        [| discriminate].
      intros H. apply IH in H. econstructor; eassumption.
    + intros H. inversion H; subst.
      match goal with Hx : extcall _ _ _ _ = CallOk _ |- _ => rewrite Hx end.
      now apply IH.
Qed.

Lemma run_calls_fails_at i n calls c :
  fails_at n calls c -> reverts (run_calls i calls c).
Proof.
  intros H. revert i. induction H; intros j; simpl.
  - match goal with Hx : extcall _ _ _ _ = CallFail _ |- _ => rewrite Hx end.
    exact I.
  - match goal with Hx : extcall _ _ _ _ = CallOk _ |- _ => rewrite Hx end.
    apply IHfails_at.
Qed.

(** Every batch either runs through in order or has a first failing call. *)
Lemma exec_seq_or_fails calls c :
  (exists c2, exec_seq calls c c2) \/ (exists n, fails_at n calls c).
Proof.
  revert c. induction calls as [| cl rest IH]; intros c.
  - left. exists c. constructor.
  - destruct (extcall (to cl) (value cl) (data cl) c) as [c1 | res] eqn:Hc.
    + destruct (IH c1) as [[c2 H2] | [n Hn]].
      * left. exists c2. econstructor; eassumption.
      * right. exists (S n). econstructor; eassumption.
    + right. exists O. econstructor; eassumption.
Qed.

(** C4. [batchExecute] rejects an empty array; it succeeds exactly when the
    caller is the owner, the guard is free and every sub-call succeeds, each
    run in array order on the state its predecessor left; and when sub-call
    [i] fails the whole call reverts, so that the committed state is the one
    before the batch. *)
Theorem batchExecute_all_or_nothing
    (env : Env) (calls : list Call) (c : State * World) :
  (calls = [] -> reverts (batchExecute env calls c))
  /\ (forall c',
        batchExecute env calls c = Ok c'
        <-> msg_sender env = owner (fst c)
            /\ entered (fst c) = false
            /\ calls <> []
            /\ exists c2,
                 exec_seq calls (set_entered true (fst c), snd c) c2
                 /\ c' = batch_done env calls c2)
  /\ (forall i,
        fails_at i calls (set_entered true (fst c), snd c) ->
        reverts (batchExecute env calls c)
        /\ commit c (batchExecute env calls c) = c).
Proof.
  split; [| split].
  - intros ->. unfold SmartAccount.batchExecute. unfold_result.
    destruct (msg_sender env =? owner (fst c)); simpl; [| exact I].
    destruct (entered (fst c)); simpl; exact I.
  - intros c'. unfold SmartAccount.batchExecute. unfold_result. split.
    + destruct (msg_sender env =? owner (fst c)) eqn:Ho; simpl;
        [| discriminate].
      apply Z.eqb_eq in Ho.
      destruct (entered (fst c)) eqn:He; simpl; [discriminate |].
      destruct (0 <? Z.of_nat (length calls)) eqn:Hl; simpl; [| discriminate].
      destruct (run_calls 0 calls (set_entered true (fst c), snd c))
        as [c2 |] eqn:Hr; [| discriminate].
      intros [= <-]. apply run_calls_exec_seq in Hr.
      repeat split; try assumption.
      * intros ->. discriminate.
      * exists c2. split; [assumption | reflexivity].
    + intros (Ho & He & Hne & c2 & Hseq & ->).
      apply Z.eqb_eq in Ho. rewrite Ho, He. simpl.
      destruct calls as [| cl rest]; [congruence |].
      replace (0 <? Z.of_nat (length (cl :: rest))) with true
        by (symmetry; apply Z.ltb_lt; simpl; lia).
      simpl. apply (run_calls_exec_seq 0) in Hseq. simpl in Hseq.
      rewrite Hseq. reflexivity.
  - intros i Hf.
    assert (Hrev : reverts (batchExecute env calls c)).
    { unfold SmartAccount.batchExecute. unfold_result.
      destruct (msg_sender env =? owner (fst c)); simpl; [| exact I].
      destruct (entered (fst c)); simpl; [exact I |].
      destruct (0 <? Z.of_nat (length calls)); simpl; [| exact I].
      pose proof (run_calls_fails_at 0 _ _ _ Hf) as Hr.
      destruct (run_calls 0 calls (set_entered true (fst c), snd c));
        simpl in *; [tauto | exact I]. }
    split; [exact Hrev |].
    destruct (batchExecute env calls c); simpl in *; tauto.
Qed.

End Batches.

(** A batch of two transfers of 3 out of an account holding 5: the second
    one cannot be paid, the batch reverts and the first transfer is undone;
    transfers of 3 and 2 both go through. *)
Example batch_rolls_back :
  let c := (commit blank_state (constructor 100 [1; 2; 3] 2 999), 5) in
  let calls := [mkCall 1 3 []; mkCall 2 3 []] in
  reverts (batchExecute Z pay (fun _ _ => 0) (mkEnv 100 0) calls c)
  /\ commit c (batchExecute Z pay (fun _ _ => 0) (mkEnv 100 0) calls c) = c
  /\ snd (commit c (batchExecute Z pay (fun _ _ => 0) (mkEnv 100 0)
                      [mkCall 1 3 []; mkCall 2 2 []] c)) = 0.
Proof. vm_compute. repeat split. Qed.

End SmartAccountFacts.
(* ===================================================================== *)
(** * ERC-20 ledger facts *)
(* ===================================================================== *)

Module ERC20Facts.
Import ERC20.

Ltac unfold_result :=
  unfold mbind, result_bind, mret, result_ret, require, add, sub, mul, div in *.

Lemma balanceOf_set_balance token holder v l t h :
  balanceOf (set_balance token holder v l) t h
  = if decide ((token, holder) = (t, h)) then v else balanceOf l t h.
Proof.
  unfold balanceOf, set_balance. simpl. rewrite lookup_insert.
  destruct (decide ((token, holder) = (t, h))); reflexivity.
Qed.

Lemma balanceOf_set_allowance token o sp v l t h :
  balanceOf (set_allowance token o sp v l) t h = balanceOf l t h.
Proof. reflexivity. Qed.

(** A transfer moves [value] from one holder of the token to the other and
    touches nothing else. *)
Lemma _transfer_balance token from to value l l' :
  _transfer token from to value l = Ok l' ->
  forall h,
    balanceOf l' token h
    = balanceOf l token h
      - (if h =? from then value else 0) + (if h =? to then value else 0).
Proof.
  unfold _transfer. unfold_result.
  destruct (from =? 0); simpl; [discriminate |].
  destruct (to =? 0); simpl; [discriminate |].
  destruct (value <=? balanceOf l token from); simpl; [| discriminate].
  intros [= <-] h. rewrite !balanceOf_set_balance.
  destruct (Z.eqb_spec h from), (Z.eqb_spec h to); subst;
    repeat case_decide; simplify_eq; lia.
Qed.

Lemma _transfer_ok token from to value l :
  from <> 0 -> to <> 0 -> value <= balanceOf l token from ->
  exists l', _transfer token from to value l = Ok l'.
Proof.
  intros Hf Ht Hv. unfold _transfer. unfold_result.
  apply Z.eqb_neq in Hf, Ht. apply Z.leb_le in Hv.
  rewrite Hf, Ht, Hv. simpl. eauto.
Qed.

Lemma _transfer_insufficient token from to value l :
  balanceOf l token from < value -> reverts (_transfer token from to value l).
Proof.
  intros Hv. unfold _transfer. unfold_result.
  destruct (from =? 0); simpl; [exact I |].
  destruct (to =? 0); simpl; [exact I |].
  apply Z.leb_gt in Hv. rewrite Hv. exact I.
Qed.

Lemma _spendAllowance_balance token o sp value l l' :
  _spendAllowance token o sp value l = Ok l' ->
  forall t h, balanceOf l' t h = balanceOf l t h.
Proof.
  unfold _spendAllowance. unfold_result.
  destruct (allowance l token o sp =? uint256_max); [now intros [= <-] |].
  destruct (value <=? allowance l token o sp); simpl; [| discriminate].
  now intros [= <-].
Qed.

Lemma forceApprove_balance token o sp value l l' :
  forceApprove token o sp value l = Ok l' ->
  forall t h, balanceOf l' t h = balanceOf l t h.
Proof.
  unfold forceApprove. unfold_result.
  destruct (o =? 0); simpl; [discriminate |].
  destruct (sp =? 0); simpl; [discriminate |].
  now intros [= <-].
Qed.

Lemma safeTransferFrom_balance token sp from to value l l' :
  safeTransferFrom token sp from to value l = Ok l' ->
  value <= balanceOf l token from
  /\ forall h,
      balanceOf l' token h
      = balanceOf l token h
        - (if h =? from then value else 0) + (if h =? to then value else 0).
Proof.
  unfold safeTransferFrom. unfold_result.
  destruct (_spendAllowance token from sp value l) as [l1 |] eqn:Hs;
    [| discriminate].
  intros Ht. pose proof (_spendAllowance_balance _ _ _ _ _ _ Hs) as Hb.
  split.
  - unfold _transfer in Ht. unfold_result.
    destruct (from =? 0); simpl in Ht; [discriminate |].
    destruct (to =? 0); simpl in Ht; [discriminate |].
    destruct (value <=? balanceOf l1 token from) eqn:Hv; [| discriminate].
    apply Z.leb_le in Hv. now rewrite Hb in Hv.
  - intros h. rewrite (_transfer_balance _ _ _ _ _ _ Ht). now rewrite !Hb.
Qed.

Lemma safeTransferFrom_nonzero token sp from to value l l' :
  safeTransferFrom token sp from to value l = Ok l' -> from <> 0 /\ to <> 0.
Proof.
  unfold safeTransferFrom, _transfer. unfold_result.
  destruct (_spendAllowance token from sp value l); [| discriminate].
  destruct (Z.eqb_spec from 0); simpl; [discriminate |].
  destruct (Z.eqb_spec to 0); simpl; [discriminate |].
  auto.
Qed.

End ERC20Facts.

(* ===================================================================== *)
(** * OmniFlowSmartAggregator: what a failure does *)
(* ===================================================================== *)

Module AggregatorFacts.
Import ERC20 ERC20Facts OmniFlowSmartAggregator AggregatorSpec.

Section Bridges.

Variable bridge_call : address -> Z -> bytes -> Ledger -> option Ledger.

#[local] Abbreviation executeAggregatedRoute :=
  (executeAggregatedRoute bridge_call).
#[local] Abbreviation _executeSingleRoute := (_executeSingleRoute bridge_call).
#[local] Abbreviation _executeSplitRoute := (_executeSplitRoute bridge_call).
#[local] Abbreviation split_loop := (split_loop bridge_call).
#[local] Abbreviation low_level_call := (low_level_call bridge_call).
#[local] Abbreviation run_strategy := (run_strategy bridge_call).

(** ** The three phases of [executeAggregatedRoute] *)

Lemma executeAggregatedRoute_phases env sourceToken strategy c :
  executeAggregatedRoute env sourceToken strategy c
  = '(_, netAmount, c2) ← collect env sourceToken strategy c;
    '(success, c3) ← run_strategy env sourceToken strategy netAmount c2;
    settle env sourceToken strategy netAmount success c3.
Proof.
  unfold OmniFlowSmartAggregator.executeAggregatedRoute, collect, run_strategy,
    settle.
  unfold_result.
  repeat match goal with
         | |- context [match ?x with _ => _ end] =>
             match x with
             | context [match _ with _ => _ end] => fail 1
             | _ => destruct x eqn:?; simpl; try reflexivity
             end
         end.
Qed.

(** Peel the first [match] of a hypothesis that computes in the error
    monad; a reverted step contradicts an [Ok] result. *)
Ltac step H :=
  match type of H with
  | context [match ?x with _ => _ end] =>
      match x with
      | context [match _ with _ => _ end] => fail 1
      | _ => destruct x eqn:?; simpl in H; try discriminate H
      end
  end.

Lemma collect_inv env sourceToken strategy c fee net c2 :
  collect env sourceToken strategy c = Ok (fee, net, c2) ->
  fee = totalAmount strategy * protocolFeeBps (storage c) / 10000
  /\ net = totalAmount strategy - fee
  /\ 0 <= fee /\ 0 <= net
  /\ msg_sender env <> 0 /\ this env <> 0
  /\ totalAmount strategy <= balanceOf (ledger c) sourceToken (msg_sender env)
  /\ storage c2 = storage (set_entered true c)
  /\ events c2 = events c
  /\ forall h,
      balanceOf (ledger c2) sourceToken h
      = balanceOf (ledger c) sourceToken h
        - (if h =? msg_sender env then totalAmount strategy else 0)
        + (if h =? this env then totalAmount strategy - fee else 0)
        + (if h =? feeRecipient (storage c) then fee else 0).
Proof.
  unfold collect. intros H. unfold_result.
  repeat step H.
  all: injection H as <- <- <-.
  all: repeat match goal with
    | Hc : checked _ = Ok _ |- _ => apply checked_inv in Hc as [-> ?]
    end.
  all: match goal with
    | Ht : safeTransferFrom _ _ _ _ _ _ = Ok _ |- _ =>
        destruct (safeTransferFrom_nonzero _ _ _ _ _ _ _ Ht) as [Hs1 Hs2];
        apply safeTransferFrom_balance in Ht as [Hle Hbal]
    end.
  all: unfold is_uint256 in *; simpl in *.
  all: assert (Hfee0 :
         0 <= totalAmount strategy * protocolFeeBps (storage c) / 10000)
    by (apply Z.div_pos; lia).
  all: repeat split; try assumption; try lia.
  all: intros h.
  all: try match goal with
    | Ht : safeTransfer _ _ _ _ _ = Ok _ |- _ =>
        rewrite (_transfer_balance _ _ _ _ _ _ Ht)
    end.
  all: rewrite Hbal.
  all: try match goal with
    | Hz : (0 <? _) = false |- _ => apply Z.ltb_ge in Hz
    end.
  all: destruct (h =? msg_sender env), (h =? this env),
         (h =? feeRecipient (storage c)); lia.
Qed.

(** A single route whose bridge call failed: the ledger holds the same
    balances as before the call, only the allowance was set. *)
Lemma single_route_failure env sourceToken route net c2 c3 :
  _executeSingleRoute env sourceToken route net c2 = Ok (false, c3) ->
  bridge_call (bridge route) (value route) (callData route)
    (set_allowance sourceToken (this env) (bridge route) net (ledger c2))
  = None
  /\ storage c3 = storage c2
  /\ forall t h, balanceOf (ledger c3) t h = balanceOf (ledger c2) t h.
Proof.
  unfold OmniFlowSmartAggregator._executeSingleRoute,
    OmniFlowSmartAggregator.low_level_call, forceApprove.
  intros H. unfold_result. repeat step H.
  all: injection H as <-; try discriminate.
  simpl in *. auto.
Qed.

Lemma settle_refund env sourceToken strategy net c3 :
  msg_sender env <> 0 -> this env <> 0 ->
  net <= balanceOf (ledger c3) sourceToken (this env) ->
  exists c',
    settle env sourceToken strategy net false c3 = Ok (false, c')
    /\ forall h,
        balanceOf (ledger c') sourceToken h
        = balanceOf (ledger c3) sourceToken h
          - (if h =? this env then net else 0)
          + (if h =? msg_sender env then net else 0).
Proof.
  intros Hs Ht Hb. unfold settle, safeTransfer. simpl.
  destruct (_transfer_ok sourceToken (this env) (msg_sender env) net
              (ledger c3) Ht Hs Hb) as [l4 Hl4].
  rewrite Hl4. unfold_result. eexists. split; [reflexivity |].
  intros h. simpl. apply (_transfer_balance _ _ _ _ _ _ Hl4).
Qed.

Lemma settle_short_of_funds env sourceToken strategy net c3 :
  balanceOf (ledger c3) sourceToken (this env) < net ->
  reverts (settle env sourceToken strategy net false c3).
Proof.
  intros Hb. unfold settle, safeTransfer. simpl.
  pose proof (_transfer_insufficient sourceToken (this env) (msg_sender env)
                net (ledger c3) Hb) as Hr.
  destruct (_transfer sourceToken (this env) (msg_sender env) net (ledger c3));
    simpl in *; [tauto | exact I].
Qed.

Lemma failed_run_is_settled env sourceToken strategy c fee net c2 c3 :
  collect env sourceToken strategy c = Ok (fee, net, c2) ->
  run_strategy env sourceToken strategy net c2 = Ok (false, c3) ->
  net <= balanceOf (ledger c3) sourceToken (this env) ->
  exists c',
    executeAggregatedRoute env sourceToken strategy c = Ok (false, c')
    /\ forall h,
        balanceOf (ledger c') sourceToken h
        = balanceOf (ledger c3) sourceToken h
          - (if h =? this env then net else 0)
          + (if h =? msg_sender env then net else 0).
Proof.
  intros Hcollect Hrun Hb.
  destruct (collect_inv _ _ _ _ _ _ _ Hcollect)
    as (_ & _ & _ & _ & Hs & Ht & _).
  destruct (settle_refund env sourceToken strategy net c3 Hs Ht Hb)
    as (c' & Hset & Hbal).
  exists c'. split; [| exact Hbal].
  rewrite executeAggregatedRoute_phases, Hcollect. unfold_result.
  rewrite Hrun. exact Hset.
Qed.

Lemma failed_single_route_keeps_net env sourceToken strategy c fee net c2 c3 :
  collect env sourceToken strategy c = Ok (fee, net, c2) ->
  run_strategy env sourceToken strategy net c2 = Ok (false, c3) ->
  same_string (strategyType strategy) "single-route" = true ->
  0 <= balanceOf (ledger c) sourceToken (this env) ->
  (forall t h, balanceOf (ledger c3) t h = balanceOf (ledger c2) t h)
  /\ net <= balanceOf (ledger c3) sourceToken (this env).
Proof.
  intros Hcollect Hbridge Hsingle Hthis.
  destruct (collect_inv _ _ _ _ _ _ _ Hcollect)
    as (Hfee & Hnet & Hfee0 & Hnet0 & Hs & Ht & Hle & _ & _ & Hbal2).
  assert (Hb3 : forall t h,
            balanceOf (ledger c3) t h = balanceOf (ledger c2) t h).
  { unfold run_strategy in Hbridge. rewrite Hsingle in Hbridge.
    destruct (routes strategy) as [| route0 rest]; [discriminate |].
    apply single_route_failure in Hbridge. tauto. }
  split; [exact Hb3 |].
  rewrite Hb3, Hbal2. rewrite Z.eqb_refl.
  destruct (Z.eqb_spec (this env) (msg_sender env)) as [Heq |];
    destruct (this env =? feeRecipient (storage c)); try rewrite Heq in *;
    lia.
Qed.

(** Where the refund on failure is made.  When the bridge execution of
    [executeAggregatedRoute] reports failure and the contract still holds
    the net amount, the call does not revert: it returns [false] and hands
    [netAmount = totalAmount - protocolFee] back to the caller, where
    [protocolFee = totalAmount * protocolFeeBps / 10000].  A single-route
    strategy always leaves the contract with the net amount; its caller
    ends up with the fee less and the fee recipient with the fee more. *)
Theorem failed_route_refunds_all_but_the_fee
    (env : Env) (sourceToken : address) (strategy : AggregatedRouteStrategy)
    (c : Chain) (fee net : Z) (c2 c3 : Chain)
    (Hcollect : collect env sourceToken strategy c = Ok (fee, net, c2))
    (Hbridge : run_strategy env sourceToken strategy net c2 = Ok (false, c3)) :
  fee = totalAmount strategy * protocolFeeBps (storage c) / 10000
  /\ net = totalAmount strategy - fee
  /\ (net <= balanceOf (ledger c3) sourceToken (this env) ->
      exists c',
        executeAggregatedRoute env sourceToken strategy c = Ok (false, c')
        /\ forall h,
            balanceOf (ledger c') sourceToken h
            = balanceOf (ledger c3) sourceToken h
              - (if h =? this env then net else 0)
              + (if h =? msg_sender env then net else 0))
  /\ (same_string (strategyType strategy) "single-route" = true ->
      0 <= balanceOf (ledger c) sourceToken (this env) ->
      exists c',
        executeAggregatedRoute env sourceToken strategy c = Ok (false, c')
        /\ forall h,
            balanceOf (ledger c') sourceToken h
            = balanceOf (ledger c) sourceToken h
              - (if h =? msg_sender env then fee else 0)
              + (if h =? feeRecipient (storage c) then fee else 0)).
Proof.
  destruct (collect_inv _ _ _ _ _ _ _ Hcollect)
    as (Hfee & Hnet & Hfee0 & Hnet0 & Hs & Ht & Hle & _ & _ & Hbal2).
  split; [exact Hfee |]. split; [exact Hnet |].
  split; [apply (failed_run_is_settled _ _ _ _ _ _ _ _ Hcollect Hbridge) |].
  intros Hsingle Hthis.
  destruct (failed_single_route_keeps_net _ _ _ _ _ _ _ _ Hcollect Hbridge
              Hsingle Hthis) as [Hb3 Hkeep].
  destruct (failed_run_is_settled _ _ _ _ _ _ _ _ Hcollect Hbridge Hkeep)
    as (c' & Hex & Hbal).
  exists c'. split; [exact Hex |]. intros h.
  rewrite Hbal, Hb3, Hbal2.
  destruct (h =? msg_sender env), (h =? this env),
    (h =? feeRecipient (storage c)); lia.
Qed.

(** ** Which failures revert *)

Lemma bind_reverts {A B : Type} (m : result A) (f : A -> result B) :
  (forall a, m = Ok a -> reverts (f a)) -> reverts (m ≫= f).
Proof.
  intros H. unfold_result. destruct m; simpl; [apply H; reflexivity | exact I].
Qed.

Lemma storage_low_level_call r c :
  storage (snd (low_level_call r c)) = storage c.
Proof.
  unfold OmniFlowSmartAggregator.low_level_call.
  destruct (bridge_call _ _ _ _); reflexivity.
Qed.

Lemma split_loop_refused env sourceToken rs net used ok c :
  (exists r, In r rs /\ refused_route (storage c) r) ->
  reverts (split_loop env sourceToken rs net used ok c).
Proof.
  revert used ok c. induction rs as [| route rest IH]; intros used ok c.
  - intros (r & [] & _).
  - intros (r & Hin & Hbad). simpl. unfold_result.
    destruct (mget_bool (trustedBridges (storage c)) (bridge route)) eqn:Htr;
      simpl; [| exact I].
    destruct (0 <? Z.of_nat (length (callData route))) eqn:Hcd; simpl;
      [| exact I].
    destruct (checked (used + amount route)) as [u |]; [| exact I].
    destruct (u <=? net); simpl; [| exact I].
    destruct (forceApprove sourceToken (this env) (bridge route)
                (amount route) (ledger c)) as [l1 |]; [| exact I].
    pose proof (storage_low_level_call route (set_ledger l1 c)) as Hst.
    destruct (low_level_call route (set_ledger l1 c)) as [success c2].
    simpl in Hst. apply IH.
    destruct Hin as [<- | Hin].
    + exfalso. destruct Hbad as [Hbad | Hbad]; [congruence |].
      rewrite Hbad in Hcd. discriminate.
    + exists r. split; [exact Hin |]. simpl. rewrite Hst. exact Hbad.
Qed.

Lemma run_strategy_refused env sourceToken strategy net c2 :
  (exists r, In r (executed_routes strategy)
             /\ refused_route (storage c2) r) ->
  reverts (run_strategy env sourceToken strategy net c2).
Proof.
  unfold run_strategy, executed_routes. intros (r & Hin & Hbad).
  destruct (same_string (strategyType strategy) "single-route").
  - destruct (routes strategy) as [| route0 rest]; [exact I |].
    simpl in Hin. destruct Hin as [<- | []].
    unfold OmniFlowSmartAggregator._executeSingleRoute. unfold_result.
    destruct Hbad as [-> | ->]; simpl; [exact I |].
    destruct (mget_bool _ _); exact I.
  - destruct (same_string (strategyType strategy) "split-route");
      [| exact I].
    unfold OmniFlowSmartAggregator._executeSplitRoute. unfold_result.
    destruct (2 <=? Z.of_nat (length (routes strategy))); simpl; [| exact I].
    pose proof (split_loop_refused env sourceToken (routes strategy) net 0
                  true c2 (ex_intro _ r (conj Hin Hbad))) as Hr.
    destruct (split_loop env sourceToken (routes strategy) net 0 true c2)
      as [[? ?] |]; simpl in *; [tauto | exact I].
Qed.

Lemma collect_violation env sourceToken strategy c :
  violates_precondition env sourceToken strategy (storage c)
  \/ cannot_pay env sourceToken strategy (ledger c) ->
  (exists fee net c2,
      collect env sourceToken strategy c = Ok (fee, net, c2)
      /\ strategyType strategy <> "single-route"
      /\ strategyType strategy <> "split-route")
  \/ reverts (collect env sourceToken strategy c).
Proof.
  intros H. unfold collect. unfold_result. simpl.
  destruct (entered (storage c)) eqn:Hent; simpl; [right; exact I |].
  destruct (Z.leb_spec (block_timestamp env) (deadline strategy)); simpl;
    [| right; exact I].
  destruct (routes strategy) as [| r0 rs] eqn:Hrs; simpl; [right; exact I |].
  destruct (Z.ltb_spec 0 (totalAmount strategy)); simpl; [| right; exact I].
  destruct (Z.eqb_spec sourceToken 0); simpl; [right; exact I |].
  destruct (Z.leb_spec (minGlobalSecurityScore (storage c))
              (securityScore strategy)); simpl; [| right; exact I].
  destruct (checked (estimatedFees strategy * 10000)) as [sc |] eqn:Hsc;
    [| right; exact I].
  apply checked_inv in Hsc as [-> _].
  destruct (Z.eqb_spec (totalAmount strategy) 0); [lia |].
  destruct (Z.leb_spec (estimatedFees strategy * 10000 / totalAmount strategy)
              (maxFeePercentage (storage c))); simpl; [| right; exact I].
  assert (Hsplit :
    same_string (strategyType strategy) "split-route" = true ->
    minAmountForSplit (storage c) <= totalAmount strategy ->
    (2 <=? Z.of_nat (S (length rs))) && (Z.of_nat (S (length rs)) <=? 5) = true ->
    ~ (strategyType strategy = "split-route"
       /\ (totalAmount strategy < minAmountForSplit (storage c)
           \/ (S (length rs) < 2)%nat \/ (5 < S (length rs))%nat))).
  { intros _ Hm Hl [_ Hd]. apply andb_true_iff in Hl as [Hl1 Hl2].
    apply Z.leb_le in Hl1, Hl2. lia. }
  assert (Hpay : forall l1,
    safeTransferFrom sourceToken (this env) (msg_sender env) (this env)
      (totalAmount strategy) (ledger c) = Ok l1 ->
    ~ cannot_pay env sourceToken strategy (ledger c)).
  { intros l1 Hl1 [Hb | [Ha Hmax]].
    - apply safeTransferFrom_balance in Hl1 as [Hle _]. lia.
    - unfold safeTransferFrom, _spendAllowance in Hl1. unfold_result.
      destruct (Z.eqb_spec (allowance (ledger c) sourceToken (msg_sender env)
                              (this env)) uint256_max); [lia |].
      destruct (Z.leb_spec (totalAmount strategy)
                  (allowance (ledger c) sourceToken (msg_sender env)
                     (this env))); simpl in Hl1; [lia | discriminate]. }
  assert (Hrest : forall l1,
    safeTransferFrom sourceToken (this env) (msg_sender env) (this env)
      (totalAmount strategy) (ledger c) = Ok l1 ->
    (same_string (strategyType strategy) "split-route" = true ->
     minAmountForSplit (storage c) <= totalAmount strategy
     /\ (2 <=? Z.of_nat (S (length rs))) && (Z.of_nat (S (length rs)) <=? 5)
        = true) ->
    strategyType strategy <> "single-route"
    /\ strategyType strategy <> "split-route").
  { intros l1 Hl1 Hsp. specialize (Hpay l1 Hl1).
    destruct H as [H | H]; [| tauto].
    destruct H as [H | [H | [H | [H | [H | [H | [H | [H | H]]]]]]]];
      try congruence; try lia; try exact H.
    exfalso. destruct H as [Heq Hd].
    assert (Hss : same_string (strategyType strategy) "split-route" = true)
      by (apply String.eqb_eq; exact Heq).
    destruct (Hsp Hss) as [Hm Hl]. apply (Hsplit Hss Hm Hl).
    rewrite Hrs in Hd. simpl in Hd. tauto. }
  destruct (same_string (strategyType strategy) "split-route") eqn:Hss.
  - destruct (Z.leb_spec (minAmountForSplit (storage c))
                (totalAmount strategy)); simpl; [| right; exact I].
    destruct ((2 <=? Z.of_nat (S (length rs)))
              && (Z.of_nat (S (length rs)) <=? 5)) eqn:Hl; simpl;
      [| right; exact I].
    destruct (safeTransferFrom sourceToken (this env) (msg_sender env)
                (this env) (totalAmount strategy) (ledger c)) as [l1 |] eqn:Hl1;
      [| right; exact I].
    exfalso. destruct (Hrest l1 eq_refl (fun _ => conj H4 eq_refl)) as [_ Hn].
    apply Hn. apply String.eqb_eq. exact Hss.
  - simpl.
    destruct (safeTransferFrom sourceToken (this env) (msg_sender env)
                (this env) (totalAmount strategy) (ledger c)) as [l1 |] eqn:Hl1;
      [| right; exact I].
    assert (Htypes : strategyType strategy <> "single-route"
                     /\ strategyType strategy <> "split-route")
      by (apply (Hrest l1 eq_refl); discriminate).
    destruct (checked (totalAmount strategy * protocolFeeBps (storage c)))
      as [fs |]; [| right; exact I].
    destruct (checked (totalAmount strategy - fs / 10000)) as [nt |];
      [| right; exact I].
    destruct (0 <? fs / 10000).
    + destruct (safeTransfer sourceToken (this env)
                  (feeRecipient (storage c)) (fs / 10000) l1) as [l2 |];
        [| right; exact I].
      left. eauto 6.
    + left. eauto 6.
Qed.

Lemma run_strategy_unknown_type env sourceToken strategy net c2 :
  strategyType strategy <> "single-route" ->
  strategyType strategy <> "split-route" ->
  reverts (run_strategy env sourceToken strategy net c2).
Proof.
  intros H1 H2. unfold run_strategy, same_string.
  destruct (String.eqb_spec (strategyType strategy) "single-route");
    [congruence |].
  destruct (String.eqb_spec (strategyType strategy) "split-route");
    [congruence | exact I].
Qed.

(** Whether the loop over the routes of a split reverts is decided by the
    storage, the routes and the amounts: what the bridges answer plays no
    part. *)
Lemma split_loop_reverts_whatever_the_bridges
    (bridge_call' : address -> Z -> bytes -> Ledger -> option Ledger)
    env sourceToken rs net used ok ok' c c' :
  storage c = storage c' ->
  reverts (split_loop env sourceToken rs net used ok c)
  <-> reverts (OmniFlowSmartAggregator.split_loop bridge_call' env sourceToken
                 rs net used ok' c').
Proof.
  revert used ok ok' c c'.
  induction rs as [| route rest IH]; intros used ok ok' c c' Hst; simpl;
    [tauto |].
  unfold_result. rewrite <- Hst.
  destruct (mget_bool (trustedBridges (storage c)) (bridge route)); simpl;
    [| tauto].
  destruct (0 <? Z.of_nat (length (callData route))); simpl; [| tauto].
  destruct (checked (used + amount route)) as [u |]; [| tauto].
  destruct (u <=? net); simpl; [| tauto].
  unfold forceApprove. unfold_result.
  destruct (this env =? 0); simpl; [tauto |].
  destruct (bridge route =? 0); simpl; [tauto |].
  unfold OmniFlowSmartAggregator.low_level_call. simpl.
  destruct (bridge_call (bridge route) (value route) (callData route) _);
    destruct (bridge_call' (bridge route) (value route) (callData route) _);
    apply IH; simpl; exact Hst.
Qed.

Lemma run_strategy_reverts_whatever_the_bridges
    (bridge_call' : address -> Z -> bytes -> Ledger -> option Ledger)
    env sourceToken strategy net c c' :
  storage c = storage c' ->
  reverts (run_strategy env sourceToken strategy net c)
  <-> reverts (AggregatorSpec.run_strategy bridge_call' env sourceToken
                 strategy net c').
Proof.
  intros Hst. unfold AggregatorSpec.run_strategy.
  destruct (same_string (strategyType strategy) "single-route").
  - destruct (routes strategy) as [| route0 rest]; [tauto |].
    unfold OmniFlowSmartAggregator._executeSingleRoute. unfold_result.
    rewrite <- Hst.
    destruct (mget_bool (trustedBridges (storage c)) (bridge route0)); simpl;
      [| tauto].
    destruct (0 <? Z.of_nat (length (callData route0))); simpl; [| tauto].
    unfold forceApprove. unfold_result.
    destruct (this env =? 0); simpl; [tauto |].
    destruct (bridge route0 =? 0); simpl; [tauto |].
    destruct (low_level_call route0 _);
      destruct (OmniFlowSmartAggregator.low_level_call bridge_call' route0 _);
      simpl; tauto.
  - destruct (same_string (strategyType strategy) "split-route"); [| tauto].
    unfold OmniFlowSmartAggregator._executeSplitRoute. unfold_result.
    destruct (2 <=? Z.of_nat (length (routes strategy))); simpl; [| tauto].
    pose proof (split_loop_reverts_whatever_the_bridges bridge_call' env
                  sourceToken (routes strategy) net 0 true true c c' Hst)
      as Hloop.
    destruct (split_loop env sourceToken (routes strategy) net 0 true c)
      as [[? ?] |];
      destruct (OmniFlowSmartAggregator.split_loop bridge_call' env sourceToken
                  (routes strategy) net 0 true c') as [[? ?] |];
      simpl in *; tauto.
Qed.


End Bridges.

(** ** Concrete runs *)

Lemma failed_route_refunds_all_but_the_fee_witness :
  exists c',
    executeAggregatedRoute dead_bridge demo_env 77 single_strategy demo_chain
    = Ok (false, c')
    /\ forall h,
        balanceOf (ledger c') 77 h
        = balanceOf (ledger demo_chain) 77 h
          - (if h =? msg_sender demo_env then ether / 1000 else 0)
          + (if h =? feeRecipient (storage demo_chain) then ether / 1000 else 0).
Proof.
  refine (proj2 (proj2 (proj2
    (failed_route_refunds_all_but_the_fee dead_bridge demo_env 77
       single_strategy demo_chain (ether / 1000) (ether - ether / 1000)
       _ _ _ _))) _ _);
    [ vm_compute; reflexivity | vm_compute; reflexivity
    | reflexivity | vm_compute; discriminate ].
Defined.

(** C10. The refund on failure is not made when a split has failed in
    part.  The bridge execution reports failure, so the function goes on to
    refund the whole net amount, as it does for a single route; but the
    first bridge has taken its share, the contract holds less than the net
    amount, the transfer fails and the call reverts instead of returning
    [false]. *)
Lemma partly_failed_split_reverts :
  (exists fee net c2 c3,
     collect demo_env 77 split_strategy demo_chain = Ok (fee, net, c2)
     /\ run_strategy pulling_bridge demo_env 77 split_strategy net c2
        = Ok (false, c3)
     /\ balanceOf (ledger c3) 77 500 < net)
  /\ executeAggregatedRoute pulling_bridge demo_env 77 split_strategy demo_chain
     = Revert "ERC20InsufficientBalance".
Proof.
  split.
  - do 4 eexists. split; [vm_compute; reflexivity |].
    split; [vm_compute; reflexivity |]. vm_compute. reflexivity.
  - vm_compute. reflexivity.
Qed.


End AggregatorFacts.
(* ===================================================================== *)
(** * Facts about JavaScript numbers and sorting *)
(* ===================================================================== *)

Module JSFacts.
Import JS JSSpec.

(** ** The sign of a difference

    A comparator [(a, b) => score b - score a] is consistent: when one
    difference is positive the opposite one is not.  This is read off the
    specification of binary64 subtraction. *)

Lemma binary_round_aux_negative mx ex lx :
  SFpositive (binary_round_aux prec emax true mx ex lx) = false.
Proof.
  unfold binary_round_aux.
  destruct (shr_fexp prec emax mx ex lx) as [mrs' e'].
  destruct (shr_fexp prec emax _ e' loc_Exact) as [mrs'' e''].
  destruct (shr_m mrs''); [reflexivity | | reflexivity].
  destruct (Z.leb e'' (Z.sub emax prec)); reflexivity.
Qed.

Lemma binary_round_negative m e :
  SFpositive (binary_round prec emax true m e) = false.
Proof.
  unfold binary_round.
  destruct (shl_align m e _) as [mz ez]. apply binary_round_aux_negative.
Qed.

Lemma binary_normalize_antisym m e :
  SFpositive (binary_normalize prec emax m e false) = true ->
  SFpositive (binary_normalize prec emax (- m) e false) = false.
Proof.
  destruct m as [| p | p]; simpl.
  - discriminate.
  - intros _. apply binary_round_negative.
  - rewrite binary_round_negative. discriminate.
Qed.

Lemma SFsub_antisym (a b : spec_float) :
  SFpositive (SF64sub b a) = true -> SFpositive (SF64sub a b) = false.
Proof.
  destruct a as [sa | sa | | sa ma ea], b as [sb | sb | | sb mb eb];
    try (destruct sa); try (destruct sb); simpl;
    try discriminate; try reflexivity.
  all: rewrite ?(Z.min_comm eb ea).
  all: try (intros _; apply binary_round_negative).
  all: try (rewrite binary_round_negative; discriminate).
  all: match goal with
    | |- SFpositive (binary_normalize _ _ ?m _ _) = true ->
         SFpositive (binary_normalize _ _ ?m' _ _) = false =>
        replace m' with (- m) by lia
    end;
    apply binary_normalize_antisym.
Qed.

Lemma sub_antisym (x y : number) :
  (0 <? y - x)%float = true -> (0 <? x - y)%float = false.
Proof.
  rewrite !ltb_spec, !sub_spec.
  change (Prim2SF 0) with (S754_zero false). apply SFsub_antisym.
Qed.

(** ** [Array.prototype.sort] *)

Section Sort.

Context {A : Type}.
Variable compare : A -> A -> number.

Lemma sort_insert_In x y (l : list A) :
  In y (sort_insert compare x l) <-> y = x \/ In y l.
Proof.
  induction l as [| z l IH]; simpl.
  - intuition congruence.
  - destruct (0 <? compare z x)%float; simpl.
    + intuition congruence.
    + rewrite IH. intuition congruence.
Qed.

Lemma fold_insert_In y (l acc : list A) :
  In y (fold_left (fun acc x => sort_insert compare x acc) l acc)
  <-> In y l \/ In y acc.
Proof.
  revert acc. induction l as [| x l IH]; intros acc; simpl.
  - tauto.
  - rewrite IH, sort_insert_In. intuition congruence.
Qed.

(** Sorting keeps the elements. *)
Lemma sort_In y (l : list A) : In y (sort compare l) <-> In y l.
Proof. unfold sort. rewrite fold_insert_In. simpl. tauto. Qed.

Lemma sort_nil_iff (l : list A) : sort compare l = [] <-> l = [].
Proof.
  split; [| intros ->; reflexivity].
  intros H. destruct l as [| x l]; [reflexivity |].
  assert (Hin : In x (sort compare (x :: l))) by (apply sort_In; now left).
  rewrite H in Hin. destruct Hin.
Qed.

Lemma sort_one (a : A) : sort compare [a] = [a].
Proof. reflexivity. Qed.

Lemma sort_two (a b : A) :
  sort compare [a; b]
  = if (0 <? compare a b)%float then [b; a] else [a; b].
Proof. reflexivity. Qed.

End Sort.

End JSFacts.

(* ===================================================================== *)
(** * MultiProtocolAggregator: scoring, strategies and provider failures *)
(* ===================================================================== *)

Module MultiProtocolAggregatorFacts.
Import JS JSFacts MultiProtocolAggregator MultiProtocolAggregatorSpec.

Lemma key_eqb_eq a b : key_eqb a b = true <-> a = b.
Proof. destruct a, b; simpl; split; congruence. Qed.

(** ** The security scorer *)

Ltac split_In :=
  repeat match goal with
         | H : In _ (_ :: _) |- _ => destruct H as [<- | H]
         | H : In _ [] |- _ => destruct H
         end.

(** On every combination of sub-scores the scorer can produce, the
    floating-point sum rounds to the exact value. *)
Lemma overall_exact zp zl zt zf zc :
  In zp protocol_scores -> In zl liquidity_scores -> In zt time_scores ->
  In zf fee_scores -> In zc complexity_scores ->
  Math_round (of_Z zp * 0.3 + of_Z zl * 0.25 + of_Z zt * 0.2
              + of_Z zf * 0.15 + of_Z zc * 0.1)%float
  = of_Z (weighted_round zp zl zt zf zc).
Proof.
  unfold protocol_scores, liquidity_scores, time_scores, fee_scores,
    complexity_scores.
  intros Hp Hl Ht Hf Hc. split_In; vm_compute; reflexivity.
Qed.

Lemma getProtocolSecurityScore_known nm p :
  getProtocolSecurityScore nm = Some p ->
  exists zp, In zp protocol_scores /\ p = of_Z zp /\ truthy p = true.
Proof.
  unfold getProtocolSecurityScore, securityDatabase. simpl.
  destruct (String.eqb (toLowerCase nm) "relay");
    [intros [= <-]; exists 92; simpl; auto |].
  destruct (String.eqb (toLowerCase nm) "across");
    [intros [= <-]; exists 89; simpl; auto |].
  destruct (String.eqb (toLowerCase nm) "lifi");
    [intros [= <-]; exists 92; simpl; auto | discriminate].
Qed.

(** ** The reputation table *)

Lemma protocol_known_or_not (id : string) :
  unknown_protocol id \/ exists zp, known_protocol id zp.
Proof.
  unfold unknown_protocol, known_protocol, reputation.
  destruct (String.eqb_spec (toLowerCase id) "relay") as [-> | H1];
    [right; exists 92; simpl; auto |].
  destruct (String.eqb_spec (toLowerCase id) "across") as [-> | H2];
    [right; exists 89; simpl; auto |].
  destruct (String.eqb_spec (toLowerCase id) "lifi") as [-> | H3];
    [right; exists 92; simpl; auto |].
  left. intros zp [[= H _] | [[= H _] | [[= H _] | []]]]; congruence.
Qed.

Lemma known_protocol_scored (id : string) (zp : Z) :
  known_protocol id zp ->
  getProtocolSecurityScore id = Some (of_Z zp) /\ In zp protocol_scores.
Proof.
  unfold known_protocol, reputation, getProtocolSecurityScore,
    protocol_scores.
  intros [[= H <-] | [[= H <-] | [[= H <-] | []]]]; rewrite <- H;
    split; simpl; auto.
Qed.

Lemma unknown_protocol_scored (id : string) :
  unknown_protocol id -> getProtocolSecurityScore id = None.
Proof.
  unfold unknown_protocol, known_protocol, reputation,
    getProtocolSecurityScore, securityDatabase.
  intros Hu. simpl.
  destruct (String.eqb_spec (toLowerCase id) "relay") as [H | _];
    [elim (Hu 92); rewrite H; simpl; auto |].
  destruct (String.eqb_spec (toLowerCase id) "across") as [H | _];
    [elim (Hu 89); rewrite H; simpl; auto |].
  destruct (String.eqb_spec (toLowerCase id) "lifi") as [H | _];
    [elim (Hu 92); rewrite H; simpl; auto | reflexivity].
Qed.

Section Scoring.

Variable parseFloat : string -> number.
Variable number_toString : number -> string.

#[local] Abbreviation assessLiquiditySecurity :=
  (assessLiquiditySecurity parseFloat).
#[local] Abbreviation assessFeeReasonableness :=
  (assessFeeReasonableness parseFloat).
#[local] Abbreviation analyzeRoute := (analyzeRoute parseFloat number_toString).

Lemma liquidity_score_range r :
  exists z, In z liquidity_scores
            /\ or_default (assessLiquiditySecurity r) 75 = of_Z z.
Proof.
  unfold MultiProtocolAggregator.assessLiquiditySecurity, liquidity_scores.
  repeat match goal with
         | |- context [if ?b then _ else _] => destruct b
         end;
    [exists 75 | exists 95 | exists 90 | exists 85 | exists 75 | exists 60];
    simpl; auto 10.
Qed.

Lemma time_score_range r :
  exists z, In z time_scores /\ or_default (assessTimeSecurity r) 75 = of_Z z.
Proof.
  unfold assessTimeSecurity, time_scores.
  destruct (executionDuration r) as [time |]; [| exists 75; simpl; auto 10].
  repeat match goal with
         | |- context [if ?b then _ else _] => destruct b
         end;
    [exists 75 | exists 98 | exists 92 | exists 85 | exists 75 | exists 60];
    simpl; auto 10.
Qed.

Lemma fee_score_range r :
  exists z, In z fee_scores
            /\ or_default (assessFeeReasonableness r) 75 = of_Z z.
Proof.
  unfold MultiProtocolAggregator.assessFeeReasonableness, fee_scores.
  repeat match goal with
         | |- context [if ?b then _ else _] => destruct b
         end;
    [exists 75 | exists 75 | exists 95 | exists 90 | exists 85 | exists 75
     | exists 60];
    simpl; auto 10.
Qed.

Lemma complexity_score_range r :
  exists z, In z complexity_scores
            /\ or_default (assessRouteComplexity r) 75 = of_Z z.
Proof.
  unfold assessRouteComplexity, complexity_scores.
  destruct (steps_of r) as [[| n] |];
    [exists 75; simpl; auto 10 | | exists 75; simpl; auto 10].
  repeat match goal with
         | |- context [if ?b then _ else _] => destruct b
         end;
    [exists 95 | exists 90 | exists 80 | exists 70 | exists 60];
    simpl; auto 10.
Qed.

(** The id a route is looked up under is the name the scorer passes on. *)
Lemma provider_id_scored r : provider_id r = scored_name r.
Proof.
  unfold provider_id, scored_name, or_string, truthy_string.
  destruct (tool (raw r)) as [[| c t] |]; reflexivity.
Qed.


(** ** Grouping by provider *)

Lemma group_insert_keys r acc :
  map fst (group_insert r acc)
  = if existsb (fun k => key_eqb k (protocol (route r))) (map fst acc)
    then map fst acc
    else map fst acc ++ [protocol (route r)].
Proof.
  induction acc as [| [k g] acc IH]; simpl; [reflexivity |].
  destruct (key_eqb k (protocol (route r))); simpl; [reflexivity |].
  rewrite IH.
  destruct (existsb (fun k0 => key_eqb k0 (protocol (route r))) (map fst acc));
    reflexivity.
Qed.

Lemma group_insert_NoDup r acc :
  NoDup (map fst acc) -> NoDup (map fst (group_insert r acc)).
Proof.
  intros Hnd. rewrite group_insert_keys.
  destruct (existsb (fun k => key_eqb k (protocol (route r))) (map fst acc))
    eqn:Hex; [exact Hnd |].
  apply NoDup_app. split; [exact Hnd |]. split; [| apply NoDup_singleton].
  intros k Hin Hk. apply list_elem_of_singleton in Hk. subst k.
  apply list_elem_of_In in Hin.
  assert (existsb (fun k0 => key_eqb k0 (protocol (route r))) (map fst acc)
          = true) as Habs; [| congruence].
  apply existsb_exists. exists (protocol (route r)).
  split; [exact Hin | now apply key_eqb_eq].
Qed.

Lemma group_insert_sound rs r acc :
  group_sound rs acc -> In r rs -> group_sound rs (group_insert r acc).
Proof.
  intros Hs Hr. induction acc as [| [k g] acc IH]; simpl.
  - intros k' g' x [[= <- <-] | []] [<- | []]. auto.
  - destruct (key_eqb k (protocol (route r))) eqn:Hk.
    + apply key_eqb_eq in Hk. intros k' g' x [[= <- <-] | Hin] Hx.
      * apply in_app_or in Hx as [Hx | [<- | []]]; [| auto].
        apply (Hs k g x); [now left | exact Hx].
      * apply (Hs k' g' x); [now right | exact Hx].
    + intros k' g' x [[= <- <-] | Hin] Hx.
      * apply (Hs k g x); [now left | exact Hx].
      * refine (IH _ k' g' x Hin Hx).
        intros k0 g0 x0 Hin0. apply Hs. now right.
Qed.

Lemma routesByProtocol_spec rs :
  NoDup (map fst (routesByProtocol rs))
  /\ group_sound rs (routesByProtocol rs).
Proof.
  unfold routesByProtocol.
  assert (Hgen : forall l acc,
    (forall x, In x l -> In x rs) ->
    NoDup (map fst acc) -> group_sound rs acc ->
    NoDup (map fst (fold_left (fun acc r => group_insert r acc) l acc))
    /\ group_sound rs (fold_left (fun acc r => group_insert r acc) l acc)).
  { induction l as [| r l IH]; intros acc Hl Hnd Hs; simpl; [auto |].
    apply IH.
    - intros x Hx. apply Hl. now right.
    - now apply group_insert_NoDup.
    - apply group_insert_sound; [exact Hs | apply Hl; now left]. }
  apply Hgen; [auto | constructor | intros k g x []].
Qed.

(** ** Strategy synthesis *)

#[local] Abbreviation generateMultiProtocolSplits :=
  (generateMultiProtocolSplits parseFloat).
#[local] Abbreviation multiProtocolSplit := (multiProtocolSplit parseFloat).
#[local] Abbreviation bestSingleRoute := (bestSingleRoute parseFloat).
#[local] Abbreviation fee_or := (fee_or parseFloat).
#[local] Abbreviation compareRoutes := (compareRoutes parseFloat).

(** The synthesizer sorts at most two strategies, the best single route
    and, if it applies, the split, and each is built from analysed routes. *)
Lemma strategies_shape rs params :
  exists pre,
    generateMultiProtocolSplits rs params = sort compareStrategies pre
    /\ (length pre <= 2)%nat
    /\ (rs <> [] -> pre <> [])
    /\ forall s r, In s pre -> In r (routes s) -> In r rs.
Proof.
  unfold MultiProtocolAggregator.generateMultiProtocolSplits.
  eexists. split; [reflexivity |].
  destruct (routesByProtocol_spec rs) as [_ Hsound].
  destruct (sort compareRoutes rs) as [| b srt] eqn:Hsort.
  - apply sort_nil_iff in Hsort. subst rs. simpl.
    split; [lia |]. split; [congruence |]. intros s r [].
  - assert (Hb : In b rs)
      by (apply (sort_In compareRoutes); rewrite Hsort; now left).
    destruct ((1 <? length (routesByProtocol rs))%nat
              && (0.5 <? parseFloat (amount params))%float).
    + destruct (routesByProtocol rs)
        as [| [k1 [| r1 g1]] [| [k2 [| r2 g2]] rest]] eqn:Hg; simpl;
        (split; [lia |]); (split; [discriminate |]);
        intros s r [<- | Hs]; simpl; try (intros [<- | []]; exact Hb);
        try (destruct Hs; fail).
      destruct Hs as [<- | []]. simpl. intros [<- | [<- | []]].
      * apply (Hsound k1 (r1 :: g1)); simpl; auto.
      * apply (Hsound k2 (r2 :: g2)); simpl; auto.
    + simpl. split; [lia |]. split; [discriminate |].
      intros s r [<- | []]. simpl. intros [<- | []]. exact Hb.
Qed.

Lemma split_branch rs params k1 route1 g1 k2 route2 g2 rest :
  routesByProtocol rs = (k1, route1 :: g1) :: (k2, route2 :: g2) :: rest ->
  (0.5 <? parseFloat (amount params))%float = true ->
  exists strategy1,
    generateMultiProtocolSplits rs params
    = sort compareStrategies
        (strategy1
         ++ [multiProtocolSplit (parseFloat (amount params)) route1 route2]).
Proof.
  intros Hg Ha. unfold MultiProtocolAggregator.generateMultiProtocolSplits.
  rewrite Hg, Ha. simpl. eexists. reflexivity.
Qed.


(** C6 (amended). The list the synthesizer returns is ordered by the
    comparator of its final sort, which ranks by speed and fee only,
    [1000 / max(estimatedTime, 60) + 100 / max(totalFees, 1)]: no strategy is
    followed by one whose score exceeds its own.  The security score takes no
    part in the order. *)
Theorem strategies_sorted_by_speed_and_fee
    (rs : list AnalyzedRoute) (params : Params) :
  Sorted
    (fun x y =>
       (0 <? (1000 / Math_max (estimatedTime y) 60
              + 100 / Math_max (totalFees y) 1)
             - (1000 / Math_max (estimatedTime x) 60
                + 100 / Math_max (totalFees x) 1))%float = false)
    (generateMultiProtocolSplits rs params).
Proof.
  destruct (strategies_shape rs params) as (pre & -> & Hlen & _).
  destruct pre as [| a [| b [| c pre]]]; simpl in Hlen; try lia.
  - constructor.
  - rewrite sort_one. repeat constructor.
  - rewrite sort_two.
    destruct (0 <? compareStrategies a b)%float eqn:Hab.
    + repeat constructor. apply sub_antisym. exact Hab.
    + repeat constructor. exact Hab.
Qed.

(** ** Provider failures *)

Variable getLiFiRoutes : Params -> completion (list RawRoute).
Variable getAcrossRoutes : Params -> completion (list RawRoute).

#[local] Abbreviation getProtocolRoutes :=
  (getProtocolRoutes getLiFiRoutes getAcrossRoutes).
#[local] Abbreviation protocolRoutes :=
  (protocolRoutes getLiFiRoutes getAcrossRoutes).
#[local] Abbreviation collectRoutes :=
  (collectRoutes getLiFiRoutes getAcrossRoutes).
#[local] Abbreviation getAggregatedRoutes :=
  (getAggregatedRoutes parseFloat number_toString getLiFiRoutes
     getAcrossRoutes).
#[local] Abbreviation analyzeBasicRoutes :=
  (analyzeBasicRoutes parseFloat number_toString).
#[local] Abbreviation provider_query :=
  (provider_query getLiFiRoutes getAcrossRoutes).
#[local] Abbreviation provider_failed :=
  (provider_failed getLiFiRoutes getAcrossRoutes).
#[local] Abbreviation provider_succeeds :=
  (provider_succeeds getLiFiRoutes getAcrossRoutes).

Lemma route_analyzeRoute r : route (analyzeRoute r) = r.
Proof.
  unfold MultiProtocolAggregator.analyzeRoute.
  destruct (getProtocolSecurityScore (scored_name r)) as [p |];
    [destruct (truthy p) |]; reflexivity.
Qed.

Lemma chain_in_In (c : Z) (l : list Z) : chain_in c l = true <-> In c l.
Proof.
  unfold chain_in. rewrite existsb_exists. split.
  - intros (x & Hin & Heq). apply Z.eqb_eq in Heq. now subst.
  - intros H. exists c. split; [exact H | apply Z.eqb_refl].
Qed.

Lemma serves_iff (p : Protocol) (params : Params) :
  chain_in (fromChain params) (supportedChains p)
  && chain_in (toChain params) (supportedChains p) = true
  <-> serves p params.
Proof. unfold serves. now rewrite andb_true_iff, !chain_in_In. Qed.

(** What one provider contributes. *)
Lemma protocolRoutes_succeeds params entry q :
  provider_succeeds params entry q ->
  protocolRoutes params entry = map (route_of_quote entry) q.
Proof.
  destruct entry as [k p]. intros (Hs & Hq & _). simpl in Hs, Hq.
  apply serves_iff in Hs.
  unfold MultiProtocolAggregator.protocolRoutes.
  rewrite Hs.
  replace (getProtocolRoutes k params) with (provider_query k params)
    by (destruct k; reflexivity).
  rewrite Hq. destruct k; reflexivity.
Qed.

Lemma protocolRoutes_failed params entry :
  provider_failed params entry -> protocolRoutes params entry = [].
Proof.
  destruct entry as [k p]. intros Hf.
  unfold MultiProtocolAggregator.protocolRoutes.
  destruct (negb (isProtocolEnabled k)); [reflexivity |].
  destruct (chain_in (fromChain params) (supportedChains p)
            && chain_in (toChain params) (supportedChains p)) eqn:Hs;
    [| reflexivity].
  apply serves_iff in Hs.
  replace (getProtocolRoutes k params) with (provider_query k params)
    by (destruct k; reflexivity).
  destruct Hf as [Hn | [[msg Hm] | He]]; simpl in *.
  - now elim Hn.
  - now rewrite Hm.
  - now rewrite He.
Qed.

(** A provider has failed or has succeeded, never both. *)
Lemma failed_or_succeeds params entry :
  provider_failed params entry \/ exists q, provider_succeeds params entry q.
Proof.
  destruct entry as [k p].
  unfold MultiProtocolAggregatorSpec.provider_failed,
    MultiProtocolAggregatorSpec.provider_succeeds. simpl.
  destruct (chain_in (fromChain params) (supportedChains p)
            && chain_in (toChain params) (supportedChains p)) eqn:Hs.
  - apply serves_iff in Hs.
    destruct (provider_query k params) as [[| quote q] | msg] eqn:Hq.
    + left. auto.
    + right. exists (quote :: q). repeat split; [apply Hs.. | discriminate].
    + left. right. left. eauto.
  - left. left. intros H. apply serves_iff in H. congruence.
Qed.

Lemma failed_not_succeeds params entry q :
  provider_failed params entry -> ~ provider_succeeds params entry q.
Proof.
  intros [Hn | [[msg Hm] | He]] (Hs & Hq & Hne).
  - now elim Hn.
  - congruence.
  - rewrite He in Hq. injection Hq as <-. now elim Hne.
Qed.

(** The collected routes are the quotes of the providers that succeeded. *)
Lemma collected_iff params pr :
  In pr (collectRoutes params)
  <-> exists entry q quote,
        In entry protocols
        /\ provider_succeeds params entry q
        /\ In quote q
        /\ pr = route_of_quote entry quote.
Proof.
  unfold MultiProtocolAggregator.collectRoutes. rewrite in_flat_map. split.
  - intros (entry & Hent & Hin).
    destruct (failed_or_succeeds params entry) as [Hf | [q Hs]].
    + rewrite (protocolRoutes_failed _ _ Hf) in Hin. destruct Hin.
    + rewrite (protocolRoutes_succeeds _ _ _ Hs) in Hin.
      apply in_map_iff in Hin as (quote & <- & Hq).
      exists entry, q, quote. auto.
  - intros (entry & q & quote & Hent & Hs & Hq & ->).
    exists entry. split; [exact Hent |].
    rewrite (protocolRoutes_succeeds _ _ _ Hs).
    apply in_map_iff. eauto.
Qed.

Lemma collectRoutes_nil_iff params :
  collectRoutes params = [] <-> Forall (provider_failed params) protocols.
Proof.
  rewrite List.Forall_forall. split.
  - intros Hnil entry Hent.
    destruct (failed_or_succeeds params entry) as [Hf | [q Hs]];
      [exact Hf | exfalso].
    destruct q as [| quote q]; [now destruct Hs as (_ & _ & Hne) |].
    assert (Hin : In (route_of_quote entry quote) (collectRoutes params)).
    { apply collected_iff. exists entry, (quote :: q), quote.
      simpl. auto. }
    rewrite Hnil in Hin. destruct Hin.
  - intros Hall.
    destruct (collectRoutes params) as [| pr rest] eqn:Hc; [reflexivity |].
    assert (Hin : In pr (collectRoutes params)) by (rewrite Hc; now left).
    apply collected_iff in Hin as (entry & q & quote & Hent & Hs & _).
    elim (failed_not_succeeds _ _ _ (Hall entry Hent) Hs).
Qed.

Lemma aggregation_outcome params :
  (collectRoutes params = [] ->
   getAggregatedRoutes params = Throw "所有协议都无法提供路由")
  /\ (collectRoutes params <> [] ->
      exists strategies,
        getAggregatedRoutes params = Return strategies
        /\ strategies <> []
        /\ strategies
           = generateMultiProtocolSplits
               (analyzeBasicRoutes (collectRoutes params)) params
        /\ forall s r, In s strategies -> In r (routes s) ->
            exists pr, In pr (collectRoutes params) /\ r = analyzeRoute pr).
Proof.
  unfold MultiProtocolAggregator.getAggregatedRoutes. split.
  - intros H. now rewrite H.
  - intros H.
    destruct (collectRoutes params) as [| pr0 prs] eqn:Hc; [congruence |].
    eexists. split; [reflexivity |].
    destruct (strategies_shape
                (analyzeBasicRoutes (pr0 :: prs)) params)
      as (pre & Heq & _ & Hne & Hroutes).
    split; [| split; [reflexivity |]].
    + rewrite Heq. intros Hnil. apply sort_nil_iff in Hnil. revert Hnil.
      apply Hne. discriminate.
    + intros s r Hs Hr. rewrite Heq in Hs. apply sort_In in Hs.
      specialize (Hroutes s r Hs Hr).
      unfold MultiProtocolAggregator.analyzeBasicRoutes in Hroutes.
      apply in_map_iff in Hroutes as (pr & <- & Hpr). eauto.
Qed.

End Scoring.



(** The same request: the one strategy returned is the best single route,
    over the Across quote. *)
Example one_provider_is_enough :
  getAggregatedRoutes parseFloat_table toString_unused lifi_timeout
    across_90s one_native_unit
  = Return [bestSingleRoute parseFloat_table 1 scenario_across].
Proof. vm_compute. reflexivity. Qed.


(** Its overall score, and that of a quote under a tool without a record. *)
Example scored_and_unscored :
  overallSecurity scenario_lifi = of_Z 84
  /\ weighted_round 92 75 92 75 75 = 84
  /\ overallSecurity
       (analyzeRoute parseFloat_table toString_unused
          (mkProtocolRoute (quote "lifi-2" "stargate" 20 "0.002") lifi
             "Li.Fi" (Some "stargate")))
     = 0%float.
Proof. vm_compute. repeat split. Qed.

(** ** Concrete queries *)

(** The scenario of the specification: fees 0.002 and 0.003, durations 20s
    and 90s, amount 1.0. *)
Example scenario_split_values :
  map split_amount (splits scenario_split) = [0.7%float; 0.3%float]
  /\ estimatedTime scenario_split = 90%float
  /\ totalFees scenario_split = 0.0023%float.
Proof. vm_compute. repeat split. Qed.



(** The security score a split reports for a route the scorer marked with
    0 (protocol unknown): the synthesizer reads the 0 as missing and takes
    75 in its place. *)
Example unknown_protocol_counts_as_75 :
  let unknown :=
    analyzeRoute parseFloat_table toString_unused
      (mkProtocolRoute (quote "lifi-2" "stargate" 20 "0.002") lifi "Li.Fi"
         (Some "stargate")) in
  overallSecurity unknown = 0%float
  /\ securityScore (bestSingleRoute parseFloat_table 1 unknown) = 75%float
  /\ securityScore (multiProtocolSplit parseFloat_table 1 unknown scenario_across)
     = 77%float.
Proof. vm_compute. repeat split. Qed.

(** C6, the claim as stated, fails: with quotes of 30s at fee 0.003 (Li.Fi)
    and 20s at fee 0.002 (Across) the returned list is the single route
    followed by the split, and the split has the higher composite score
    [securityScore * 0.4 + speedFactor * 0.3 + feeFactor * 0.3]. *)
Lemma returned_list_not_sorted_by_composite_score :
  exists single split,
    getAggregatedRoutes parseFloat_table toString_unused lifi_30s across_20s
      one_native_unit
    = Return [single; split]
    /\ strategy single = "best-single-route"
    /\ strategy split = "multi-protocol-split"
    /\ securityScore single = 83%float
    /\ securityScore split = 84%float
    /\ (calculateStrategyScore single <? calculateStrategyScore split)%float
       = true.
Proof.
  do 2 eexists. split; [vm_compute; reflexivity |].
  repeat split; vm_compute; reflexivity.
Qed.

End MultiProtocolAggregatorFacts.

(* ===================================================================== *)
(** * SmartAggregatorBridge: missing quote fields *)
(* ===================================================================== *)

Module SmartAggregatorBridgeFacts.
Import JS SmartAggregatorBridge SmartAggregatorBridgeSpec.
Import MultiProtocolAggregator (completion, Return, Throw).

Lemma append_assoc3 (a b c : string) :
  ((a ++ b) ++ c)%string = (a ++ b ++ c)%string.
Proof.
  induction a as [| x a IH]; [reflexivity |].
  change (String x ((a ++ b) ++ c) = String x (a ++ b ++ c))%string.
  now rewrite IH.
Qed.

Lemma append_empty_r (a : string) : (a ++ "")%string = a.
Proof.
  induction a as [| x a IH]; [reflexivity |].
  change (String x (a ++ "") = String x a)%string. now rewrite IH.
Qed.

Lemma names_inside pre post msg field :
  names msg field -> names (pre ++ msg ++ post)%string field.
Proof.
  intros (p & q & ->). exists (pre ++ p)%string, (q ++ post)%string.
  now rewrite !append_assoc3.
Qed.

Lemma join_names sep l field : In field l -> names (join sep l) field.
Proof.
  induction l as [| x l IH]; intros Hin; [destruct Hin |].
  destruct Hin as [-> | Hin].
  - destruct l as [| y l]; simpl.
    + exists ""%string, ""%string.
      change (field = field ++ "")%string. now rewrite append_empty_r.
    + exists ""%string, (sep ++ join sep (y :: l))%string. reflexivity.
  - specialize (IH Hin). destruct l as [| y l]; [destruct Hin |].
    change (join sep (x :: y :: l))
      with (x ++ sep ++ join sep (y :: l))%string.
    destruct IH as (p & q & ->).
    exists (x ++ sep ++ p)%string, q. now rewrite !append_assoc3.
Qed.

Section Ethers.

Variable BigInt : value -> option Z.
Variable value_toString : value -> string.
Variable encodeDepositV3 : list value -> completion string.

#[local] Abbreviation generateAcrossCallData :=
  (generateAcrossCallData BigInt value_toString encodeDepositV3).

Lemma missing_message_names r field :
  In field (missingFields r) -> names (missing_message r) field.
Proof.
  intros Hin. unfold missing_message.
  apply names_inside with (pre := "Across 路由数据不完整，缺少以下必需字段: "%string).
  now apply join_names.
Qed.

Lemma missing_field_throws r userAddress field :
  In field (missingFields r) ->
  generateAcrossCallData r userAddress = Throw (missing_message r).
Proof.
  intros Hin. unfold SmartAggregatorBridge.generateAcrossCallData.
  destruct (missingFields r); [destruct Hin | reflexivity].
Qed.

Lemma missingFields_required r :
  missingFields r = map fst (List.filter (fun p => snd p) (required_fields r)).
Proof.
  unfold missingFields, required_fields. simpl.
  repeat match goal with
         | |- context [negb ?b] => destruct b; simpl
         end;
    destruct (is_undefined (rawData_exclusivityDeadline r)); reflexivity.
Qed.

(** C9. Calldata construction for an Across route whose quote lacks
    [exclusiveRelayer] throws an error whose message names
    "exclusiveRelayer"; so it does for each of the nine fields taken from the
    quote.  When it returns, no field was missing and the encoder received
    the quote's own values: nothing is put in the place of a missing one. *)
Theorem missing_quote_field_is_named (r : AcrossRoute) (userAddress : string) :
  (truthy_value (rawData_exclusiveRelayer r) = false ->
   generateAcrossCallData r userAddress = Throw (missing_message r)
   /\ names (missing_message r) "exclusiveRelayer")
  /\ (forall field,
       In (field, true) (required_fields r) ->
       generateAcrossCallData r userAddress = Throw (missing_message r)
       /\ names (missing_message r) field)
  /\ (forall callData,
       generateAcrossCallData r userAddress = Return callData ->
       (forall field missing,
          In (field, missing) (required_fields r) -> missing = false)
       /\ encodeDepositV3
            [ Str ZeroAddress; Str userAddress;
              estimate_inputToken_address r; estimate_outputToken_address r;
              fromAmount r; toAmount r; estimate_outputToken_chainId r;
              rawData_exclusiveRelayer r; rawData_timestamp r;
              rawData_fillDeadline r; rawData_exclusivityDeadline r;
              Str "0x" ]
          = Return callData).
Proof.
  assert (Hreq : forall field,
            In (field, true) (required_fields r) ->
            In field (missingFields r)).
  { intros field Hin. rewrite missingFields_required.
    apply in_map_iff. exists (field, true). split; [reflexivity |].
    apply filter_In. auto. }
  split; [| split].
  - intros Hmiss.
    assert (Hin : In "exclusiveRelayer"%string (missingFields r)).
    { apply Hreq. unfold required_fields. rewrite Hmiss. simpl. auto 10. }
    split; [now apply missing_field_throws with (field := "exclusiveRelayer"%string)
           | now apply missing_message_names].
  - intros field Hin. apply Hreq in Hin.
    split; [now apply missing_field_throws with (field := field)
           | now apply missing_message_names].
  - intros callData Hret.
    unfold SmartAggregatorBridge.generateAcrossCallData in Hret.
    destruct (missingFields r) as [| m ms] eqn:Hm; [| discriminate].
    split.
    + intros field [|] Hin; [| reflexivity].
      destruct (Hreq field Hin).
    + destruct (BigInt (fromAmount r)); [| discriminate].
      destruct (BigInt (toAmount r)); [| discriminate].
      exact Hret.
Qed.

End Ethers.

(** The message for a quote that lacks only [exclusiveRelayer]. *)
Example relayer_missing_message :
  forall BigInt value_toString encodeDepositV3,
    generateAcrossCallData BigInt value_toString encodeDepositV3
      quote_without_relayer "0xUser"
    = Throw ("Across 路由数据不完整，缺少以下必需字段: exclusiveRelayer。"
             ++ "路由 ID: across-1。"
             ++ "请确保 Across API 返回完整的报价数据。")%string.
Proof. intros. vm_compute. reflexivity. Qed.

End SmartAggregatorBridgeFacts.
(* ===================================================================== *)
(** * JavaScript numbers: the order [<=] *)
(* ===================================================================== *)

Module JSOrder.
Import JS.

(** [<=] on spec floats compares sign, exponent and mantissa in turn; it is
    transitive. *)
Lemma SFleb_trans (a b c : spec_float) :
  SFleb a b = true -> SFleb b c = true -> SFleb a c = true.
Proof.
  unfold SFleb, SFcompare.
  destruct a as [sa | sa | | sa ma ea], b as [sb | sb | | sb mb eb],
    c as [sc | sc | | sc mc ec];
    try destruct sa; try destruct sb; try destruct sc;
    simpl; try reflexivity; try discriminate.
  all: destruct (Z.compare_spec ea eb), (Z.compare_spec eb ec),
         (Z.compare_spec ea ec); subst;
       try reflexivity; try discriminate; try lia.
  all: repeat match goal with
    | |- context [Pos.compare_cont Eq ?p ?q] =>
        change (Pos.compare_cont Eq p q) with (Pos.compare p q)
    end.
  all: destruct (Pos.compare_spec ma mb), (Pos.compare_spec mb mc),
         (Pos.compare_spec ma mc); subst; simpl;
       try reflexivity; try discriminate; try lia.
Qed.

Lemma leb_trans (x y z : number) :
  (x <=? y)%float = true -> (y <=? z)%float = true -> (x <=? z)%float = true.
Proof. rewrite !leb_spec. apply SFleb_trans. Qed.

End JSOrder.
(* ===================================================================== *)
(** * Mappings and the ERC-20 ledger: what one operation changes *)
(* ===================================================================== *)

Module MappingFacts.

Lemma mget_bool_insert (m : gmap address bool) g b a :
  mget_bool (<[g := b]> m) a = if decide (g = a) then b else mget_bool m a.
Proof.
  unfold mget_bool. destruct (decide (g = a)) as [-> | Hne].
  - now rewrite lookup_insert_eq.
  - now rewrite lookup_insert_ne.
Qed.

End MappingFacts.

Module LedgerFacts.
Import ERC20 ERC20Facts.

Lemma _transfer_inv token from to value l l' :
  _transfer token from to value l = Ok l' ->
  from <> 0 /\ to <> 0 /\ value <= balanceOf l token from
  /\ forall t h,
      balanceOf l' t h
      = balanceOf l t h
        + (if t =? token
           then (if h =? to then value else 0)
                - (if h =? from then value else 0)
           else 0).
Proof.
  unfold _transfer. intros H. unfold mbind, result_bind, require in H.
  destruct (Z.eqb_spec from 0); simpl in H; [discriminate |].
  destruct (Z.eqb_spec to 0); simpl in H; [discriminate |].
  destruct (Z.leb_spec value (balanceOf l token from)); simpl in H;
    [| discriminate].
  injection H as <-. repeat split; try assumption.
  intros t h. rewrite !balanceOf_set_balance.
  destruct (Z.eqb_spec t token), (Z.eqb_spec h to), (Z.eqb_spec h from);
    subst; repeat case_decide; simplify_eq; lia.
Qed.

Lemma _transfer_allowance token from to value l l' :
  _transfer token from to value l = Ok l' -> allowances l' = allowances l.
Proof.
  unfold _transfer. intros H. unfold mbind, result_bind, require in H.
  destruct (from =? 0); simpl in H; [discriminate |].
  destruct (to =? 0); simpl in H; [discriminate |].
  destruct (value <=? balanceOf l token from); simpl in H; [| discriminate].
  now injection H as <-.
Qed.

Lemma _spendAllowance_inv token o sp value l l' :
  _spendAllowance token o sp value l = Ok l' ->
  balances l' = balances l.
Proof.
  unfold _spendAllowance. unfold mbind, result_bind, require.
  destruct (allowance l token o sp =? uint256_max); [now intros [= <-] |].
  destruct (value <=? allowance l token o sp); simpl; [| discriminate].
  now intros [= <-].
Qed.

Lemma safeTransferFrom_inv token sp from to value l l' :
  safeTransferFrom token sp from to value l = Ok l' ->
  from <> 0 /\ to <> 0 /\ value <= balanceOf l token from
  /\ forall t h,
      balanceOf l' t h
      = balanceOf l t h
        + (if t =? token
           then (if h =? to then value else 0)
                - (if h =? from then value else 0)
           else 0).
Proof.
  unfold safeTransferFrom. unfold mbind, result_bind.
  destruct (_spendAllowance token from sp value l) as [l1 |] eqn:Hs;
    [| discriminate].
  intros Ht. apply _spendAllowance_inv in Hs.
  apply _transfer_inv in Ht as (Hf & Hto & Hle & Hbal).
  unfold balanceOf in *. rewrite Hs in *. auto.
Qed.

Lemma forceApprove_inv token o sp value l l' :
  forceApprove token o sp value l = Ok l' ->
  o <> 0 /\ sp <> 0 /\ l' = set_allowance token o sp value l.
Proof.
  unfold forceApprove. unfold mbind, result_bind, require.
  destruct (Z.eqb_spec o 0); simpl; [discriminate |].
  destruct (Z.eqb_spec sp 0); simpl; [discriminate |].
  intros [= <-]. auto.
Qed.

Lemma allowance_set_allowance token o sp v l :
  allowance (set_allowance token o sp v l) token o sp = v.
Proof. unfold allowance, set_allowance. simpl. now rewrite lookup_insert_eq. Qed.

End LedgerFacts.
(* ===================================================================== *)
(** * SmartAccount: what holds along every run *)
(* ===================================================================== *)

Module SmartAccountRuns.
Import SmartAccount SmartAccountSpec SmartAccountSteps SmartAccountFacts.
Import SolFacts MappingFacts.

(** ** What a successful call did *)

Lemma addGuardian_inv env g s s' :
  addGuardian env g s = Ok s' ->
  msg_sender env = owner s /\ g <> 0 /\ isGuardian s g = false
  /\ g <> owner s
  /\ s' = emit (GuardianAdded g)
            (set_guardians (<[g := true]> (guardians s))
               (guardianList s ++ [g]) (guardianCount s + 1) s).
Proof.
  unfold addGuardian. intros H. unfold_result.
  destruct (Z.eqb_spec (msg_sender env) (owner s)); simpl in H;
    [| discriminate].
  destruct (Z.eqb_spec g 0); simpl in H; [discriminate |].
  destruct (isGuardian s g) eqn:Hg; simpl in H; [discriminate |].
  destruct (Z.eqb_spec g (owner s)); simpl in H; [discriminate |].
  destruct (checked (guardianCount s + 1)) eqn:Hc; [| discriminate].
  apply checked_inv in Hc as [-> _]. injection H as <-. auto.
Qed.

Lemma removeGuardian_inv env g s s' :
  removeGuardian env g s = Ok s' ->
  msg_sender env = owner s /\ isGuardian s g = true
  /\ requiredGuardians s < guardianCount s
  /\ s' = emit (GuardianRemoved g)
            (set_guardians (<[g := false]> (guardians s))
               (swap_pop g (guardianList s)) (guardianCount s - 1) s).
Proof.
  unfold removeGuardian. intros H. unfold_result.
  destruct (Z.eqb_spec (msg_sender env) (owner s)); simpl in H;
    [| discriminate].
  destruct (isGuardian s g) eqn:Hg; simpl in H; [| discriminate].
  destruct (Z.ltb_spec (requiredGuardians s) (guardianCount s)); simpl in H;
    [| discriminate].
  destruct (checked (guardianCount s - 1)) eqn:Hc; [| discriminate].
  apply checked_inv in Hc as [-> _]. injection H as <-. auto.
Qed.

Lemma initiateRecovery_inv env o s s' :
  initiateRecovery env o s = Ok s' ->
  isGuardian s (msg_sender env) = true /\ o <> 0 /\ o <> owner s
  /\ s' = emit (RecoveryInitiated o (recoveryCounter s))
            (set_recovery (recoveryCounter s)
               (mkRecovery o 1
                  (<[msg_sender env := true]>
                     (confirmed (recovery s (recoveryCounter s))))
                  (block_timestamp env)
                  (executed (recovery s (recoveryCounter s))))
               (set_recoveryCounter (recoveryCounter s + 1) s)).
Proof.
  unfold initiateRecovery. intros H. unfold_result.
  destruct (isGuardian s (msg_sender env)) eqn:Hg; simpl in H;
    [| discriminate].
  destruct (Z.eqb_spec o 0); simpl in H; [discriminate |].
  destruct (Z.eqb_spec o (owner s)); simpl in H; [discriminate |].
  destruct (checked (recoveryCounter s + 1)) eqn:Hc; [| discriminate].
  apply checked_inv in Hc as [-> _]. injection H as <-. auto.
Qed.

Lemma confirmRecovery_inv env id s s' :
  confirmRecovery env id s = Ok s' ->
  let r := recovery s id in
  let s1 :=
    set_recovery id
      (mkRecovery (newOwner r) (confirmations r + 1)
         (<[msg_sender env := true]> (confirmed r)) (timestamp r) (executed r))
      s in
  isGuardian s (msg_sender env) = true /\ newOwner r <> 0
  /\ executed r = false
  /\ hasConfirmedRecovery s id (msg_sender env) = false
  /\ (s' = s1
      \/ (requiredGuardians s <= confirmations r + 1
          /\ s' = _executeRecovery id s1)).
Proof.
  unfold confirmRecovery, hasConfirmedRecovery. intros H. unfold_result.
  destruct (isGuardian s (msg_sender env)) eqn:Hg; simpl in H;
    [| discriminate].
  destruct (Z.eqb_spec (newOwner (recovery s id)) 0); simpl in H;
    [discriminate |].
  destruct (executed (recovery s id)) eqn:He; simpl in H; [discriminate |].
  destruct (mget_bool (confirmed (recovery s id)) (msg_sender env)) eqn:Hc;
    simpl in H; [discriminate |].
  destruct (checked (confirmations (recovery s id) + 1)) eqn:Hk;
    [| discriminate].
  apply checked_inv in Hk as [-> _]. simpl in H.
  repeat split; try assumption.
  destruct (Z.leb_spec (requiredGuardians s)
              (confirmations (recovery s id) + 1)).
  - destruct (checked (timestamp (recovery s id) + RECOVERY_PERIOD));
      [| discriminate].
    destruct (a <=? block_timestamp env); injection H as <-; auto.
  - injection H as <-. auto.
Qed.

Lemma executeRecovery_inv env id s s' :
  executeRecovery env id s = Ok s' ->
  requiredGuardians s <= confirmations (recovery s id)
  /\ executed (recovery s id) = false
  /\ s' = _executeRecovery id s.
Proof.
  unfold executeRecovery. intros H. unfold_result.
  destruct (Z.leb_spec (requiredGuardians s) (confirmations (recovery s id)));
    simpl in H; [| discriminate].
  destruct (checked (timestamp (recovery s id) + RECOVERY_PERIOD));
    [| discriminate].
  destruct (a <=? block_timestamp env); simpl in H; [| discriminate].
  destruct (executed (recovery s id)); simpl in H; [discriminate |].
  injection H as <-. auto.
Qed.

(** ** Guardians *)

(** The swap-with-last-and-pop loop takes out one occurrence of the
    guardian and keeps every other entry. *)
Lemma swap_pop_perm g l : g ∈ l -> g :: swap_pop g l ≡ₚ l.
Proof.
  induction l as [| x l IH]; intros Hin.
  - inversion Hin.
  - simpl. destruct (Z.eqb_spec x g) as [-> | Hne].
    + destruct l as [| y l']; [reflexivity |].
      constructor.
      transitivity (removelast (y :: l') ++ [List.last (y :: l') g]).
      * apply Permutation_cons_append.
      * now rewrite <- app_removelast_last by discriminate.
    + rewrite Permutation_swap. constructor. apply IH.
      apply elem_of_cons in Hin as [-> | Hin]; [congruence | exact Hin].
Qed.

Lemma add_initial_guardians_spec gs m l m' l' :
  add_initial_guardians gs m l = Ok (m', l') ->
  NoDup l -> (forall a, mget_bool m a = true <-> a ∈ l) ->
  l' = l ++ gs /\ NoDup l'
  /\ (forall a, mget_bool m' a = true <-> a ∈ l').
Proof.
  revert m l. induction gs as [| g gs IH]; intros m l H Hnd Hm; simpl in H.
  - injection H as <- <-. rewrite app_nil_r. auto.
  - unfold_result.
    destruct (g =? 0); simpl in H; [discriminate |].
    destruct (mget_bool m g) eqn:Hg; simpl in H; [discriminate |].
    apply IH in H as (Heq & Hnd' & Hm').
    + subst l'. rewrite <- app_assoc in *. auto.
    + apply NoDup_app. split; [exact Hnd |]. split; [| apply NoDup_singleton].
      intros a Ha Hs. apply list_elem_of_singleton in Hs as ->.
      apply Hm in Ha. congruence.
    + intros a. rewrite mget_bool_insert, elem_of_app, list_elem_of_singleton.
      destruct (decide (g = a)) as [-> | Hne]; [tauto |].
      rewrite Hm. intuition congruence.
Qed.

Lemma constructor_consistent o gs n ep s :
  constructor o gs n ep = Ok s -> guardians_consistent s.
Proof.
  unfold constructor. intros H. unfold_result.
  destruct (o =? 0); simpl in H; [discriminate |].
  destruct (ep =? 0); simpl in H; [discriminate |].
  destruct (Z.ltb_spec 0 n); simpl in H; [| discriminate].
  destruct (Z.leb_spec n (Z.of_nat (length gs))); simpl in H; [| discriminate].
  destruct (add_initial_guardians gs ∅ []) as [[m l] |] eqn:Hl;
    [| discriminate].
  injection H as <-.
  apply add_initial_guardians_spec in Hl as (-> & Hnd & Hm).
  - unfold guardians_consistent, isGuardian. simpl. auto.
  - apply NoDup_nil_2.
  - intros a. unfold mget_bool. rewrite lookup_empty. simpl.
    split; [discriminate | inversion 1].
Qed.

Lemma run_consistent env a s s' :
  run env a s = Ok s' -> guardians_consistent s -> guardians_consistent s'.
Proof.
  unfold guardians_consistent.
  intros H (Hcount & Hnd & Hmap & Hreq). destruct a; simpl in H.
  - apply addGuardian_inv in H as (_ & _ & Hg & _ & ->).
    unfold isGuardian in *. simpl. rewrite length_app. simpl.
    split; [lia |]. split.
    { apply NoDup_app. split; [exact Hnd |].
      split; [| apply NoDup_singleton].
      intros a Ha Hs. apply list_elem_of_singleton in Hs as ->.
      apply Hmap in Ha. congruence. }
    split; [| lia].
    intros a. rewrite mget_bool_insert, elem_of_app, list_elem_of_singleton.
    destruct (decide (guardian = a)) as [-> | Hne]; [tauto |].
    rewrite Hmap. intuition congruence.
  - apply removeGuardian_inv in H as (_ & Hg & Hlt & ->).
    unfold isGuardian in *. simpl.
    pose proof (swap_pop_perm guardian (guardianList s)
                  (proj1 (Hmap guardian) Hg)) as Hp.
    pose proof (Permutation_length Hp) as Hlen. simpl in Hlen.
    rewrite <- Hp in Hnd. apply NoDup_cons in Hnd as [Hnotin Hnd'].
    split; [lia |]. split; [exact Hnd' |]. split; [| lia].
    intros a. rewrite mget_bool_insert.
    destruct (decide (guardian = a)) as [<- | Hne].
    + split; [discriminate | tauto].
    + rewrite Hmap, <- (elem_of_Permutation_proper a _ _ Hp), elem_of_cons.
      intuition congruence.
  - apply initiateRecovery_inv in H as (_ & _ & _ & ->). simpl. auto.
  - apply confirmRecovery_inv in H as (_ & _ & _ & _ & [-> | [_ ->]]);
      simpl; auto.
  - apply executeRecovery_inv in H as (_ & _ & ->). simpl. auto.
Qed.

Lemma steps_consistent s s' :
  steps s s' -> guardians_consistent s -> guardians_consistent s'.
Proof.
  induction 1 as [| env a s s1 s2 Hrun _ IH]; [auto |].
  intros Hs. apply IH. exact (run_consistent _ _ _ _ Hrun Hs).
Qed.

(** ** Recovery requests *)

Lemma recovery_lookup s id r :
  recoveries s !! id = Some r -> recovery s id = r.
Proof. unfold recovery. now intros ->. Qed.

Lemma recovery_absent s id :
  recoveries s !! id = None -> recovery s id = Recovery_zero.
Proof. unfold recovery. now intros ->. Qed.

Lemma recovery_present s id :
  newOwner (recovery s id) <> 0 \/ confirmations (recovery s id) <> 0 ->
  recoveries s !! id = Some (recovery s id).
Proof.
  unfold recovery. destruct (recoveries s !! id); simpl; [reflexivity |].
  intros [H | H]; now elim H.
Qed.

Lemma _executeRecovery_wf id s :
  requests_wf s /\ 0 < requiredGuardians s ->
  newOwner (recovery s id) <> 0 ->
  requests_wf (_executeRecovery id s)
  /\ owner (_executeRecovery id s) <> 0
  /\ 0 < requiredGuardians (_executeRecovery id s).
Proof.
  intros [[Hc Hwf] Hreq] Hno.
  pose proof (recovery_present s id (or_introl Hno)) as Hsome.
  split; [| split; [exact Hno | exact Hreq]].
  unfold requests_wf, initiated, _executeRecovery in *. simpl.
  split; [exact Hc |]. intros id'. split.
  - intros Hni. destruct (decide (id = id')) as [<- | Hne].
    + rewrite (proj1 (Hwf id) Hni) in Hsome. discriminate.
    + rewrite lookup_insert_ne by exact Hne. now apply Hwf.
  - intros r. destruct (decide (id = id')) as [<- | Hne].
    + rewrite lookup_insert_eq. intros [= <-]. simpl.
      exact (proj2 (Hwf id) _ Hsome).
    + rewrite lookup_insert_ne by exact Hne. apply Hwf.
Qed.

Lemma constructor_wf o gs n ep s :
  constructor o gs n ep = Ok s ->
  requests_wf s /\ owner s <> 0 /\ 0 < requiredGuardians s.
Proof.
  unfold constructor. intros H. unfold_result.
  destruct (Z.eqb_spec o 0); simpl in H; [discriminate |].
  destruct (ep =? 0); simpl in H; [discriminate |].
  destruct (Z.ltb_spec 0 n); simpl in H; [| discriminate].
  destruct (n <=? Z.of_nat (length gs)); simpl in H; [| discriminate].
  destruct (add_initial_guardians gs ∅ []) as [[m l] |]; [| discriminate].
  injection H as <-. unfold requests_wf. simpl.
  repeat split; try assumption; try lia.
  all: rewrite lookup_empty in *; discriminate.
Qed.

Lemma run_wf env a s s' :
  run env a s = Ok s' ->
  requests_wf s /\ owner s <> 0 /\ 0 < requiredGuardians s ->
  requests_wf s' /\ owner s' <> 0 /\ 0 < requiredGuardians s'.
Proof.
  intros H (Hwf & Hown & Hreq). destruct a; simpl in H.
  - apply addGuardian_inv in H as (_ & _ & _ & _ & ->). auto.
  - apply removeGuardian_inv in H as (_ & _ & _ & ->). auto.
  - apply initiateRecovery_inv in H as (_ & Hno & _ & ->).
    split; [| auto]. destruct Hwf as [Hc Hwf].
    assert (Hfresh : recovery s (recoveryCounter s) = Recovery_zero).
    { apply recovery_absent, Hwf. unfold initiated. lia. }
    rewrite Hfresh. unfold requests_wf, initiated in *. simpl.
    split; [lia |]. intros id. split.
    + intros Hni. rewrite lookup_insert_ne by lia. apply Hwf. lia.
    + intros r. destruct (decide (recoveryCounter s = id)) as [<- | Hne].
      * rewrite lookup_insert_eq. intros [= <-]. simpl.
        split; [exact Hno |]. split.
        -- intros g b Hl. apply lookup_insert_Some in Hl as [[_ <-] | [_ Hl]];
             [reflexivity |]. rewrite lookup_empty in Hl. discriminate.
        -- now rewrite insert_empty, map_size_singleton.
      * rewrite lookup_insert_ne by exact Hne. intros Hl. now apply Hwf in Hl.
  - apply confirmRecovery_inv in H as (_ & Hno & _ & Hnc & Hs').
    pose proof (recovery_present s recoveryId (or_introl Hno)) as Hsome.
    set (r := recovery s recoveryId) in *.
    set (r' := mkRecovery (newOwner r) (confirmations r + 1)
                 (<[msg_sender env := true]> (confirmed r)) (timestamp r)
                 (executed r)) in *.
    assert (Hwf1 : requests_wf (set_recovery recoveryId r' s)).
    { destruct Hwf as [Hc Hwf]. unfold requests_wf, initiated in *. simpl.
      split; [exact Hc |]. intros id. split.
      - intros Hni. destruct (decide (recoveryId = id)) as [<- | Hne].
        + rewrite (proj1 (Hwf recoveryId) Hni) in Hsome. discriminate.
        + rewrite lookup_insert_ne by exact Hne. now apply Hwf.
      - intros r0. destruct (decide (recoveryId = id)) as [<- | Hne].
        + rewrite lookup_insert_eq. intros [= <-]. simpl.
          destruct (proj2 (Hwf recoveryId) r Hsome) as (_ & Htrue & Hsize).
          assert (Hnone : confirmed r !! msg_sender env = None).
          { unfold hasConfirmedRecovery, mget_bool in Hnc. fold r in Hnc.
            destruct (confirmed r !! msg_sender env) as [b |] eqn:Hb;
              [| reflexivity].
            rewrite (Htrue _ _ Hb) in Hnc. discriminate. }
          split; [exact Hno |]. split.
          * intros g b Hl.
            apply lookup_insert_Some in Hl as [[_ <-] | [_ Hl]];
              [reflexivity | exact (Htrue _ _ Hl)].
          * rewrite map_size_insert_None by exact Hnone. lia.
        + rewrite lookup_insert_ne by exact Hne. intros Hl.
          now apply Hwf in Hl. }
    destruct Hs' as [-> | [_ ->]]; [auto |].
    apply _executeRecovery_wf; [auto |].
    now rewrite recovery_set_recovery_eq.
  - apply executeRecovery_inv in H as (Hc & _ & ->).
    apply _executeRecovery_wf; [auto |].
    assert (Hsome : recoveries s !! recoveryId
                    = Some (recovery s recoveryId))
      by (apply recovery_present; right; lia).
    now apply (proj2 Hwf) in Hsome.
Qed.

Lemma steps_wf s s' :
  steps s s' ->
  requests_wf s /\ owner s <> 0 /\ 0 < requiredGuardians s ->
  requests_wf s' /\ owner s' <> 0 /\ 0 < requiredGuardians s'.
Proof.
  induction 1 as [| env a s s1 s2 Hrun _ IH]; [auto |].
  intros Hs. apply IH. exact (run_wf _ _ _ _ Hrun Hs).
Qed.

(** ** What a call leaves of an initiated request *)

Lemma kept_refl s id : kept s s id.
Proof. unfold kept. repeat split; auto; lia. Qed.

Lemma kept_trans s1 s2 s3 id : kept s1 s2 id -> kept s2 s3 id -> kept s1 s3 id.
Proof.
  unfold kept. intros (A1 & A2 & A3 & A4 & A5 & A6 & A7)
    (B1 & B2 & B3 & B4 & B5 & B6 & B7).
  repeat split; try congruence; try lia; auto.
Qed.

Lemma kept_same_requests s s' id :
  requiredGuardians s' = requiredGuardians s ->
  recoveryCounter s <= recoveryCounter s' ->
  recovery s' id = recovery s id ->
  kept s s' id.
Proof.
  intros H1 H2 H3. unfold kept, hasConfirmedRecovery. rewrite H3.
  repeat split; auto; lia.
Qed.

Lemma kept_executeRecovery id0 s id : kept s (_executeRecovery id0 s) id.
Proof.
  destruct (decide (id0 = id)) as [<- | Hne].
  - unfold kept, hasConfirmedRecovery.
    replace (recovery (_executeRecovery id0 s) id0)
      with (mkRecovery (newOwner (recovery s id0))
              (confirmations (recovery s id0)) (confirmed (recovery s id0))
              (timestamp (recovery s id0)) true)
      by (unfold _executeRecovery, recovery; simpl;
          now rewrite lookup_insert_eq).
    simpl. repeat split; auto; lia.
  - apply kept_same_requests; [reflexivity | simpl; lia |].
    unfold _executeRecovery, recovery. simpl.
    now rewrite lookup_insert_ne.
Qed.

Lemma run_kept env a s s' id :
  run env a s = Ok s' -> initiated s id -> kept s s' id.
Proof.
  intros H Hin. unfold initiated in Hin. destruct a; simpl in H.
  - apply addGuardian_inv in H as (_ & _ & _ & _ & ->).
    apply kept_same_requests; simpl; [reflexivity | lia | reflexivity].
  - apply removeGuardian_inv in H as (_ & _ & _ & ->).
    apply kept_same_requests; simpl; [reflexivity | lia | reflexivity].
  - apply initiateRecovery_inv in H as (_ & _ & _ & ->).
    apply kept_same_requests; simpl; [reflexivity | lia |].
    unfold recovery. simpl. rewrite lookup_insert_ne by lia. reflexivity.
  - apply confirmRecovery_inv in H as (_ & _ & _ & _ & Hs').
    set (r := recovery s recoveryId) in *.
    set (r' := mkRecovery (newOwner r) (confirmations r + 1)
                 (<[msg_sender env := true]> (confirmed r)) (timestamp r)
                 (executed r)) in *.
    assert (H1 : kept s (set_recovery recoveryId r' s) id).
    { destruct (decide (recoveryId = id)) as [<- | Hne].
      - unfold kept, hasConfirmedRecovery.
        rewrite recovery_set_recovery_eq. fold r. simpl.
        repeat split; auto; try lia.
        intros g Hg. rewrite mget_bool_insert.
        now destruct (decide (msg_sender env = g)).
      - apply kept_same_requests; simpl; [reflexivity | lia |].
        now apply recovery_set_recovery_ne. }
    destruct Hs' as [-> | [_ ->]]; [exact H1 |].
    eapply kept_trans; [exact H1 | apply kept_executeRecovery].
  - apply executeRecovery_inv in H as (_ & _ & ->).
    apply kept_executeRecovery.
Qed.

Lemma steps_kept s s' id :
  steps s s' -> initiated s id -> kept s s' id /\ initiated s' id.
Proof.
  induction 1 as [| env a s s1 s2 Hrun _ IH]; intros Hin.
  - split; [apply kept_refl | exact Hin].
  - pose proof (run_kept _ _ _ _ _ Hrun Hin) as Hk.
    assert (Hin1 : initiated s1 id).
    { unfold initiated, kept in *. lia. }
    destruct (IH Hin1) as [Hk2 Hin2].
    split; [exact (kept_trans _ _ _ _ Hk Hk2) | exact Hin2].
Qed.

Lemma steps_trans s1 s2 s3 : steps s1 s2 -> steps s2 s3 -> steps s1 s3.
Proof.
  induction 1 as [| env a s s1 s2 Hrun _ IH]; [auto |].
  intros H3. eapply steps_next; [exact Hrun | auto].
Qed.

Lemma reachable_wf s :
  reachable s ->
  guardians_consistent s
  /\ requests_wf s /\ owner s <> 0 /\ 0 < requiredGuardians s.
Proof.
  intros (s0 & (o & gs & n & ep & Hc) & Hsteps). split.
  - exact (steps_consistent _ _ Hsteps (constructor_consistent _ _ _ _ _ Hc)).
  - exact (steps_wf _ _ Hsteps (constructor_wf _ _ _ _ _ Hc)).
Qed.

(** A stored request, and so every request with a new owner, a
    confirmation or the executed flag, is an initiated one. *)
Lemma stored_is_initiated s id :
  requests_wf s -> recovery s id <> Recovery_zero -> initiated s id.
Proof.
  intros [_ Hwf] Hne.
  destruct (decide (initiated s id)) as [Hin | Hni]; [exact Hin |].
  elim Hne. apply recovery_absent. now apply Hwf.
Qed.

Lemma confirmRecovery_reverts_confirmed env id s :
  hasConfirmedRecovery s id (msg_sender env) = true ->
  reverts (confirmRecovery env id s).
Proof.
  unfold hasConfirmedRecovery, confirmRecovery. intros Hc. unfold_result.
  destruct (isGuardian s (msg_sender env)); simpl; [| exact I].
  destruct (newOwner (recovery s id) =? 0); simpl; [exact I |].
  destruct (executed (recovery s id)); simpl; [exact I |].
  rewrite Hc. exact I.
Qed.

Lemma reverts_executed env id s :
  executed (recovery s id) = true ->
  reverts (executeRecovery env id s) /\ reverts (confirmRecovery env id s).
Proof.
  intros He. unfold executeRecovery, confirmRecovery. unfold_result. split.
  - destruct (requiredGuardians s <=? confirmations (recovery s id)); simpl;
      [| exact I].
    destruct (checked (timestamp (recovery s id) + RECOVERY_PERIOD));
      [| exact I].
    destruct (a <=? block_timestamp env); simpl; [| exact I].
    rewrite He. exact I.
  - destruct (isGuardian s (msg_sender env)); simpl; [| exact I].
    destruct (newOwner (recovery s id) =? 0); simpl; [exact I |].
    rewrite He. exact I.
Qed.

(** ** The properties *)

(** X1. Along every run from the constructor the guardian bookkeeping is
    consistent: [guardianCount] is the length of [guardianList], the list
    has no duplicate and holds exactly the addresses the [guardians] mapping
    flags, and [0 < requiredGuardians <= guardianCount]. *)
Theorem guardian_bookkeeping_is_consistent (s : State) :
  reachable s -> guardians_consistent s.
Proof. intros H. now apply reachable_wf in H. Qed.

(** X2. Along every run from the constructor the owner is never the zero
    address. *)
Theorem owner_is_never_zero (s : State) : reachable s -> owner s <> 0.
Proof. intros H. now apply reachable_wf in H. Qed.

(** X3. In every state of a run a request's [confirmations] is the number
    of distinct addresses that confirmed it. *)
Theorem confirmations_count_the_confirmers (s : State) (id : Z) :
  reachable s -> exists gs, confirmers s id gs.
Proof.
  intros H. apply reachable_wf in H as (_ & [_ Hwf] & _).
  unfold confirmers, hasConfirmedRecovery, mget_bool, recovery.
  destruct (recoveries s !! id) as [r |] eqn:Hr; simpl.
  - destruct (proj2 (Hwf id) r Hr) as (_ & Htrue & Hsize).
    exists (elements (dom (confirmed r))). split; [apply NoDup_elements |].
    split.
    + intros g. rewrite elem_of_elements, elem_of_dom.
      destruct (confirmed r !! g) as [b |] eqn:Hb; simpl.
      * rewrite (Htrue _ _ Hb). split; [eauto | reflexivity].
      * split; [discriminate | intros [? [=]]].
    + rewrite Hsize. f_equal. now rewrite <- size_dom.
  - exists []. split; [apply NoDup_nil_2 |]. split; [| reflexivity].
    intros g. rewrite lookup_empty. simpl. split; [discriminate | inversion 1].
Qed.

(** X4. A confirmation counts once: after an address has initiated or
    confirmed a request, its [confirmRecovery] on that request reverts in
    every later state of the run. *)
Theorem confirmation_counts_once
    (s s1 s2 : State) (env env' : Env) (id : Z) (o : address) :
  reachable s ->
  confirmRecovery env id s = Ok s1
  \/ (initiateRecovery env o s = Ok s1 /\ id = recoveryCounter s) ->
  steps s1 s2 ->
  msg_sender env' = msg_sender env ->
  reverts (confirmRecovery env' id s2).
Proof.
  intros Hr Hcall Hsteps Hsender.
  pose proof (reachable_wf _ Hr) as (_ & Hwf & _).
  assert (Hflag : hasConfirmedRecovery s1 id (msg_sender env) = true
                  /\ initiated s1 id).
  { destruct Hcall as [Hc | [Hi ->]].
    - assert (Hin : initiated s id).
      { apply confirmRecovery_inv in Hc as (_ & Hno & _).
        apply stored_is_initiated; [exact Hwf |].
        intros Hz. rewrite Hz in Hno. now elim Hno. }
      pose proof (run_kept env (ConfirmRecovery id) _ _ _ Hc Hin) as Hk.
      split; [| unfold initiated, kept in *; lia].
      apply confirmRecovery_inv in Hc as (_ & _ & _ & _ & Hs').
      assert (Hone : hasConfirmedRecovery
                       (set_recovery id
                          (mkRecovery (newOwner (recovery s id))
                             (confirmations (recovery s id) + 1)
                             (<[msg_sender env := true]>
                                (confirmed (recovery s id)))
                             (timestamp (recovery s id))
                             (executed (recovery s id))) s) id
                       (msg_sender env) = true).
      { unfold hasConfirmedRecovery. rewrite recovery_set_recovery_eq. simpl.
        rewrite mget_bool_insert. now destruct (decide _). }
      destruct Hs' as [-> | [_ ->]]; [exact Hone |].
      now apply kept_executeRecovery.
    - apply initiateRecovery_inv in Hi as (_ & _ & _ & ->).
      destruct Hwf as [Hc _]. split; [| unfold initiated; simpl; lia].
      unfold hasConfirmedRecovery, recovery. simpl.
      rewrite lookup_insert_eq. simpl. rewrite mget_bool_insert.
      now destruct (decide _). }
  destruct Hflag as [Hflag Hin].
  destruct (steps_kept _ _ _ Hsteps Hin) as [Hk _].
  apply confirmRecovery_reverts_confirmed. rewrite Hsender.
  now apply Hk.
Qed.

(** X5. An executed recovery is final: once [executeRecovery] has
    succeeded on a request, [executeRecovery] and [confirmRecovery] on it
    revert in every later state of the run, whoever calls and whenever. *)
Theorem executed_recovery_is_final
    (s s1 s2 : State) (env env' : Env) (id : Z) :
  reachable s ->
  executeRecovery env id s = Ok s1 ->
  steps s1 s2 ->
  reverts (executeRecovery env' id s2) /\ reverts (confirmRecovery env' id s2).
Proof.
  intros Hr Hex Hsteps.
  pose proof (reachable_wf _ Hr) as (_ & Hwf & _ & Hreq).
  assert (Hin : initiated s id).
  { apply executeRecovery_inv in Hex as (Hc & _).
    apply stored_is_initiated; [exact Hwf |].
    intros Hz. rewrite Hz in Hc. simpl in Hc. lia. }
  pose proof (run_kept env (ExecuteRecovery id) _ _ _ Hex Hin) as Hk.
  assert (Hin1 : initiated s1 id) by (unfold initiated, kept in *; lia).
  apply executeRecovery_inv in Hex as (_ & _ & ->).
  destruct (steps_kept _ _ _ Hsteps Hin1) as [Hk2 _].
  apply reverts_executed. apply Hk2, executed_executeRecovery.
Qed.

(** X6. No call cancels or delays a pending recovery: a request that is
    ready (enough confirmations, delay elapsed, not executed) is, in every
    later state of the run and at every later time, either executed already
    or still executable, and executing it hands the account to the new owner
    it named.  Removing the guardians who confirmed does not take their
    confirmations back. *)
Theorem pending_recovery_cannot_be_cancelled
    (s s' : State) (env env' : Env) (id : Z) :
  initiated s id ->
  is_uint256 (timestamp (recovery s id)) ->
  recovery_ready env s id ->
  steps s s' ->
  block_timestamp env <= block_timestamp env' ->
  is_uint256 (block_timestamp env') ->
  executed (recovery s' id) = true
  \/ exists s'',
       executeRecovery env' id s' = Ok s''
       /\ owner s'' = newOwner (recovery s id).
Proof.
  intros Hin Hts (Hc & Hd & He) Hsteps Hlater Hnow.
  destruct (steps_kept _ _ _ Hsteps Hin)
    as [(K1 & K2 & K3 & K4 & K5 & K6 & K7) _].
  destruct (executed (recovery s' id)) eqn:He'; [now left | right].
  exists (_executeRecovery id s'). split.
  - apply executeRecovery_ready; [now rewrite K4 | exact Hnow |].
    unfold recovery_ready. rewrite K1, K4. repeat split; [lia | lia | exact He'].
  - now rewrite owner_executeRecovery.
Qed.

(** X7. [removeGuardian] takes exactly the named guardian out: the
    guardian list loses one entry, that guardian, and keeps every other one
    (in some order); the mapping no longer flags it and the count drops by
    one. *)
Theorem removeGuardian_takes_out_one
    (env : Env) (g : address) (s s' : State) :
  guardians_consistent s ->
  removeGuardian env g s = Ok s' ->
  g :: SmartAccountViews.getGuardians s' ≡ₚ SmartAccountViews.getGuardians s
  /\ isGuardian s' g = false
  /\ (forall a, a <> g -> isGuardian s' a = isGuardian s a)
  /\ guardianCount s' = guardianCount s - 1.
Proof.
  intros (_ & _ & Hmap & _) H.
  apply removeGuardian_inv in H as (_ & Hg & _ & ->).
  unfold SmartAccountViews.getGuardians, isGuardian in *. simpl.
  split; [apply swap_pop_perm; now apply Hmap |].
  split; [rewrite mget_bool_insert; now destruct (decide _) |].
  split; [| reflexivity].
  intros a Hne. rewrite mget_bool_insert.
  destruct (decide (g = a)); [congruence | reflexivity].
Qed.

(** ** Concrete runs *)

(** One call of a concrete run, evaluated. *)
Ltac run_call e act :=
  eapply steps_next with (env := e) (a := act);
  [vm_compute; reflexivity |].

Ltac from_constructor :=
  exists scenario_deployed; split;
  [exists 100, [1; 2; 3], 2, 999; vm_compute; reflexivity |].

Ltac to_scenario_state :=
  from_constructor;
  run_call (mkEnv 1 1000) (InitiateRecovery 50);
  run_call (mkEnv 2 2000) (ConfirmRecovery 0).

Lemma guardian_bookkeeping_is_consistent_witness :
  guardians_consistent scenario_removed3.
Proof.
  apply (guardian_bookkeeping_is_consistent scenario_removed3).
  to_scenario_state.
  run_call (mkEnv 100 3000) (RemoveGuardian 3).
  apply steps_refl.
Defined.

Lemma owner_is_never_zero_witness : owner scenario_recovered <> 0.
Proof.
  apply (owner_is_never_zero scenario_recovered).
  to_scenario_state.
  run_call (mkEnv 7 (1000 + 172800)) (ExecuteRecovery 0).
  apply steps_refl.
Defined.

Lemma confirmations_count_the_confirmers_witness :
  exists gs, confirmers scenario_state 0 gs.
Proof.
  apply (confirmations_count_the_confirmers scenario_state 0).
  to_scenario_state. apply steps_refl.
Defined.

Lemma confirmation_counts_once_witness :
  reverts (confirmRecovery (mkEnv 2 5000) 0 scenario_removed3).
Proof.
  apply (confirmation_counts_once scenario_initiated scenario_state
           scenario_removed3 (mkEnv 2 2000) (mkEnv 2 5000) 0 0).
  - from_constructor.
    run_call (mkEnv 1 1000) (InitiateRecovery 50). apply steps_refl.
  - left. vm_compute. reflexivity.
  - run_call (mkEnv 100 3000) (RemoveGuardian 3). apply steps_refl.
  - reflexivity.
Defined.

Lemma executed_recovery_is_final_witness :
  reverts (executeRecovery (mkEnv 3 900000) 0 scenario_recovered)
  /\ reverts (confirmRecovery (mkEnv 3 900000) 0 scenario_recovered).
Proof.
  apply (executed_recovery_is_final scenario_state scenario_recovered
           scenario_recovered (mkEnv 7 (1000 + 172800))).
  - to_scenario_state. apply steps_refl.
  - vm_compute. reflexivity.
  - apply steps_refl.
Defined.

Lemma pending_recovery_cannot_be_cancelled_witness :
  executed (recovery scenario_removed2 0) = true
  \/ exists s'',
       executeRecovery (mkEnv 7 900000) 0 scenario_removed2 = Ok s''
       /\ owner s'' = newOwner (recovery scenario_state 0).
Proof.
  apply (pending_recovery_cannot_be_cancelled scenario_state scenario_removed2
           (mkEnv 7 (1000 + 172800)) (mkEnv 7 900000) 0).
  - vm_compute. split; [discriminate | reflexivity].
  - vm_compute. split; discriminate.
  - vm_compute. split; [discriminate |]. split; [discriminate | reflexivity].
  - run_call (mkEnv 100 3000) (RemoveGuardian 2). apply steps_refl.
  - vm_compute. discriminate.
  - vm_compute. split; discriminate.
Defined.

Lemma removeGuardian_takes_out_one_witness :
  2 :: SmartAccountViews.getGuardians scenario_removed2
  ≡ₚ SmartAccountViews.getGuardians scenario_state
  /\ isGuardian scenario_removed2 2 = false
  /\ (forall a, a <> 2 -> isGuardian scenario_removed2 a
                         = isGuardian scenario_state a)
  /\ guardianCount scenario_removed2 = guardianCount scenario_state - 1.
Proof.
  apply (removeGuardian_takes_out_one (mkEnv 100 3000) 2 scenario_state
           scenario_removed2).
  - apply reachable_wf. to_scenario_state. apply steps_refl.
  - vm_compute. reflexivity.
Defined.

End SmartAccountRuns.

(* ===================================================================== *)
(** * SmartAccount: token payment and user operations *)
(* ===================================================================== *)

Module SmartAccountCalls.
Import SmartAccount SmartAccountGas SmartAccountERC4337 SmartAccountSpec.
Import SmartAccountFacts SolFacts ERC20 ERC20Facts LedgerFacts.

(** X8. [payGasWithToken] succeeds exactly when the caller is the owner,
    token and recipient are not the zero address, the amount is positive and
    the account holds that much of the token; it then moves exactly [amount]
    of the token from the account to the recipient, touches no other
    balance, logs [GasPaymentExecuted] and leaves the account's storage as it
    was. *)
Theorem payGasWithToken_moves_the_amount
    (env : Env) (this token amount recipient : Z) (s : State) (l : Ledger) :
  (succeeds (payGasWithToken env this token amount recipient (s, l))
   <-> msg_sender env = owner s /\ token <> 0 /\ recipient <> 0
       /\ 0 < amount /\ this <> 0 /\ amount <= balanceOf l token this)
  /\ forall s' l',
      payGasWithToken env this token amount recipient (s, l) = Ok (s', l') ->
      s' = emit (GasPaymentExecuted token amount) s
      /\ forall t h,
          balanceOf l' t h
          = balanceOf l t h
            + (if t =? token
               then (if h =? recipient then amount else 0)
                    - (if h =? this then amount else 0)
               else 0).
Proof.
  unfold payGasWithToken, transfer, onlyOwner. simpl.
  unfold mbind, result_bind, require. split.
  - destruct (Z.eqb_spec (msg_sender env) (owner s)); simpl;
      [| split; [intros [] | tauto]].
    destruct (Z.eqb_spec token 0); simpl; [split; [intros [] | tauto] |].
    destruct (Z.eqb_spec recipient 0) as [| Hrcp]; simpl;
      [split; [intros [] | tauto] |].
    destruct (Z.ltb_spec 0 amount); simpl; [| split; [intros [] | lia]].
    destruct (_transfer token this recipient amount l) as [l' |] eqn:Ht; simpl.
    + apply _transfer_inv in Ht as (? & ? & ? & _). tauto.
    + split; [intros [] |]. intros (_ & _ & _ & _ & Hthis & Hbal).
      destruct (_transfer_ok token this recipient amount l Hthis Hrcp Hbal)
        as [l' Hl']. congruence.
  - intros s' l'.
    destruct (msg_sender env =? owner s); simpl; [| discriminate].
    destruct (token =? 0); simpl; [discriminate |].
    destruct (recipient =? 0); simpl; [discriminate |].
    destruct (0 <? amount); simpl; [| discriminate].
    destruct (_transfer token this recipient amount l) as [l1 |] eqn:Ht;
      simpl; [| discriminate].
    intros [= <- <-]. split; [reflexivity |].
    now apply _transfer_inv in Ht.
Qed.

Section UserOperations.

Variable World : Type.
Variable toEthSignedMessageHash : Z -> Z.
Variable recover : Z -> bytes -> result address.
Variable call : address -> Z -> bytes -> Account * World -> Outcome World.

#[local] Abbreviation validateUserOp :=
  (validateUserOp World toEthSignedMessageHash recover call).

(** X9. A successful [validateUserOp] without prefund was called by the
    entry point with the account's current nonce; it answers 0 exactly when
    the signature recovers to the owner and 1 otherwise, and in both cases
    it raises the nonce by one and changes nothing else.  The same user
    operation is then refused: every later [validateUserOp] of it on the
    resulting state reverts. *)
Theorem validateUserOp_accepts_the_owner_once
    (env : Env) (userOp : UserOperation) (userOpHash : Z)
    (c c' : Account * World) (validationData : Z) :
  validateUserOp env userOp userOpHash 0 c = Ok (validationData, c') ->
  msg_sender env = entryPoint (base (fst c))
  /\ nonce userOp = getNonce (fst c)
  /\ (validationData = 0
      <-> recover (toEthSignedMessageHash userOpHash) (signature userOp)
          = Ok (owner (base (fst c))))
  /\ (validationData = 0 \/ validationData = 1)
  /\ c' = (mkAccount (base (fst c)) (getNonce (fst c) + 1), snd c)
  /\ forall env' userOpHash' missingAccountFunds,
      reverts (validateUserOp env' userOp userOpHash' missingAccountFunds c').
Proof.
  unfold SmartAccountERC4337.validateUserOp, onlyEntryPoint,
    _validateSignature, getNonce.
  intros H. unfold mbind, result_bind, require, add in H.
  destruct (Z.eqb_spec (msg_sender env) (entryPoint (base (fst c))));
    simpl in H; [| discriminate].
  destruct (Z.eqb_spec (nonce userOp) (_nonce (fst c))) as [Hn |];
    simpl in H; [| discriminate].
  destruct (recover (toEthSignedMessageHash userOpHash) (signature userOp))
    as [signer |] eqn:Hrec; simpl in H; [| discriminate].
  assert (Hv : exists v,
             (if signer =? owner (base (fst c)) then Ok 0 else Ok 1) = Ok v
             /\ (v = 0 <-> signer = owner (base (fst c)))
             /\ (v = 0 \/ v = 1)).
  { destruct (Z.eqb_spec signer (owner (base (fst c)))); eexists;
      (split; [reflexivity |]); split; auto; split; congruence. }
  destruct Hv as (v & Hv & Hiff & Hrange). rewrite Hv in H. simpl in H.
  destruct (checked (_nonce (fst c) + 1)) as [n' |] eqn:Hc; [| discriminate].
  apply checked_inv in Hc as [-> _]. simpl in H. injection H as <- <-.
  repeat split; try assumption.
  - intros ->. f_equal. now apply Hiff.
  - intros [= ->]. now apply Hiff.
  - intros env' hash' funds. simpl.
    destruct (msg_sender env' =? entryPoint (base (fst c))); simpl;
      [| exact I].
    destruct (Z.eqb_spec (nonce userOp) (_nonce (fst c) + 1)); simpl;
      [lia | exact I].
Qed.

End UserOperations.

(** The account of the test-suite called by its entry point (address 999)
    with a signature of the owner, and then once more. *)
Lemma validateUserOp_accepts_the_owner_once_witness :
  reverts
    (validateUserOp unit (fun h => h) (fun _ _ => Ok 100)
       (fun _ _ _ c => Done c) (mkEnv 999 6000)
       (mkUserOperation 1 0 [] [] 0 0 0 0 0 [] []) 7 0
       (mkAccount SmartAccountSteps.scenario_deployed 1, tt)).
Proof.
  refine (proj2 (proj2 (proj2 (proj2 (proj2
    (validateUserOp_accepts_the_owner_once unit (fun h => h)
       (fun _ _ => Ok 100) (fun _ _ _ c => Done c) (mkEnv 999 5000)
       (mkUserOperation 1 0 [] [] 0 0 0 0 0 [] []) 7
       (mkAccount SmartAccountSteps.scenario_deployed 0, tt)
       (mkAccount SmartAccountSteps.scenario_deployed 1, tt) 0 _)))))
    (mkEnv 999 6000) 7 0).
  vm_compute. reflexivity.
Defined.

End SmartAccountCalls.
(* ===================================================================== *)
(** * OmniFlowSmartAggregator: configuration, direct routes and the log *)
(* ===================================================================== *)

Module AggregatorRuns.
Import ERC20 ERC20Facts LedgerFacts OmniFlowSmartAggregator AggregatorSpec.
Import AggregatorCalls AggregatorFacts SolFacts.

(** Peel the first [match] of a hypothesis that computes in the error
    monad. *)
Ltac peel H :=
  match type of H with
  | context [match ?x with _ => _ end] =>
      match x with
      | context [match _ with _ => _ end] => fail 1
      | _ => destruct x eqn:?; simpl in H; try discriminate H
      end
  end.

Ltac unfold_monad :=
  unfold mbind, result_bind, mret, result_ret, fmap, result_fmap, require,
    add, sub, mul, div in *.

(** ** The guard is released as it was taken *)

Lemma storage_unlocked c c' :
  entered (storage c) = false ->
  storage c' = storage (set_entered true c) ->
  storage (set_entered false c') = storage c.
Proof.
  unfold set_entered. simpl. intros He ->. simpl.
  destruct (storage c). simpl in *. now subst.
Qed.

Section Outside.

Variable bridge_call : address -> Z -> bytes -> Ledger -> option Ledger.
Variable abi_encodeWithSignature : string -> list AbiArg -> bytes.
Variable native_transfer : address -> Z -> bool.

#[local] Abbreviation run :=
  (run bridge_call abi_encodeWithSignature native_transfer).
#[local] Abbreviation runs :=
  (runs bridge_call abi_encodeWithSignature native_transfer).
#[local] Abbreviation executeAggregatedRoute :=
  (executeAggregatedRoute bridge_call).
#[local] Abbreviation executeLiFiRoute := (executeLiFiRoute bridge_call).
#[local] Abbreviation executeAcrossV3Route :=
  (executeAcrossV3Route bridge_call abi_encodeWithSignature).
#[local] Abbreviation split_loop := (split_loop bridge_call).
#[local] Abbreviation low_level_call := (low_level_call bridge_call).
#[local] Abbreviation run_strategy := (run_strategy bridge_call).
#[local] Abbreviation _executeSingleRoute := (_executeSingleRoute bridge_call).
#[local] Abbreviation _executeSplitRoute := (_executeSplitRoute bridge_call).

(** ** The bridge execution: storage, log and amounts *)

Lemma low_level_call_frame r c :
  storage (snd (low_level_call r c)) = storage c
  /\ events (snd (low_level_call r c)) = events c.
Proof.
  unfold OmniFlowSmartAggregator.low_level_call.
  destruct (bridge_call _ _ _ _); auto.
Qed.

Lemma split_loop_spec env sourceToken rs total used ok c b c' :
  split_loop env sourceToken rs total used ok c = Ok (b, c') ->
  storage c' = storage c
  /\ (used <= total -> used + total_of_amounts rs <= total)
  /\ exists flags,
      length flags = length rs
      /\ b = ok && forallb id flags
      /\ events c'
         = events c
           ++ zip_with
                (fun r f =>
                   ProtocolRouteExecuted (msg_sender env) (protocol r)
                     (amount r) f)
                rs flags.
Proof.
  revert used ok c. induction rs as [| route rest IH]; intros used ok c H;
    simpl in H.
  - injection H as <- <-. split; [reflexivity |].
    split; [unfold total_of_amounts; simpl; lia |].
    exists []. simpl. now rewrite andb_true_r, app_nil_r.
  - unfold_monad.
    destruct (mget_bool (trustedBridges (storage c)) (bridge route));
      simpl in H; [| discriminate].
    destruct (0 <? Z.of_nat (length (callData route))); simpl in H;
      [| discriminate].
    destruct (checked (used + amount route)) as [u |] eqn:Hu;
      [| discriminate].
    apply checked_inv in Hu as [-> _].
    destruct (Z.leb_spec (used + amount route) total); simpl in H;
      [| discriminate].
    destruct (forceApprove sourceToken (this env) (bridge route)
                (amount route) (ledger c)) as [l1 |]; [| discriminate].
    destruct (low_level_call_frame route (set_ledger l1 c)) as [Hst Hev].
    destruct (low_level_call route (set_ledger l1 c)) as [success c2].
    simpl in Hst, Hev.
    apply IH in H as (Hst' & Hsum & flags & Hlen & Hb & Hev').
    simpl in Hst', Hev'.
    split; [congruence |].
    split; [intros _; unfold total_of_amounts in *; simpl; lia |].
    exists (success :: flags). simpl.
    split; [now rewrite Hlen |].
    split; [now rewrite Hb, andb_assoc |].
    rewrite Hev', Hev. now rewrite <- app_assoc.
Qed.

Lemma single_route_spec env sourceToken route net c b c' :
  _executeSingleRoute env sourceToken route net c = Ok (b, c') ->
  storage c' = storage c
  /\ events c'
     = events c ++ [ProtocolRouteExecuted (msg_sender env) (protocol route)
                      net b].
Proof.
  unfold OmniFlowSmartAggregator._executeSingleRoute. intros H. unfold_monad.
  destruct (mget_bool (trustedBridges (storage c)) (bridge route));
    simpl in H; [| discriminate].
  destruct (0 <? Z.of_nat (length (callData route))); simpl in H;
    [| discriminate].
  destruct (forceApprove sourceToken (this env) (bridge route) net (ledger c))
    as [l1 |]; [| discriminate].
  destruct (low_level_call_frame route (set_ledger l1 c)) as [Hst Hev].
  destruct (low_level_call route (set_ledger l1 c)) as [success c2].
  simpl in Hst, Hev. injection H as <- <-. simpl. now rewrite Hev.
Qed.

Lemma run_strategy_spec env sourceToken strategy net c2 b c3 :
  run_strategy env sourceToken strategy net c2 = Ok (b, c3) ->
  storage c3 = storage c2
  /\ (same_string (strategyType strategy) "single-route" = false ->
      0 <= net -> total_of_amounts (routes strategy) <= net)
  /\ exists flags,
      length flags = length (executed_routes strategy)
      /\ b = forallb id flags
      /\ events c3
         = events c2 ++ route_events env strategy net flags
           ++ split_event env strategy.
Proof.
  unfold AggregatorSpec.run_strategy, executed_routes, route_events,
    split_event, logged_amount, executed_routes.
  destruct (same_string (strategyType strategy) "single-route") eqn:Hsingle.
  - destruct (routes strategy) as [| route0 rest]; [discriminate |].
    intros H. apply single_route_spec in H as [Hst Hev].
    split; [exact Hst |]. split; [discriminate |].
    exists [b]. change (take 1 (route0 :: rest)) with [route0]. simpl.
    rewrite andb_true_r. auto.
  - destruct (same_string (strategyType strategy) "split-route");
      [| discriminate].
    unfold OmniFlowSmartAggregator._executeSplitRoute. intros H.
    unfold_monad.
    destruct (2 <=? Z.of_nat (length (routes strategy))); simpl in H;
      [| discriminate].
    destruct (split_loop env sourceToken (routes strategy) net 0 true c2)
      as [[allSuccess c1] |] eqn:Hloop; simpl in H; [| discriminate].
    apply split_loop_spec in Hloop as (Hst & Hsum & flags & Hlen & Hb & Hev).
    injection H as <- <-.
    split.
    { destruct (routes strategy) as [| r0 [| r1 [| r2 rest]]]; simpl;
        exact Hst. }
    split; [intros _ Hnet; specialize (Hsum Hnet); lia |].
    exists flags. split; [exact Hlen |]. split; [exact Hb |].
    destruct (routes strategy) as [| r0 [| r1 [| r2 rest]]]; simpl in *;
      rewrite Hev; try rewrite app_nil_r; try reflexivity.
    now rewrite <- app_assoc.
Qed.

Lemma collect_unlocked env sourceToken strategy c fee net c2 :
  collect env sourceToken strategy c = Ok (fee, net, c2) ->
  entered (storage c) = false.
Proof.
  unfold collect. unfold_monad.
  destruct (entered (storage c)); simpl; [discriminate | reflexivity].
Qed.

Lemma settle_inv env sourceToken strategy net success c3 b c' :
  settle env sourceToken strategy net success c3 = Ok (b, c') ->
  b = success
  /\ storage c' = storage (set_entered false c3)
  /\ events c' = events c3 ++ [final_event env strategy success].
Proof.
  unfold settle. intros H. unfold_monad.
  match type of H with
  | context [match ?x with _ => _ end] => destruct x; [| discriminate]
  end.
  injection H as <- <-. auto.
Qed.

Lemma executeAggregatedRoute_spec env sourceToken strategy c b c' :
  executeAggregatedRoute env sourceToken strategy c = Ok (b, c') ->
  let fee := totalAmount strategy * protocolFeeBps (storage c) / 10000 in
  let net := totalAmount strategy - fee in
  storage c' = storage c
  /\ 0 <= fee /\ 0 <= net
  /\ (same_string (strategyType strategy) "single-route" = false ->
      total_of_amounts (routes strategy) <= net)
  /\ exists flags,
      length flags = length (executed_routes strategy)
      /\ b = forallb id flags
      /\ events c'
         = events c ++ route_events env strategy net flags
           ++ split_event env strategy ++ [final_event env strategy b].
Proof.
  rewrite executeAggregatedRoute_phases. intros H. unfold_monad.
  destruct (collect env sourceToken strategy c) as [[[fee net] c2] |] eqn:Hc;
    [| discriminate].
  destruct (run_strategy env sourceToken strategy net c2) as [[s c3] |]
    eqn:Hr; [| discriminate].
  pose proof (collect_unlocked _ _ _ _ _ _ _ Hc) as Hun.
  apply collect_inv in Hc
    as (-> & -> & Hfee0 & Hnet0 & _ & _ & _ & Hst2 & Hev2 & _).
  apply run_strategy_spec in Hr as (Hst3 & Hsum & flags & Hlen & Hb & Hev3).
  apply settle_inv in H as (-> & Hst & Hev).
  split.
  { rewrite Hst. apply storage_unlocked; [exact Hun | congruence]. }
  split; [exact Hfee0 |]. split; [exact Hnet0 |].
  split; [intros Hs; now apply Hsum |].
  exists flags. split; [exact Hlen |]. split; [exact Hb |].
  rewrite Hev, Hev3, Hev2. now rewrite <- !app_assoc.
Qed.

(** ** Direct routes *)

Lemma safeTransfer_inv token sender to value l l' :
  safeTransfer token sender to value l = Ok l' ->
  allowances l' = allowances l
  /\ forall t h,
      balanceOf l' t h
      = balanceOf l t h
        + (if t =? token
           then (if h =? to then value else 0)
                - (if h =? sender then value else 0)
           else 0).
Proof.
  unfold safeTransfer. intros H. split.
  - exact (_transfer_allowance _ _ _ _ _ _ H).
  - now apply _transfer_inv in H.
Qed.

Lemma executeLiFiRoute_spec env msg_value sourceToken amount' data c b c' :
  executeLiFiRoute env msg_value sourceToken amount' data c = Ok (b, c') ->
  let st := storage c in
  let fee := amount' * protocolFeeBps st / 10000 in
  let net := amount' - fee in
  storage c' = st
  /\ events c'
     = events c ++ [ProtocolRouteExecuted (msg_sender env) "LiFi" amount' b]
  /\ 0 < amount' /\ 0 <= fee /\ 0 <= net
  /\ exists l3,
      (forall t h,
          balanceOf l3 t h
          = balanceOf (ledger c) t h
            + (if t =? sourceToken
               then (if h =? this env then net else 0)
                    - (if h =? msg_sender env then amount' else 0)
                    + (if h =? feeRecipient st then fee else 0)
               else 0))
      /\ allowance l3 sourceToken (this env) (lifiDiamond st) = net
      /\ if b
         then bridge_call (lifiDiamond st) msg_value data l3
              = Some (ledger c')
         else bridge_call (lifiDiamond st) msg_value data l3 = None
              /\ allowance (ledger c') sourceToken (this env) (lifiDiamond st)
                 = net
              /\ forall t h,
                  balanceOf (ledger c') t h
                  = balanceOf l3 t h
                    + (if t =? sourceToken
                       then (if h =? msg_sender env then net else 0)
                            - (if h =? this env then net else 0)
                       else 0).
Proof.
  unfold OmniFlowSmartAggregator.executeLiFiRoute, call_bridge.
  intros H. unfold_monad.
  destruct (entered (storage c)) eqn:Hun; simpl in H; [discriminate |].
  repeat peel H.
  all: injection H as <- <-.
  all: repeat match goal with
    | Hc : checked _ = Ok _ |- _ => apply checked_inv in Hc as [-> ?]
    | Ht : safeTransferFrom _ _ _ _ _ _ = Ok _ |- _ =>
        apply safeTransferFrom_inv in Ht as (? & ? & ? & ?)
    | Ht : safeTransfer _ _ _ _ _ = Ok _ |- _ =>
        apply safeTransfer_inv in Ht as (? & ?)
    | Ha : forceApprove _ _ _ _ _ = Ok _ |- _ =>
        apply forceApprove_inv in Ha as (? & ? & ->)
    | Hz : (0 <? _) = true |- _ => apply Z.ltb_lt in Hz
    | Hz : (0 <? _) = false |- _ => apply Z.ltb_ge in Hz
    end.
  all: assert (Hfee0 : 0 <= amount' * protocolFeeBps (storage c) / 10000)
    by (apply Z.div_pos; unfold is_uint256 in *; lia).
  all: split; [apply (storage_unlocked c); [exact Hun | reflexivity] |].
  all: split; [reflexivity |].
  all: split; [assumption |].
  all: split; [exact Hfee0 |].
  all: split; [unfold is_uint256 in *; lia |].
  all: match goal with
    | Hb : bridge_call _ _ _ ?l3 = _ |- _ => exists l3
    end.
  all: split;
    [ intros t h; rewrite balanceOf_set_allowance;
      repeat match goal with
        | Hbal : forall t h, balanceOf _ t h = _ |- _ =>
            rewrite Hbal; clear Hbal
        end;
      destruct (t =? sourceToken), (h =? this env), (h =? msg_sender env),
        (h =? feeRecipient (storage c)); lia
    | ].
  all: split; [apply allowance_set_allowance |].
  all: simpl; try assumption.
  all: split; [assumption |].
  all: split;
    [ unfold allowance;
      match goal with Ha : allowances _ = allowances _ |- _ => rewrite Ha end;
      apply allowance_set_allowance
    | match goal with
      | Hbal : forall t h, balanceOf ?l t h = _ |- forall t h, balanceOf ?l t h = _ =>
          exact Hbal
      end ].
Qed.

Lemma executeAcrossV3Route_spec env msg_value sourceChainId inputToken
    outputToken inputAmount outputAmount destinationChainId recipient
    exclusiveRelayer quoteTimestamp fillDeadline exclusivityDeadline c b c' :
  executeAcrossV3Route env msg_value sourceChainId inputToken outputToken
    inputAmount outputAmount destinationChainId recipient exclusiveRelayer
    quoteTimestamp fillDeadline exclusivityDeadline c = Ok (b, c') ->
  let st := storage c in
  let spokePool := default 0 (acrossSpokePools st !! sourceChainId) in
  let fee := inputAmount * protocolFeeBps st / 10000 in
  let net := inputAmount - fee in
  let netOutput := outputAmount - outputAmount * protocolFeeBps st / 10000 in
  let acrossCallData :=
    abi_encodeWithSignature depositV3_signature
      [ abi_address (this env); abi_address recipient;
        abi_address inputToken; abi_address outputToken;
        abi_uint256 net; abi_uint256 netOutput;
        abi_uint256 destinationChainId; abi_address exclusiveRelayer;
        abi_uint32 quoteTimestamp; abi_uint32 fillDeadline;
        abi_uint32 exclusivityDeadline; abi_bytes [] ] in
  spokePool <> 0
  /\ storage c' = st
  /\ events c'
     = events c
       ++ [ProtocolRouteExecuted (msg_sender env) "Across" inputAmount b]
  /\ 0 < inputAmount /\ 0 <= fee /\ 0 <= net /\ 0 <= netOutput
  /\ exists l3,
      (forall t h,
          balanceOf l3 t h
          = balanceOf (ledger c) t h
            + (if t =? inputToken
               then (if h =? this env then net else 0)
                    - (if h =? msg_sender env then inputAmount else 0)
                    + (if h =? feeRecipient st then fee else 0)
               else 0))
      /\ allowance l3 inputToken (this env) spokePool = net
      /\ if b
         then bridge_call spokePool msg_value acrossCallData l3
              = Some (ledger c')
         else bridge_call spokePool msg_value acrossCallData l3 = None
              /\ allowance (ledger c') inputToken (this env) spokePool = net
              /\ forall t h,
                  balanceOf (ledger c') t h
                  = balanceOf l3 t h
                    + (if t =? inputToken
                       then (if h =? msg_sender env then net else 0)
                            - (if h =? this env then net else 0)
                       else 0).
Proof.
  unfold OmniFlowSmartAggregator.executeAcrossV3Route, call_bridge.
  intros H. unfold_monad.
  destruct (fits_uint32 quoteTimestamp && fits_uint32 fillDeadline
            && fits_uint32 exclusivityDeadline); simpl in H;
    [| discriminate].
  destruct (entered (storage c)) eqn:Hun; simpl in H; [discriminate |].
  destruct (Z.eqb_spec (default 0 (acrossSpokePools (storage c)
                                     !! sourceChainId)) 0) as [| Hpool];
    simpl in H; [discriminate |].
  repeat peel H.
  all: injection H as <- <-.
  all: repeat match goal with
    | Hc : checked _ = Ok _ |- _ => apply checked_inv in Hc as [-> ?]
    | Ht : safeTransferFrom _ _ _ _ _ _ = Ok _ |- _ =>
        apply safeTransferFrom_inv in Ht as (? & ? & ? & ?)
    | Ht : safeTransfer _ _ _ _ _ = Ok _ |- _ =>
        apply safeTransfer_inv in Ht as (? & ?)
    | Ha : forceApprove _ _ _ _ _ = Ok _ |- _ =>
        apply forceApprove_inv in Ha as (? & ? & ->)
    | Hz : (0 <? _) = true |- _ => apply Z.ltb_lt in Hz
    | Hz : (0 <? _) = false |- _ => apply Z.ltb_ge in Hz
    end.
  all: assert (Hfee0 : 0 <= inputAmount * protocolFeeBps (storage c) / 10000)
    by (apply Z.div_pos; unfold is_uint256 in *; lia).
  all: split; [exact Hpool |].
  all: split; [apply (storage_unlocked c); [exact Hun | reflexivity] |].
  all: split; [reflexivity |].
  all: split; [assumption |].
  all: split; [exact Hfee0 |].
  all: split; [unfold is_uint256 in *; lia |].
  all: split; [unfold is_uint256 in *; lia |].
  all: match goal with
    | Hb : bridge_call _ _ _ ?l3 = _ |- _ => exists l3
    end.
  all: split;
    [ intros t h; rewrite balanceOf_set_allowance;
      repeat match goal with
        | Hbal : forall t h, balanceOf _ t h = _ |- _ =>
            rewrite Hbal; clear Hbal
        end;
      destruct (t =? inputToken), (h =? this env), (h =? msg_sender env),
        (h =? feeRecipient (storage c)); lia
    | ].
  all: split; [apply allowance_set_allowance |].
  all: simpl; try assumption.
  all: split; [assumption |].
  all: split;
    [ unfold allowance;
      match goal with Ha : allowances _ = allowances _ |- _ => rewrite Ha end;
      apply allowance_set_allowance
    | match goal with
      | Hbal : forall t h, balanceOf ?l t h = _
        |- forall t h, balanceOf ?l t h = _ => exact Hbal
      end ].
Qed.

(** A call with a [uint32] argument out of range does not return. *)
Lemma executeAcrossV3Route_uint32 env msg_value sourceChainId inputToken
    outputToken inputAmount outputAmount destinationChainId recipient
    exclusiveRelayer quoteTimestamp fillDeadline exclusivityDeadline c r :
  executeAcrossV3Route env msg_value sourceChainId inputToken outputToken
    inputAmount outputAmount destinationChainId recipient exclusiveRelayer
    quoteTimestamp fillDeadline exclusivityDeadline c = Ok r ->
  0 <= quoteTimestamp < 2 ^ 32
  /\ 0 <= fillDeadline < 2 ^ 32
  /\ 0 <= exclusivityDeadline < 2 ^ 32.
Proof.
  unfold OmniFlowSmartAggregator.executeAcrossV3Route. intros H.
  unfold_monad.
  destruct (fits_uint32 quoteTimestamp && fits_uint32 fillDeadline
            && fits_uint32 exclusivityDeadline) eqn:Hfit; simpl in H;
    [clear H | discriminate].
  unfold fits_uint32 in Hfit.
  repeat (apply andb_true_iff in Hfit as [Hfit ?]).
  repeat match goal with
         | Hz : (_ <=? _) = true |- _ => apply Z.leb_le in Hz
         | Hz : (_ <? _) = true |- _ => apply Z.ltb_lt in Hz
         end.
  lia.
Qed.

(** ** What a call does to the configuration *)

Lemma fmap_snd_inv {A B : Type} (m : result (A * B)) (b : B) :
  snd <$> m = Ok b -> exists a, m = Ok (a, b).
Proof.
  unfold fmap, result_fmap. destruct m as [[a b'] |]; [| discriminate].
  intros [= <-]. eauto.
Qed.

Lemma on_storage_inv f c c' :
  on_storage f c = Ok c' -> f (storage c) = Ok (storage c').
Proof.
  unfold on_storage. unfold_monad. destruct (f (storage c)); [| discriminate].
  now intros [= <-].
Qed.

Lemma onlyOwner_inv env st (A : Type) (k : result A) (a : A) :
  (onlyOwner env st;; k) = Ok a -> msg_sender env = owner st /\ k = Ok a.
Proof.
  unfold onlyOwner. unfold_monad.
  destruct (Z.eqb_spec (msg_sender env) (owner st)); simpl; [auto |].
  discriminate.
Qed.

(** The functions that move tokens leave the configuration alone. *)
Lemma run_moves_keep_storage env call c c' :
  run env call c = Ok c' ->
  match call with
  | EmergencyWithdraw _ _ | ExecuteAggregatedRoute _ _
  | ExecuteLiFiRoute _ _ _ _
  | ExecuteAcrossV3Route _ _ _ _ _ _ _ _ _ _ _ _ => storage c' = storage c
  | _ => True
  end.
Proof.
  destruct call; simpl; try exact (fun _ => I); intros H.
  - unfold emergencyWithdraw in H. apply onlyOwner_inv in H as [_ H].
    unfold_monad. repeat peel H; now injection H as <-.
  - apply fmap_snd_inv in H as [b H].
    now apply executeAggregatedRoute_spec in H.
  - apply fmap_snd_inv in H as [b H]. now apply executeLiFiRoute_spec in H.
  - apply fmap_snd_inv in H as [b H].
    now apply executeAcrossV3Route_spec in H.
Qed.

(** The functions that write the configuration are the owner's. *)
Lemma run_setter env call c c' :
  run env call c = Ok c' ->
  match call with
  | SetLiFiDiamond a =>
      msg_sender env = owner (storage c) /\ a <> 0
      /\ storage c'
         = with_trustedBridges (<[a := true]> (trustedBridges (storage c)))
             (with_lifiDiamond a (storage c))
  | SetAcrossSpokePool chainId pool =>
      msg_sender env = owner (storage c) /\ pool <> 0 /\ 0 < chainId
      /\ storage c'
         = with_supportedChains
             (<[chainId := true]> (supportedChains (storage c)))
             (with_trustedBridges
                (<[pool := true]> (trustedBridges (storage c)))
                (with_acrossSpokePools
                   (<[chainId := pool]> (acrossSpokePools (storage c)))
                   (storage c)))
  | SetTrustedBridge b t =>
      msg_sender env = owner (storage c) /\ b <> 0
      /\ storage c'
         = with_trustedBridges (<[b := t]> (trustedBridges (storage c)))
             (storage c)
  | SetProtocolFee feeBps =>
      msg_sender env = owner (storage c) /\ feeBps <= 100
      /\ storage c' = with_protocolFeeBps feeBps (storage c)
  | SetFeeRecipient a =>
      msg_sender env = owner (storage c) /\ a <> 0
      /\ storage c' = with_feeRecipient a (storage c)
  | SetMinGlobalSecurityScore score =>
      msg_sender env = owner (storage c) /\ 50 <= score <= 100
      /\ storage c' = with_minGlobalSecurityScore score (storage c)
  | SetMaxFeePercentage percentage =>
      msg_sender env = owner (storage c) /\ percentage <= 500
      /\ storage c' = with_maxFeePercentage percentage (storage c)
  | SetMinAmountForSplit amount' =>
      msg_sender env = owner (storage c) /\ 0 < amount'
      /\ storage c' = with_minAmountForSplit amount' (storage c)
  | EmergencyWithdraw _ _ => msg_sender env = owner (storage c)
  | _ => True
  end.
Proof.
  destruct call; simpl; try exact (fun _ => I); intros H.
  1-8: apply on_storage_inv in H.
  - unfold setLiFiDiamond in H. apply onlyOwner_inv in H as [Ho H].
    unfold_monad. destruct (Z.eqb_spec _lifiDiamond 0); simpl in H;
      [discriminate |]. now injection H as <-.
  - unfold setAcrossSpokePool in H. apply onlyOwner_inv in H as [Ho H].
    unfold_monad. destruct (Z.eqb_spec spokePool 0); simpl in H;
      [discriminate |].
    destruct (Z.ltb_spec 0 chainId); simpl in H; [| discriminate].
    now injection H as <-.
  - unfold setTrustedBridge in H. apply onlyOwner_inv in H as [Ho H].
    unfold_monad. destruct (Z.eqb_spec bridge' 0); simpl in H;
      [discriminate |]. now injection H as <-.
  - unfold setProtocolFee in H. apply onlyOwner_inv in H as [Ho H].
    unfold_monad. destruct (Z.leb_spec feeBps 100); simpl in H;
      [| discriminate]. now injection H as <-.
  - unfold setFeeRecipient in H. apply onlyOwner_inv in H as [Ho H].
    unfold_monad. destruct (Z.eqb_spec _feeRecipient 0); simpl in H;
      [discriminate |]. now injection H as <-.
  - unfold setMinGlobalSecurityScore in H. apply onlyOwner_inv in H as [Ho H].
    unfold_monad. destruct (Z.leb_spec score 100); simpl in H;
      [| discriminate].
    destruct (Z.leb_spec 50 score); simpl in H; [| discriminate].
    now injection H as <-.
  - unfold setMaxFeePercentage in H. apply onlyOwner_inv in H as [Ho H].
    unfold_monad. destruct (Z.leb_spec percentage 500); simpl in H;
      [| discriminate]. now injection H as <-.
  - unfold setMinAmountForSplit in H. apply onlyOwner_inv in H as [Ho H].
    unfold_monad. destruct (Z.ltb_spec 0 amount'); simpl in H;
      [| discriminate]. now injection H as <-.
  - unfold emergencyWithdraw in H. now apply onlyOwner_inv in H.
Qed.

Lemma constructor_within_limits o f d st :
  constructor o f d = Ok st -> within_limits st.
Proof.
  unfold constructor. intros H. unfold_monad.
  destruct (o =? 0); simpl in H; [discriminate |].
  destruct (Z.eqb_spec f 0); simpl in H; [discriminate |].
  destruct (Z.eqb_spec d 0); simpl in H; [discriminate |].
  injection H as <-. unfold within_limits. simpl.
  repeat split; try assumption; lia.
Qed.

Lemma run_within_limits env call c c' :
  uint_args call -> run env call c = Ok c' ->
  within_limits (storage c) -> within_limits (storage c').
Proof.
  intros Hargs H Hlim.
  pose proof (run_moves_keep_storage _ _ _ _ H) as Hkeep.
  pose proof (run_setter _ _ _ _ H) as Hset.
  unfold within_limits in *.
  destruct call; simpl in *; unfold is_uint256 in *;
    try (rewrite Hkeep; exact Hlim);
    try (destruct Hset as (_ & ? & ->); simpl; intuition lia).
  destruct Hset as (_ & ? & ? & ->). simpl. intuition lia.
Qed.

(** ** The properties *)

(** X10. The configuration stays within the limits its setters state:
    from deployment on and whatever is called, the protocol fee is at most
    100 basis points, the minimum security score lies between 50 and 100,
    the maximal fee percentage is at most 500 basis points, the split
    threshold is positive and neither the fee recipient nor the LiFi diamond
    is the zero address.  The fee [a * protocolFeeBps / 10000] charged on an
    amount [a] is therefore never more than one percent of it. *)
Theorem configuration_stays_within_limits (c0 c : Chain) :
  deployed c0 -> runs c0 c ->
  within_limits (storage c)
  /\ forall a, 0 <= a ->
       0 <= a * protocolFeeBps (storage c) / 10000 <= a / 100.
Proof.
  intros (o & f & d & Hc) Hruns.
  assert (Hlim : within_limits (storage c)).
  { apply constructor_within_limits in Hc.
    induction Hruns as [| env call c c1 c2 Hargs Hrun _ IH]; [exact Hc |].
    apply IH. exact (run_within_limits _ _ _ _ Hargs Hrun Hc). }
  split; [exact Hlim |]. intros a Ha.
  destruct Hlim as ([Hf0 Hf1] & _). split.
  - apply Z.div_pos; lia.
  - replace (a / 100) with (a * 100 / 10000).
    + apply Z.div_le_mono; nia.
    + change 10000 with (100 * 100). now rewrite Z.div_mul_cancel_r.
Qed.

(** X11. Only the owner changes the configuration: a successful call by
    anybody else, to whichever function, leaves the contract's storage as it
    was. *)
Theorem only_the_owner_changes_the_configuration
    (env : Env) (call : Call) (c c' : Chain) :
  msg_sender env <> owner (storage c) ->
  run env call c = Ok c' ->
  storage c' = storage c.
Proof.
  intros Hno H.
  pose proof (run_moves_keep_storage _ _ _ _ H) as Hkeep.
  pose proof (run_setter _ _ _ _ H) as Hset.
  destruct call; simpl in *; try exact Hkeep; try tauto.
Qed.

(** X12. Trust is revoked by [setTrustedBridge] alone: after any other
    successful call every bridge that was trusted still is.  In particular
    the LiFi diamond and the spoke pool that [setLiFiDiamond] and
    [setAcrossSpokePool] replace stay trusted. *)
Theorem trust_is_revoked_by_setTrustedBridge_alone
    (env : Env) (call : Call) (c c' : Chain) (b : address) :
  run env call c = Ok c' ->
  trusted (storage c) b ->
  trusted (storage c') b \/ call = SetTrustedBridge b false.
Proof.
  intros H Ht.
  pose proof (run_moves_keep_storage _ _ _ _ H) as Hkeep.
  pose proof (run_setter _ _ _ _ H) as Hset.
  unfold trusted in *.
  destruct call; simpl in *;
    try (left; rewrite Hkeep; exact Ht);
    try (destruct Hset as (_ & _ & ->); left; exact Ht).
  - destruct Hset as (_ & _ & ->). left. simpl.
    rewrite MappingFacts.mget_bool_insert. now destruct (decide _).
  - destruct Hset as (_ & _ & _ & ->). left. simpl.
    rewrite MappingFacts.mget_bool_insert. now destruct (decide _).
  - destruct Hset as (_ & _ & ->). simpl.
    rewrite MappingFacts.mget_bool_insert.
    destruct (decide (bridge' = b)) as [-> | Hne]; [| now left].
    match goal with
    | |- ?flag = true \/ _ => destruct flag; [now left | now right]
    end.
Qed.

(** X13. The tokens of a direct LiFi route whose bridge call failed.  When
    [executeLiFiRoute] returns [false], the balances of the ERC-20 ledger
    are as before the call but for the protocol fee: the caller's balance of
    the source token is down by [fee = amount * protocolFeeBps / 10000], the
    fee recipient's is up by it, and no other token balance has moved.  The
    storage is as before, the failure is logged, and the diamond keeps the
    allowance of [amount - fee] over the contract's tokens that was set for
    the call.  The ledger holds tokens only: the ether sent along with the
    call is no part of it. *)
Theorem failed_lifi_route_returns_the_tokens_less_the_fee
    (env : Env) (msg_value sourceToken amount' : Z) (lifiCallData : bytes)
    (c c' : Chain) :
  executeLiFiRoute env msg_value sourceToken amount' lifiCallData c
  = Ok (false, c') ->
  let fee := amount' * protocolFeeBps (storage c) / 10000 in
  storage c' = storage c
  /\ events c'
     = events c
       ++ [ProtocolRouteExecuted (msg_sender env) "LiFi" amount' false]
  /\ (forall t h,
        balanceOf (ledger c') t h
        = balanceOf (ledger c) t h
          + (if t =? sourceToken
             then (if h =? feeRecipient (storage c) then fee else 0)
                  - (if h =? msg_sender env then fee else 0)
             else 0))
  /\ allowance (ledger c') sourceToken (this env) (lifiDiamond (storage c))
     = amount' - fee.
Proof.
  intros H. apply executeLiFiRoute_spec in H
    as (Hst & Hev & _ & _ & _ & l3 & Hb3 & _ & _ & Hal & Hb).
  simpl. split; [exact Hst |]. split; [exact Hev |].
  split; [| exact Hal].
  intros t h. rewrite Hb, Hb3.
  destruct (t =? sourceToken), (h =? this env), (h =? msg_sender env),
    (h =? feeRecipient (storage c)); lia.
Qed.

(** X14. [executeAcrossV3Route] deposits net of the fee on both sides.  A
    call that returns had its three [uint32] arguments within range and was
    made for a source chain with a spoke pool; that pool, holding an
    allowance of [inputAmount - fee] over the contract's tokens, was called
    with [depositV3] for the contract as depositor, input amount
    [inputAmount - inputAmount * protocolFeeBps / 10000] and output amount
    [outputAmount - outputAmount * protocolFeeBps / 10000].  When the pool's
    call failed, the balances of the ERC-20 ledger are as before the call
    but for the fee, which has moved from the caller to the fee recipient.
    The ledger holds tokens only: the ether sent along with the call is no
    part of it. *)
Theorem across_route_deposits_net_of_fee
    (env : Env) (msg_value sourceChainId : Z) (inputToken outputToken : address)
    (inputAmount outputAmount destinationChainId : Z)
    (recipient exclusiveRelayer : address)
    (quoteTimestamp fillDeadline exclusivityDeadline : Z)
    (c c' : Chain) (b : bool) :
  executeAcrossV3Route env msg_value sourceChainId inputToken outputToken
    inputAmount outputAmount destinationChainId recipient exclusiveRelayer
    quoteTimestamp fillDeadline exclusivityDeadline c = Ok (b, c') ->
  let st := storage c in
  let fee := inputAmount * protocolFeeBps st / 10000 in
  let net := inputAmount - fee in
  let netOutput := outputAmount - outputAmount * protocolFeeBps st / 10000 in
  (0 <= quoteTimestamp < 2 ^ 32
   /\ 0 <= fillDeadline < 2 ^ 32
   /\ 0 <= exclusivityDeadline < 2 ^ 32)
  /\ exists spokePool l3,
    acrossSpokePools st !! sourceChainId = Some spokePool
    /\ spokePool <> 0
    /\ allowance l3 inputToken (this env) spokePool = net
    /\ (bridge_call spokePool msg_value
          (abi_encodeWithSignature depositV3_signature
             [ abi_address (this env); abi_address recipient;
               abi_address inputToken; abi_address outputToken;
               abi_uint256 net; abi_uint256 netOutput;
               abi_uint256 destinationChainId; abi_address exclusiveRelayer;
               abi_uint32 quoteTimestamp; abi_uint32 fillDeadline;
               abi_uint32 exclusivityDeadline; abi_bytes [] ]) l3
        = if b then Some (ledger c') else None)
    /\ (b = false ->
        forall t h,
          balanceOf (ledger c') t h
          = balanceOf (ledger c) t h
            + (if t =? inputToken
               then (if h =? feeRecipient st then fee else 0)
                    - (if h =? msg_sender env then fee else 0)
               else 0)).
Proof.
  intros H. split; [exact (executeAcrossV3Route_uint32 _ _ _ _ _ _ _ _ _ _ _
                             _ _ _ _ H) |].
  apply executeAcrossV3Route_spec in H
    as (Hpool & _ & _ & _ & _ & _ & _ & l3 & Hb3 & Hal & Hcall).
  simpl.
  destruct (acrossSpokePools (storage c) !! sourceChainId) as [pool |] eqn:Hp;
    simpl in *; [| now elim Hpool].
  exists pool, l3. split; [reflexivity |]. split; [exact Hpool |].
  split; [exact Hal |].
  destruct b.
  - split; [exact Hcall | discriminate].
  - destruct Hcall as (Hnone & _ & Hb). split; [exact Hnone |].
    intros _ t h. rewrite Hb, Hb3.
    destruct (t =? inputToken), (h =? this env), (h =? msg_sender env),
      (h =? feeRecipient (storage c)); lia.
Qed.

(** X15. In a split the route amounts fit the net amount: when
    [executeAggregatedRoute] returns on a split-route strategy, the amounts
    of its routes add up to at most [totalAmount - totalAmount *
    protocolFeeBps / 10000].  A split whose amounts add up to [totalAmount]
    therefore reverts whenever a fee is charged. *)
Theorem split_amounts_fit_the_net_amount
    (env : Env) (sourceToken : address) (strategy : AggregatedRouteStrategy)
    (c c' : Chain) (b : bool) :
  executeAggregatedRoute env sourceToken strategy c = Ok (b, c') ->
  same_string (strategyType strategy) "split-route" = true ->
  total_of_amounts (routes strategy)
  <= totalAmount strategy
     - totalAmount strategy * protocolFeeBps (storage c) / 10000.
Proof.
  intros H Hsplit. apply executeAggregatedRoute_spec in H
    as (_ & _ & _ & Hsum & _).
  apply Hsum. unfold same_string in *.
  apply String.eqb_eq in Hsplit. now rewrite Hsplit.
Qed.

(** X16. What a successful [executeAggregatedRoute] logs and returns: one
    [ProtocolRouteExecuted] per executed route, in order (the net amount for
    the route of a single-route strategy, the route's own amount in a
    split), then [RouteSplit] when a split has exactly two routes, then
    [AggregatedRouteExecuted]; the value returned, which that last event
    repeats, is [true] exactly when every logged route succeeded.  The
    storage is as before. *)
Theorem aggregated_route_logs_every_route
    (env : Env) (sourceToken : address) (strategy : AggregatedRouteStrategy)
    (c c' : Chain) (b : bool) :
  executeAggregatedRoute env sourceToken strategy c = Ok (b, c') ->
  let net :=
    totalAmount strategy
    - totalAmount strategy * protocolFeeBps (storage c) / 10000 in
  storage c' = storage c
  /\ exists flags,
      length flags = length (executed_routes strategy)
      /\ b = forallb id flags
      /\ events c'
         = events c ++ route_events env strategy net flags
           ++ split_event env strategy ++ [final_event env strategy b].
Proof.
  intros H. apply executeAggregatedRoute_spec in H
    as (Hst & _ & _ & _ & Hlog).
  simpl. split; [exact Hst | exact Hlog].
Qed.

End Outside.

(** ** Concrete runs *)

Lemma configuration_stays_within_limits_witness :
  within_limits (storage demo_reconfigured)
  /\ forall a, 0 <= a ->
       0 <= a * protocolFeeBps (storage demo_reconfigured) / 10000 <= a / 100.
Proof.
  apply (configuration_stays_within_limits dead_bridge no_encoder no_ether
           demo_chain demo_reconfigured).
  - exists 1, 600, 900. vm_compute. reflexivity.
  - eapply runs_next with (env := mkEnv 1 1000 500)
                          (call := SetLiFiDiamond 901);
      [exact I | vm_compute; reflexivity |].
    eapply runs_next with (env := mkEnv 1 1000 500) (call := SetProtocolFee 5);
      [vm_compute; split; discriminate | vm_compute; reflexivity |].
    apply runs_refl.
Defined.

Lemma only_the_owner_changes_the_configuration_witness :
  storage demo_after_split = storage demo_chain.
Proof.
  apply (only_the_owner_changes_the_configuration idle_bridge no_encoder
           no_ether demo_env (ExecuteAggregatedRoute 77 split_strategy)
           demo_chain demo_after_split).
  - vm_compute. discriminate.
  - vm_compute. reflexivity.
Defined.

Lemma trust_is_revoked_by_setTrustedBridge_alone_witness :
  trusted
    (storage
       (commit demo_chain
          (on_storage (setLiFiDiamond (mkEnv 1 1000 500) 901) demo_chain)))
    900
  \/ SetLiFiDiamond 901 = SetTrustedBridge 900 false.
Proof.
  apply (trust_is_revoked_by_setTrustedBridge_alone dead_bridge no_encoder
           no_ether (mkEnv 1 1000 500) (SetLiFiDiamond 901) demo_chain).
  - vm_compute. reflexivity.
  - vm_compute. reflexivity.
Defined.

Lemma failed_lifi_route_returns_the_tokens_less_the_fee_witness :
  storage demo_after_failed_lifi = storage demo_chain
  /\ events demo_after_failed_lifi
     = events demo_chain ++ [ProtocolRouteExecuted 10 "LiFi" ether false]
  /\ (forall t h,
        balanceOf (ledger demo_after_failed_lifi) t h
        = balanceOf (ledger demo_chain) t h
          + (if t =? 77
             then (if h =? 600 then ether / 1000 else 0)
                  - (if h =? 10 then ether / 1000 else 0)
             else 0))
  /\ allowance (ledger demo_after_failed_lifi) 77 500 900
     = ether - ether / 1000.
Proof.
  apply (failed_lifi_route_returns_the_tokens_less_the_fee dead_bridge
           demo_env 0 77 ether [Byte.x01] demo_chain demo_after_failed_lifi).
  vm_compute. reflexivity.
Defined.

Lemma across_route_deposits_net_of_fee_witness :
  (0 <= 0 < 2 ^ 32 /\ 0 <= 0 < 2 ^ 32 /\ 0 <= 0 < 2 ^ 32)
  /\ exists spokePool l3,
    acrossSpokePools (storage demo_chain) !! 1 = Some spokePool
    /\ spokePool <> 0
    /\ allowance l3 77 500 spokePool = ether - ether / 1000
    /\ (dead_bridge spokePool 0
          (no_encoder depositV3_signature
             [ abi_address 500; abi_address 10; abi_address 77;
               abi_address 78; abi_uint256 (ether - ether / 1000);
               abi_uint256 (ether - ether / 1000); abi_uint256 10;
               abi_address 0; abi_uint32 0; abi_uint32 0; abi_uint32 0;
               abi_bytes [] ]) l3
        = None)
    /\ (false = false ->
        forall t h,
          balanceOf (ledger demo_after_failed_across) t h
          = balanceOf (ledger demo_chain) t h
            + (if t =? 77
               then (if h =? 600 then ether / 1000 else 0)
                    - (if h =? 10 then ether / 1000 else 0)
               else 0)).
Proof.
  apply (across_route_deposits_net_of_fee dead_bridge no_encoder demo_env 0 1
           77 78 ether ether 10 10 0 0 0 0 demo_chain
           demo_after_failed_across false).
  vm_compute. reflexivity.
Defined.

Lemma split_amounts_fit_the_net_amount_witness :
  total_of_amounts (routes split_strategy)
  <= totalAmount split_strategy
     - totalAmount split_strategy * protocolFeeBps (storage demo_chain)
       / 10000.
Proof.
  apply (split_amounts_fit_the_net_amount idle_bridge demo_env 77
           split_strategy demo_chain demo_after_split true).
  - vm_compute. reflexivity.
  - reflexivity.
Defined.

Lemma aggregated_route_logs_every_route_witness :
  storage demo_after_split = storage demo_chain
  /\ exists flags,
      length flags = length (executed_routes split_strategy)
      /\ true = forallb id flags
      /\ events demo_after_split
         = events demo_chain
           ++ route_events demo_env split_strategy (ether - ether / 1000) flags
           ++ split_event demo_env split_strategy
           ++ [final_event demo_env split_strategy true].
Proof.
  apply (aggregated_route_logs_every_route idle_bridge demo_env 77
           split_strategy demo_chain demo_after_split true).
  vm_compute. reflexivity.
Defined.

End AggregatorRuns.
(* ===================================================================== *)
(** * MultiProtocolAggregator: token addresses, score ranges, strategy sets *)
(* ===================================================================== *)

Module MultiProtocolAggregatorRanges.
Import JS JSFacts JSOrder MultiProtocolAggregator MultiProtocolAggregatorSpec.
Import MultiProtocolAggregatorTerms MultiProtocolAggregatorFacts.

(** ** Case conversion *)

Lemma upper_ascii_idempotent c : upper_ascii (upper_ascii c) = upper_ascii c.
Proof.
  destruct c as [[] [] [] [] [] [] [] []]; vm_compute; reflexivity.
Qed.

Lemma toUpperCase_idempotent s : toUpperCase (toUpperCase s) = toUpperCase s.
Proof.
  induction s as [| c s IH]; simpl; [reflexivity |].
  now rewrite upper_ascii_idempotent, IH.
Qed.

(** An upper-cased key is no inherited property: each of those has a
    lower-case letter. *)
Lemma upper_not_inherited s :
  existsb (String.eqb (toUpperCase s)) Object_prototype_names = false.
Proof.
  destruct (existsb (String.eqb (toUpperCase s)) Object_prototype_names)
    eqn:Hex; [| reflexivity].
  apply existsb_exists in Hex as (name & Hin & Heq).
  apply String.eqb_eq in Heq.
  pose proof (toUpperCase_idempotent s) as Hid. rewrite Heq in Hid.
  unfold Object_prototype_names in Hin. simpl in Hin.
  repeat (destruct Hin as [<- | Hin]; [vm_compute in Hid; discriminate |]).
  destruct Hin.
Qed.

(** ** Token tables *)

Lemma own_property_In o key v :
  own_property o key = Some v -> In (key, v) o.
Proof.
  induction o as [| [k w] o IH]; simpl; [discriminate |].
  destruct (String.eqb_spec key k) as [-> | _].
  - intros [= <-]. now left.
  - intros H. right. now apply IH.
Qed.

Lemma chain_entry_In m chainId t :
  chain_entry m chainId = Some t -> In (chainId, t) m.
Proof.
  induction m as [| [k w] m IH]; simpl; [discriminate |].
  destruct (Z.eqb_spec chainId k) as [-> | _].
  - intros [= <-]. now left.
  - intros H. right. now apply IH.
Qed.

Lemma across_entry_own chainId key p :
  token_entry acrossTokenMap chainId (toUpperCase key) = Some p ->
  exists a, p = Own a /\ a <> native_placeholder.
Proof.
  unfold token_entry, get_property.
  destruct (chain_entry acrossTokenMap chainId) as [t |] eqn:Ht;
    [| discriminate].
  rewrite upper_not_inherited.
  destruct (own_property t (toUpperCase key)) as [v |] eqn:Hv;
    [| discriminate].
  intros [= <-]. exists v. split; [reflexivity |].
  apply own_property_In in Hv. apply chain_entry_In in Ht.
  unfold acrossTokenMap in Ht. simpl in Ht.
  repeat (destruct Ht as [[= <- <-] | Ht];
          [simpl in Hv;
           repeat (destruct Hv as [[= _ <-] | Hv]; [discriminate |]);
           destruct Hv |]).
  destruct Ht.
Qed.

(** Every symbol of the generic table is, on its chain, a symbol of the
    Across table: where the Across table has no entry, the generic one has
    none either. *)
Lemma generic_entry_is_across chainId tokenSymbol :
  token_entry acrossTokenMap chainId (toUpperCase tokenSymbol) = None ->
  getTokenAddress tokenSymbol chainId = Own tokenSymbol
  \/ (In tokenSymbol Object_prototype_names
      /\ getTokenAddress tokenSymbol chainId = Inherited tokenSymbol).
Proof.
  intros Hnone.
  assert (Hin : existsb (String.eqb tokenSymbol) Object_prototype_names = true
                -> In tokenSymbol Object_prototype_names).
  { intros Hex. apply existsb_exists in Hex as (name & Hi & Heq).
    apply String.eqb_eq in Heq. now subst. }
  unfold getTokenAddress, token_entry, get_property.
  revert Hin.
  generalize (existsb (String.eqb tokenSymbol) Object_prototype_names)
    (In tokenSymbol Object_prototype_names).
  intros inherited isin Hin. unfold tokenMap. simpl.
  destruct (Z.eqb_spec chainId 1) as [-> |];
    [| destruct (Z.eqb_spec chainId 42161) as [-> |];
       [| destruct (Z.eqb_spec chainId 137) as [-> |]; [| now left]]].
  all: cbn [own_property].
  all: repeat match goal with
    | Hn : token_entry _ _ (toUpperCase ?s) = None
      |- context [String.eqb ?s ?k] =>
        destruct (String.eqb_spec s k) as [Hk | _];
        [rewrite Hk in Hn; vm_compute in Hn; discriminate |]
    end.
  all: destruct inherited; [right; auto | now left].
Qed.

(** X17. What [getAcrossTokenAddress] answers for an ASCII symbol.  When
    the Across table has an entry for the upper-cased symbol on the chain,
    the answer is that entry, an address other than the native-token
    placeholder.  Otherwise the generic table has no entry either and the
    answer is the symbol itself (for a symbol that names a property every
    object inherits, that inherited value).  So the placeholder is never
    handed to Across unless it was the symbol. *)
Theorem across_token_is_mapped_or_passed_through
    (tokenSymbol : string) (chainId : Z) :
  ascii_only tokenSymbol = true ->
  (forall p,
      token_entry acrossTokenMap chainId (toUpperCase tokenSymbol) = Some p ->
      getAcrossTokenAddress tokenSymbol chainId = p
      /\ exists a, p = Own a /\ a <> native_placeholder)
  /\ (token_entry acrossTokenMap chainId (toUpperCase tokenSymbol) = None ->
      getAcrossTokenAddress tokenSymbol chainId = Own tokenSymbol
      \/ (In tokenSymbol Object_prototype_names
          /\ getAcrossTokenAddress tokenSymbol chainId
             = Inherited tokenSymbol))
  /\ (getAcrossTokenAddress tokenSymbol chainId = Own native_placeholder ->
      tokenSymbol = native_placeholder).
Proof.
  intros _. unfold getAcrossTokenAddress.
  destruct (token_entry acrossTokenMap chainId (toUpperCase tokenSymbol))
    as [p |] eqn:Hp.
  - destruct (across_entry_own _ _ _ Hp) as (a & -> & Ha).
    split; [intros p [= <-]; eauto |]. split; [discriminate |].
    intros [= ->]. now elim Ha.
  - pose proof (generic_entry_is_across _ _ Hp) as Hg.
    split; [discriminate |]. split; [intros _; exact Hg |].
    destruct Hg as [-> | [_ ->]]; [now intros [= ->] | discriminate].
Qed.

(** Lower-case [eth] on Ethereum is wrapped ether. *)
Lemma across_token_is_mapped_or_passed_through_witness :
  getAcrossTokenAddress "eth" 1
  = Own "0xC02aaA39b223FE8D0A0e5C4F27eAD9083C756Cc2"
  /\ exists a,
      Own "0xC02aaA39b223FE8D0A0e5C4F27eAD9083C756Cc2" = Own a
      /\ a <> native_placeholder.
Proof.
  exact (proj1 (across_token_is_mapped_or_passed_through "eth" 1 eq_refl)
           (Own "0xC02aaA39b223FE8D0A0e5C4F27eAD9083C756Cc2") eq_refl).
Defined.

(** ** Numbers below a bound, one by one *)

Lemma between_cases (P : Z -> Prop) (lo : Z) (n : nat) :
  (forall k, (k < n)%nat -> P (lo + Z.of_nat k)) ->
  forall z, lo <= z < lo + Z.of_nat n -> P z.
Proof.
  intros H z Hz. replace z with (lo + Z.of_nat (Z.to_nat (z - lo))) by lia.
  apply H. lia.
Qed.

(** ** The order of numbers against zero and [NaN] *)

Lemma leb_NaN_r (x y : number) :
  PrimFloat.is_nan y = true -> (x <=? y)%float = false.
Proof.
  unfold PrimFloat.is_nan. rewrite FloatAxioms.eqb_spec, leb_spec.
  destruct (Prim2SF x) as [[] | [] | | [] ? ?],
    (Prim2SF y) as [[] | [] | | [] my ey]; simpl;
    try reflexivity; try discriminate.
  all: unfold SFeqb, SFcompare; rewrite Z.compare_refl, Pos.compare_cont_refl;
       discriminate.
Qed.

Lemma zero_leb (y c : number) :
  PrimFloat.is_zero y = true -> (0 <=? c)%float = true ->
  (y <=? c)%float = true.
Proof.
  unfold PrimFloat.is_zero. rewrite FloatAxioms.eqb_spec, !leb_spec.
  change (Prim2SF 0) with (S754_zero false).
  destruct (Prim2SF y) as [[] | [] | | [] ? ?]; simpl;
    try discriminate; auto.
Qed.

(** ** The range of the scorer *)

Section Scoring.

Variable parseFloat : string -> number.
Variable number_toString : number -> string.

#[local] Abbreviation analyzeRoute :=
  (analyzeRoute parseFloat number_toString).
#[local] Abbreviation analyzeBasicRoutes :=
  (analyzeBasicRoutes parseFloat number_toString).
#[local] Abbreviation optimizeRoutes := (optimizeRoutes parseFloat).
#[local] Abbreviation optimizeRoute := (optimizeRoute parseFloat).

Lemma weighted_round_range zp zl zt zf zc :
  In zp protocol_scores -> In zl liquidity_scores -> In zt time_scores ->
  In zf fee_scores -> In zc complexity_scores ->
  69 <= weighted_round zp zl zt zf zc <= 95.
Proof.
  unfold protocol_scores, liquidity_scores, time_scores, fee_scores,
    complexity_scores, weighted_round.
  simpl. intros Hp Hl Ht Hf Hc. split.
  - apply Z.div_le_lower_bound; lia.
  - apply Z.lt_succ_r. apply Z.div_lt_upper_bound; lia.
Qed.

(** A protocol of the reputation table scores 89 or more: the scorer has
    no use for the number it would print into the first risk factor. *)
Lemma known_protocol_not_low p zp :
  In zp protocol_scores -> p = of_Z zp ->
  truthy p && (p <? 80)%float = false.
Proof.
  unfold protocol_scores. intros Hin ->. split_In; vm_compute; reflexivity.
Qed.

Lemma analyzeRoute_cases (r : ProtocolRoute) :
  (overallSecurity (analyzeRoute r) = 0%float
   /\ riskFactors (analyzeRoute r) = ["协议安全数据不可用"])
  \/ (exists z,
        69 <= z <= 95
        /\ overallSecurity (analyzeRoute r) = of_Z z
        /\ riskFactors (analyzeRoute r)
           = identifyRealRiskFactors number_toString
               (securityAnalysis (analyzeRoute r))
        /\ truthy (protocolSecurity (securityAnalysis (analyzeRoute r)))
           && (protocolSecurity (securityAnalysis (analyzeRoute r)) <? 80)
              %float = false).
Proof.
  unfold MultiProtocolAggregator.analyzeRoute.
  destruct (getProtocolSecurityScore (scored_name r)) as [p |] eqn:Hp;
    [| left; split; reflexivity].
  destruct (getProtocolSecurityScore_known _ _ Hp) as (zp & Hzp & Hpz & Htr).
  rewrite Htr. right. cbn [overallSecurity riskFactors securityAnalysis
    protocolSecurity liquiditySecurity timeSecurity feeSecurity
    routeComplexity].
  destruct (liquidity_score_range parseFloat (raw r)) as (zl & Hzl & ->).
  destruct (time_score_range (raw r)) as (zt & Hzt & ->).
  destruct (fee_score_range parseFloat (raw r)) as (zf & Hzf & ->).
  destruct (complexity_score_range (raw r)) as (zc & Hzc & ->).
  exists (weighted_round zp zl zt zf zc).
  split; [now apply weighted_round_range |].
  split; [subst p; now apply overall_exact |].
  split; [reflexivity |]. now apply (known_protocol_not_low p zp).
Qed.

Lemma overall_range (r : ProtocolRoute) :
  overallSecurity (analyzeRoute r) = 0%float
  \/ exists z, 69 <= z <= 95 /\ overallSecurity (analyzeRoute r) = of_Z z.
Proof.
  destruct (analyzeRoute_cases r) as [[H _] | (z & Hz & H & _)];
    [now left | right; eauto].
Qed.

(** X18. The scorer's answers.  A route either has no reputation data,
    and then the overall score 0 and that one risk factor, or it has an
    overall score that is a whole number from 69 to 95 and at most four risk
    factors.  The risk factors come from a fixed list of five messages: the
    one about a low protocol score is never given, since every protocol of
    the reputation table scores 89 or more. *)
Theorem overall_score_is_zero_or_69_to_95 (r : ProtocolRoute) :
  ((overallSecurity (analyzeRoute r) = 0%float
    /\ riskFactors (analyzeRoute r) = ["协议安全数据不可用"])
   \/ (exists z,
         69 <= z <= 95
         /\ overallSecurity (analyzeRoute r) = of_Z z
         /\ ~ In "协议安全数据不可用" (riskFactors (analyzeRoute r))
         /\ (length (riskFactors (analyzeRoute r)) <= 4)%nat))
  /\ (forall x, In x (riskFactors (analyzeRoute r)) -> In x reported_risks).
Proof.
  destruct (analyzeRoute_cases r) as [[H0 Hr] | (z & Hz & Hov & Hr & Hlow)].
  - split; [left; auto |]. rewrite Hr. intros x [<- | []]. now left.
  - rewrite Hr. unfold identifyRealRiskFactors. rewrite Hlow.
    generalize (securityAnalysis (analyzeRoute r)). intros a.
    destruct (truthy (liquiditySecurity a)
              && (liquiditySecurity a <? 80)%float),
      (truthy (timeSecurity a) && (timeSecurity a <? 80)%float),
      (truthy (feeSecurity a) && (feeSecurity a <? 80)%float),
      (truthy (routeComplexity a) && (routeComplexity a <? 80)%float);
      (split;
       [right; exists z; repeat split; try lia; try exact Hov;
        [simpl; intros Hin;
         repeat (destruct Hin as [Hin | Hin]; [discriminate |]);
         destruct Hin
        | simpl; lia]
       | unfold reported_risks; simpl; intros x Hin;
         repeat (destruct Hin as [<- | Hin]; [auto 10 |]); destruct Hin]).
Qed.

(** ** Recommendation levels *)

Lemma sum_without_preference z :
  69 <= z < 69 + Z.of_nat 27 ->
  level_of (0 + of_Z z * 0.4)%float = not_recommended
  /\ level_of (0 + of_Z z * 0.4 + of_Z z * 0.3)%float <> highly_recommended.
Proof.
  revert z. apply between_cases. intros k Hk.
  do 27 (destruct k as [| k]; [vm_compute; split; congruence |]). lia.
Qed.

Lemma level_of_analyzed (preferences : Preferences) (r : ProtocolRoute) :
  prioritizeSpeed preferences = false ->
  prioritizeCost preferences = false ->
  recommendationLevel (optimizeRoute preferences (analyzeRoute r))
  <> highly_recommended
  /\ (prioritizeSecurity preferences = false ->
      recommendationLevel (optimizeRoute preferences (analyzeRoute r))
      = not_recommended).
Proof.
  intros Hs Hc. unfold MultiProtocolAggregator.optimizeRoute,
    optimizationScore_of. cbn [recommendationLevel]. rewrite Hs, Hc.
  cbn [andb].
  destruct (overall_range r) as [-> | (z & Hz & ->)].
  - destruct (prioritizeSecurity preferences),
      (executionDuration (raw (route (analyzeRoute r))));
      vm_compute; split; congruence.
  - destruct (sum_without_preference z ltac:(simpl; lia)) as [H1 H2].
    destruct (prioritizeSecurity preferences),
      (executionDuration (raw (route (analyzeRoute r))));
      (split; [try exact H2; rewrite H1; discriminate
              | try discriminate; intros _; exact H1]).
Qed.

(** X19. Recommendation levels without a speed or cost preference.  For
    routes the scorer has analysed, [optimizeRoutes] then never answers
    "highly-recommended", and without any preference every route it returns
    is "not-recommended": the base weight of 0.4 on a score of at most 95
    stays under the threshold of 40. *)
Theorem routes_without_preference_are_not_recommended
    (rs : list ProtocolRoute) (preferences : Preferences)
    (o : OptimizedRoute) :
  prioritizeSpeed preferences = false ->
  prioritizeCost preferences = false ->
  In o (optimizeRoutes (analyzeBasicRoutes rs) preferences) ->
  recommendationLevel o <> highly_recommended
  /\ (prioritizeSecurity preferences = false ->
      recommendationLevel o = not_recommended).
Proof.
  intros Hs Hc Hin. unfold MultiProtocolAggregator.optimizeRoutes in Hin.
  apply sort_In in Hin. apply in_map_iff in Hin as (a & <- & Ha).
  unfold MultiProtocolAggregator.analyzeBasicRoutes in Ha.
  apply in_map_iff in Ha as (r & <- & _).
  now apply level_of_analyzed.
Qed.

End Scoring.

(** The best-scored route of the scenario, under no preference. *)
Lemma routes_without_preference_are_not_recommended_witness :
  recommendationLevel
    (optimizeRoute parseFloat_table no_preference scenario_lifi)
  = not_recommended.
Proof.
  refine (proj2
    (routes_without_preference_are_not_recommended parseFloat_table
       toString_unused
       (collectRoutes lifi_20s across_90s one_native_unit) no_preference
       (optimizeRoute parseFloat_table no_preference scenario_lifi)
       eq_refl eq_refl _) eq_refl).
  vm_compute. left. reflexivity.
Defined.

(** ** Durations *)

Lemma not_leb_above (t1 t2 c : number) :
  (t1 <=? t2)%float = true -> (t1 <=? c)%float = false ->
  (t2 <=? c)%float = false.
Proof.
  intros H12 H1. destruct (t2 <=? c)%float eqn:H2; [| reflexivity].
  rewrite (leb_trans _ _ _ H12 H2) in H1. discriminate.
Qed.

(** X20. The time score does not reward a longer wait: of two quoted
    durations, the first of them other than zero and [NaN], the route with
    the longer one gets no higher a time score (75 standing in, as in the
    scorer, for a score that is not available). *)
Theorem longer_route_scores_no_higher_on_time
    (r1 r2 : RawRoute) (t1 t2 : number) :
  executionDuration r1 = Some t1 ->
  executionDuration r2 = Some t2 ->
  truthy t1 = true ->
  (t1 <=? t2)%float = true ->
  (or_default (assessTimeSecurity r2) 75
   <=? or_default (assessTimeSecurity r1) 75)%float = true.
Proof.
  intros H1 H2 Ht Hle. unfold assessTimeSecurity. rewrite H1, H2, Ht.
  cbn [negb].
  destruct (truthy t2) eqn:Ht2; cbn [negb].
  - destruct (t1 <=? 5)%float eqn:A5;
      [| rewrite (not_leb_above _ _ _ Hle A5)];
      (destruct (t1 <=? 30)%float eqn:A30;
       [| rewrite (not_leb_above _ _ _ Hle A30)]);
      (destruct (t1 <=? 120)%float eqn:A120;
       [| rewrite (not_leb_above _ _ _ Hle A120)]);
      (destruct (t1 <=? 600)%float eqn:A600;
       [| rewrite (not_leb_above _ _ _ Hle A600)]);
      repeat match goal with
             | |- context [(t2 <=? ?c)%float] => destruct (t2 <=? c)%float
             end;
      vm_compute; reflexivity.
  - unfold truthy in Ht2. apply negb_false_iff, orb_true_iff in Ht2.
    destruct Ht2 as [Hnan | Hzero].
    + rewrite (leb_NaN_r t1 t2 Hnan) in Hle. discriminate.
    + rewrite (leb_trans _ _ _ Hle (zero_leb t2 5 Hzero eq_refl)).
      vm_compute. reflexivity.
Qed.

(** The 90-second quote against the 20-second one. *)
Lemma longer_route_scores_no_higher_on_time_witness :
  (or_default (assessTimeSecurity (quote "across-1" "across" 90 "0.003")) 75
   <=? or_default (assessTimeSecurity (quote "lifi-1" "relay" 20 "0.002")) 75)
  %float = true.
Proof.
  exact (longer_route_scores_no_higher_on_time
           (quote "lifi-1" "relay" 20 "0.002")
           (quote "across-1" "across" 90 "0.003") 20 90
           eq_refl eq_refl eq_refl eq_refl).
Defined.

(** ** The strategies on offer *)

Section Strategies.

Variable parseFloat : string -> number.

#[local] Abbreviation generateMultiProtocolSplits :=
  (generateMultiProtocolSplits parseFloat).
#[local] Abbreviation multiProtocolSplit := (multiProtocolSplit parseFloat).
#[local] Abbreviation bestSingleRoute := (bestSingleRoute parseFloat).
#[local] Abbreviation compareRoutes := (compareRoutes parseFloat).

Lemma group_insert_nonempty r acc :
  nonempty_groups acc -> nonempty_groups (group_insert r acc).
Proof.
  unfold nonempty_groups.
  induction acc as [| [k g] acc IH]; simpl; intros H.
  - constructor; [discriminate | constructor].
  - inversion H as [| ? ? Hg Hacc]; subst.
    destruct (key_eqb k (protocol (route r))).
    + constructor; [| exact Hacc]. simpl. destruct g; discriminate.
    + constructor; [exact Hg | now apply IH].
Qed.

Lemma group_insert_key r acc k :
  In k (map fst (group_insert r acc))
  <-> In k (map fst acc) \/ k = protocol (route r).
Proof.
  rewrite group_insert_keys.
  destruct (existsb (fun k0 => key_eqb k0 (protocol (route r))) (map fst acc))
    eqn:Hex.
  - split; [auto |]. intros [H | ->]; [exact H |].
    apply existsb_exists in Hex as (k0 & Hin & Hk).
    apply key_eqb_eq in Hk. now subst.
  - rewrite in_app_iff. simpl. intuition.
Qed.

Lemma routesByProtocol_facts rs :
  nonempty_groups (routesByProtocol rs)
  /\ forall k, In k (map fst (routesByProtocol rs))
               <-> exists x, In x rs /\ protocol (route x) = k.
Proof.
  unfold routesByProtocol.
  assert (Hgen : forall l acc,
    nonempty_groups acc ->
    nonempty_groups (fold_left (fun acc r => group_insert r acc) l acc)
    /\ forall k,
         In k (map fst (fold_left (fun acc r => group_insert r acc) l acc))
         <-> In k (map fst acc)
             \/ exists x, In x l /\ protocol (route x) = k).
  { induction l as [| r l IH]; intros acc Hne; simpl.
    - split; [exact Hne |]. intros k. split; [auto |].
      intros [H | (x & [] & _)]. exact H.
    - destruct (IH (group_insert r acc) (group_insert_nonempty r acc Hne))
        as [Hne' Hk].
      split; [exact Hne' |]. intros k. rewrite Hk, group_insert_key.
      split.
      + intros [[H | ->] | (x & Hx & Hkx)]; eauto.
      + intros [H | (x & [<- | Hx] & Hkx)]; eauto. }
  destruct (Hgen rs [] ltac:(constructor)) as [Hne Hk].
  split; [exact Hne |]. intros k. rewrite Hk. simpl. tauto.
Qed.

(** More than one group means two providers. *)
Lemma several_groups_iff rs :
  (1 <? length (routesByProtocol rs))%nat = true <-> two_providers rs.
Proof.
  destruct (routesByProtocol_spec rs) as [Hnd _].
  destruct (routesByProtocol_facts rs) as [_ Hk].
  unfold two_providers. rewrite Nat.ltb_lt. split.
  - intros Hlen.
    destruct (routesByProtocol rs) as [| [k1 g1] [| [k2 g2] rest]];
      simpl in Hlen; try lia.
    destruct (proj1 (Hk k1) ltac:(simpl; auto)) as (x & Hx & Hkx).
    destruct (proj1 (Hk k2) ltac:(simpl; auto)) as (y & Hy & Hky).
    exists x, y. repeat split; try assumption.
    rewrite Hkx, Hky. intros ->. simpl in Hnd.
    inversion Hnd as [| ? ? Hnotin _]; subst.
    apply Hnotin. apply list_elem_of_In. now left.
  - intros (x & y & Hx & Hy & Hne).
    pose proof (proj2 (Hk (protocol (route x))) ltac:(eauto)) as Hkx.
    pose proof (proj2 (Hk (protocol (route y))) ltac:(eauto)) as Hky.
    destruct (routesByProtocol rs) as [| [k1 g1] [| [k2 g2] rest]];
      simpl in *; [tauto | | lia].
    destruct Hkx as [Hkx | []], Hky as [Hky | []]. elim Hne. congruence.
Qed.

(** X21. What the synthesizer offers for a non-empty list of routes: the
    best single route, picked among them, and beside it a split exactly
    when routes of two providers are there and the amount exceeds 0.5.  The
    split then joins a route of either provider, and the two strategies
    come in the order of the final sort. *)
Theorem split_is_offered_only_for_two_providers
    (rs : list AnalyzedRoute) (params : Params) :
  rs <> [] ->
  exists best,
    In best rs
    /\ (two_providers rs
        /\ (0.5 <? parseFloat (amount params))%float = true ->
        exists route1 route2,
          In route1 rs /\ In route2 rs
          /\ protocol (route route1) <> protocol (route route2)
          /\ generateMultiProtocolSplits rs params
             ≡ₚ [bestSingleRoute (parseFloat (amount params)) best;
                 multiProtocolSplit (parseFloat (amount params))
                   route1 route2])
    /\ (~ (two_providers rs
           /\ (0.5 <? parseFloat (amount params))%float = true) ->
        generateMultiProtocolSplits rs params
        = [bestSingleRoute (parseFloat (amount params)) best]).
Proof.
  intros Hne.
  unfold MultiProtocolAggregator.generateMultiProtocolSplits.
  destruct (sort compareRoutes rs) as [| best srt] eqn:Hsort;
    [apply sort_nil_iff in Hsort; contradiction |].
  exists best.
  split; [apply (sort_In compareRoutes); rewrite Hsort; now left |].
  destruct (routesByProtocol_spec rs) as [Hnd Hsound].
  destruct (routesByProtocol_facts rs) as [Hgroups _].
  pose proof (several_groups_iff rs) as Hiff.
  split.
  - intros [Htwo Hamount]. apply Hiff in Htwo. rewrite Htwo, Hamount.
    cbn [andb].
    destruct (routesByProtocol rs) as [| [k1 g1] [| [k2 g2] rest]];
      simpl in Htwo; try discriminate.
    unfold nonempty_groups in Hgroups.
    inversion Hgroups as [| ? ? Hg1 Hrest]; subst.
    inversion Hrest as [| ? ? Hg2 _]; subst. simpl in Hg1, Hg2.
    destruct g1 as [| route1 g1]; [congruence |].
    destruct g2 as [| route2 g2]; [congruence |].
    exists route1, route2.
    destruct (Hsound k1 (route1 :: g1) route1) as [Hin1 Hk1]; simpl; auto.
    destruct (Hsound k2 (route2 :: g2) route2) as [Hin2 Hk2]; simpl; auto.
    repeat split; try assumption.
    + rewrite Hk1, Hk2. intros ->. simpl in Hnd.
      inversion Hnd as [| ? ? Hnotin _]; subst.
      apply Hnotin. apply list_elem_of_In. now left.
    + cbn [app]. rewrite sort_two.
      destruct (0 <? compareStrategies _ _)%float;
        [apply Permutation_swap | reflexivity].
  - intros Hnot.
    destruct ((1 <? length (routesByProtocol rs))%nat
              && (0.5 <? parseFloat (amount params))%float) eqn:Hc.
    + apply andb_true_iff in Hc as [Hc1 Hc2]. apply Hiff in Hc1.
      elim Hnot. auto.
    + cbn [app]. apply sort_one.
Qed.

End Strategies.

(** The scenario: a quote of each provider for an amount of 1.0. *)
Lemma split_is_offered_only_for_two_providers_witness :
  exists best,
    In best scenario_routes
    /\ (two_providers scenario_routes
        /\ (0.5 <? parseFloat_table (amount one_native_unit))%float = true ->
        exists route1 route2,
          In route1 scenario_routes /\ In route2 scenario_routes
          /\ protocol (route route1) <> protocol (route route2)
          /\ generateMultiProtocolSplits parseFloat_table scenario_routes
               one_native_unit
             ≡ₚ [bestSingleRoute parseFloat_table
                   (parseFloat_table (amount one_native_unit)) best;
                 multiProtocolSplit parseFloat_table
                   (parseFloat_table (amount one_native_unit))
                   route1 route2])
    /\ (~ (two_providers scenario_routes
           /\ (0.5 <? parseFloat_table (amount one_native_unit))%float
              = true) ->
        generateMultiProtocolSplits parseFloat_table scenario_routes
          one_native_unit
        = [bestSingleRoute parseFloat_table
             (parseFloat_table (amount one_native_unit)) best]).
Proof.
  apply (split_is_offered_only_for_two_providers parseFloat_table
           scenario_routes one_native_unit).
  vm_compute. discriminate.
Defined.

End MultiProtocolAggregatorRanges.
(* ===================================================================== *)
(** * SmartAggregatorBridge: the execution data *)
(* ===================================================================== *)

Module SmartAggregatorBridgeRuns.
Import JS SmartAggregatorBridge SmartAggregatorBridgeTerms.
Import MultiProtocolAggregator (completion, Return, Throw).

Lemma and_then_Return {A B : Type} (c : completion A)
    (f : A -> completion B) (b : B) :
  and_then c f = Return b -> exists a, c = Return a /\ f a = Return b.
Proof. destruct c as [a | m]; simpl; [eauto | discriminate]. Qed.

Ltac returns H :=
  let a := fresh "a" in
  let Ha := fresh "Ha" in
  apply and_then_Return in H as (a & Ha & H).

(** The three names [normalizeProtocolName] gives. *)
Lemma normalizeProtocolName_cases (protocol' name' : string) :
  normalizeProtocolName protocol' = Return name' ->
  name' = "Across"%string \/ name' = "LiFi"%string \/ name' = "CCIP"%string.
Proof.
  unfold normalizeProtocolName.
  destruct (String.eqb (toLowerCase protocol') "across");
    [intros [= <-]; auto |].
  destruct (String.eqb (toLowerCase protocol') "lifi"
            || String.eqb (toLowerCase protocol') "li.fi"
            || String.eqb (toLowerCase protocol') "relay");
    [intros [= <-]; auto |].
  destruct (String.eqb (toLowerCase protocol') "ccip");
    [intros [= <-]; auto | discriminate].
Qed.

Section Ethers.

Variable BigInt : value -> option Z.
Variable value_toString : value -> string.
Variable encodeDepositV3 : list value -> completion string.
Variable BigInt_error : value -> string.

#[local] Abbreviation generateAcrossCallData :=
  (generateAcrossCallData BigInt value_toString encodeDepositV3).
#[local] Abbreviation generateLiFiCallData :=
  (generateLiFiCallData value_toString).
#[local] Abbreviation generateCallData :=
  (generateCallData BigInt value_toString encodeDepositV3).
#[local] Abbreviation getBridgeAddress := (getBridgeAddress value_toString).
#[local] Abbreviation calculateValue := (calculateValue BigInt value_toString).
#[local] Abbreviation calculateMinOutput :=
  (calculateMinOutput BigInt value_toString).
#[local] Abbreviation calculateMinOutputForSplit :=
  (calculateMinOutputForSplit BigInt value_toString).
#[local] Abbreviation sum_outputs := (sum_outputs BigInt value_toString).
#[local] Abbreviation BigInt_or_throw := (BigInt_or_throw BigInt BigInt_error).
#[local] Abbreviation build_route :=
  (build_route BigInt value_toString encodeDepositV3).
#[local] Abbreviation strategy_of := (strategy_of BigInt BigInt_error).
#[local] Abbreviation split_routes :=
  (split_routes BigInt value_toString encodeDepositV3 BigInt_error).
#[local] Abbreviation generateSingleRouteData :=
  (generateSingleRouteData BigInt value_toString encodeDepositV3 BigInt_error).
#[local] Abbreviation generateSplitRouteData :=
  (generateSplitRouteData BigInt value_toString encodeDepositV3 BigInt_error).
#[local] Abbreviation generateContractExecutionData :=
  (generateContractExecutionData BigInt value_toString encodeDepositV3
     BigInt_error).
#[local] Abbreviation across_route :=
  (across_route BigInt value_toString encodeDepositV3).
#[local] Abbreviation quoted_outputs := (quoted_outputs BigInt).

Lemma BigInt_or_throw_Return v n :
  BigInt_or_throw v = Return n -> BigInt v = Some n.
Proof.
  unfold SmartAggregatorBridge.BigInt_or_throw.
  destruct (BigInt v); [intros [= <-]; reflexivity | discriminate].
Qed.

Lemma generateLiFiCallData_Return r userAddress callData :
  generateLiFiCallData r userAddress = Return callData ->
  rawData_transactionRequest_data r = Str callData
  /\ startsWith callData "0x" = true
  /\ (10 <= String_length callData)%nat.
Proof.
  unfold SmartAggregatorBridge.generateLiFiCallData.
  destruct (negb (truthy_value (rawData_transactionRequest_data r)));
    [discriminate |].
  destruct (rawData_transactionRequest_data r) as [| | b | n | data];
    try discriminate.
  destruct (startsWith data "0x") eqn:Hpre; [| discriminate]. cbn [negb].
  destruct (String_length data <? 10)%nat eqn:Hlen; [discriminate |].
  intros [= <-]. apply Nat.ltb_ge in Hlen. auto.
Qed.

(** ** One route *)

Lemma build_route_spec r userAddress amount' pr :
  build_route r userAddress amount' = Return pr ->
  amount' = Return (pr_amount pr)
  /\ (lifi_route r pr \/ across_route userAddress r pr).
Proof.
  unfold SmartAggregatorBridge.build_route. intros H.
  returns H. rename a into name', Ha into Hname.
  returns H. rename a into bridge', Ha into Hbridge.
  returns H. rename a into callData', Ha into Hdata.
  returns H. rename a into value', Ha into Hvalue.
  returns H. rename a into amount'', Ha into Hamount.
  injection H as <-. cbn [pr_amount]. split; [exact Hamount |].
  unfold SmartAggregatorBridge.getBridgeAddress in Hbridge.
  unfold SmartAggregatorBridge.generateCallData in Hdata.
  unfold SmartAggregatorBridge.calculateValue in Hvalue.
  rewrite Hname in Hbridge, Hdata, Hvalue. cbn [and_then] in *.
  destruct (normalizeProtocolName_cases _ _ Hname) as [-> | [-> | ->]];
    cbn in Hbridge, Hdata, Hvalue; [| | discriminate].
  - right.
    destruct (truthy_value (estimate_inputToken_chainId r)) eqn:Hchain;
      [| discriminate]. cbn [negb] in Hbridge.
    destruct (get_property spokePools
                (value_toString (estimate_inputToken_chainId r)))
      as [pool |] eqn:Hpool; [| discriminate].
    injection Hbridge as <-. injection Hvalue as <-.
    repeat split; assumption.
  - left. injection Hbridge as <-.
    apply generateLiFiCallData_Return in Hdata as (Hd & Hpre & Hlen).
    repeat split; assumption.
Qed.

(** ** The routes of a split *)

Lemma split_routes_spec l userAddress acc totalValue prs total :
  split_routes l userAddress acc totalValue = Return (prs, total) ->
  exists new,
    prs = acc ++ new
    /\ total = totalValue + total_value new
    /\ Forall2
         (fun split pr =>
            BigInt (Number (Math_floor (split_amount split)))
            = Some (pr_amount pr)
            /\ (lifi_route (split_route split) pr
                \/ across_route userAddress (split_route split) pr))
         l new.
Proof.
  revert acc totalValue.
  induction l as [| split rest IH]; intros acc totalValue H; simpl in H.
  - injection H as <- <-. exists []. rewrite app_nil_r.
    unfold total_value. simpl. split; [reflexivity |].
    split; [lia | constructor].
  - returns H. rename a into amount', Ha into Hamount.
    returns H. rename a into pr, Ha into Hroute.
    apply BigInt_or_throw_Return in Hamount.
    apply build_route_spec in Hroute as [Heq Hkind].
    injection Heq as ->.
    apply IH in H as (new & -> & -> & Hall).
    exists (pr :: new). rewrite <- app_assoc.
    split; [reflexivity |]. unfold total_value. simpl.
    split; [lia |]. constructor; [auto | exact Hall].
Qed.

(** ** The strategy handed to the contract *)

Lemma strategy_of_spec strategyType' rs s minOutput' now a :
  strategy_of strategyType' rs s minOutput' now = Return a ->
  strategyType a = strategyType'
  /\ ars_routes a = rs
  /\ BigInt (Number (totalAmount s)) = Some (ars_totalAmount a)
  /\ minOutput' = Return (minOutput a)
  /\ deadline a = (Math_floor (now / 1000) + 3600)%float
  /\ ars_securityScore a = or_num (securityScore s) 75
  /\ ars_estimatedTime a = or_num (estimatedTime s) 0
  /\ BigInt (Number (Math_floor (totalFees s * 1e18)%float))
     = Some (estimatedFees a).
Proof.
  unfold SmartAggregatorBridge.strategy_of. intros H.
  returns H. rename a0 into total, Ha into Htotal.
  returns H. rename a0 into minOut, Ha into Hmin.
  returns H. rename a0 into fees, Ha into Hfees.
  injection H as <-. simpl.
  apply BigInt_or_throw_Return in Htotal, Hfees. auto 10.
Qed.

(** ** The minimum output *)

Lemma percent_98 (out : Z) :
  0 <= out ->
  0 <= Z.quot (out * 98) 100 <= out
  /\ 98 * out - 100 < 100 * Z.quot (out * 98) 100 <= 98 * out.
Proof.
  intros Hout. rewrite Z.quot_div_nonneg by lia.
  pose proof (Z.mul_div_le (out * 98) 100 ltac:(lia)).
  pose proof (Z.mul_succ_div_gt (out * 98) 100 ltac:(lia)).
  lia.
Qed.

Lemma calculateMinOutput_spec r m :
  calculateMinOutput r = Return m ->
  exists out,
    quoted_outputs [r] [out] /\ m = Z.quot (out * 98) 100.
Proof.
  unfold SmartAggregatorBridge.calculateMinOutput.
  destruct (truthy_value (toAmount (fields r))) eqn:Ht; [| discriminate].
  cbn [negb].
  destruct (BigInt (toAmount (fields r))) as [out |] eqn:Hb;
    [| discriminate].
  intros [= <-]. exists out. split; [| reflexivity].
  repeat constructor; assumption.
Qed.

Lemma sum_outputs_spec l totalOutput total :
  sum_outputs l totalOutput = Return total ->
  exists outs,
    quoted_outputs (map split_route l) outs
    /\ total = totalOutput + sum_of outs.
Proof.
  revert totalOutput.
  induction l as [| split rest IH]; intros totalOutput H; simpl in H.
  - injection H as <-. exists []. split; [constructor |].
    unfold sum_of. simpl. lia.
  - destruct (truthy_value (toAmount (fields (split_route split)))) eqn:Ht;
      [| discriminate]. cbn [negb] in H.
    destruct (BigInt (toAmount (fields (split_route split))))
      as [out |] eqn:Hb; [| discriminate].
    apply IH in H as (outs & Hall & ->).
    exists (out :: outs). split; [constructor; auto |].
    unfold sum_of. simpl. lia.
Qed.

(** ** The execution data, by kind of strategy *)

Lemma single_data_spec s sourceToken userAddress now d :
  generateSingleRouteData s sourceToken userAddress now = Return d ->
  exists route rest pr agg,
    routes s = route :: rest
    /\ d = mkContractExecutionData true s "executeAggregatedRoute"
             (sourceToken, serializeStrategy agg)
             (bigint_toString (pr_value pr)) agg [pr]
    /\ BigInt (amount_or (fromAmount (fields route)) (totalAmount s))
       = Some (pr_amount pr)
    /\ (lifi_route route pr \/ across_route userAddress route pr)
    /\ strategy_of "single-route" [pr] s (calculateMinOutput route) now
       = Return agg.
Proof.
  unfold SmartAggregatorBridge.generateSingleRouteData.
  destruct (routes s) as [| route rest]; [discriminate |]. intros H.
  returns H. rename a into pr, Ha into Hroute.
  returns H. rename a into agg, Ha into Hagg.
  injection H as <-.
  apply build_route_spec in Hroute as [Hamount Hkind].
  apply BigInt_or_throw_Return in Hamount.
  exists route, rest, pr, agg. auto 10.
Qed.

Lemma split_data_spec s sourceToken userAddress now d :
  generateSplitRouteData s sourceToken userAddress now = Return d ->
  exists prs agg,
    d = mkContractExecutionData true s "executeAggregatedRoute"
          (sourceToken, serializeStrategy agg)
          (bigint_toString (total_value prs)) agg prs
    /\ Forall2
         (fun split pr =>
            BigInt (Number (Math_floor (split_amount split)))
            = Some (pr_amount pr)
            /\ (lifi_route (split_route split) pr
                \/ across_route userAddress (split_route split) pr))
         (splits s) prs
    /\ strategy_of "split-route" prs s (calculateMinOutputForSplit s) now
       = Return agg.
Proof.
  unfold SmartAggregatorBridge.generateSplitRouteData. intros H.
  returns H. destruct a as [prs total]. rename Ha into Hroutes.
  returns H. rename a into agg, Ha into Hagg.
  injection H as <-.
  apply split_routes_spec in Hroutes as (new & -> & -> & Hall).
  exists new, agg. simpl. auto.
Qed.

Lemma data_kind s sourceToken userAddress now d :
  generateContractExecutionData s sourceToken userAddress now = Return d ->
  (strategy s = "best-single-route"%string
   /\ generateSingleRouteData s sourceToken userAddress now = Return d)
  \/ (strategy s = "multi-protocol-split"%string
      /\ String.eqb (strategy s) "best-single-route" = false
      /\ generateSplitRouteData s sourceToken userAddress now = Return d).
Proof.
  unfold SmartAggregatorBridge.generateContractExecutionData.
  destruct (String.eqb_spec (strategy s) "best-single-route") as [He | _];
    [auto |].
  destruct (String.eqb_spec (strategy s) "multi-protocol-split") as [He | _];
    [auto | discriminate].
Qed.

(** X22. Only Li.Fi and Across routes leave the service.  When
    [generateContractExecutionData] returns, every route of the data stems
    from the route of the strategy at the same place and is either a Li.Fi
    route (the Li.Fi diamond as bridge; as call data the provider's own
    transaction data, a text that starts with "0x" and has ten characters
    or more) or an Across route (value 0; as call data the [depositV3] call
    of the quote; as bridge the entry of the spoke-pool table for the source
    chain).  A route named "CCIP", a name [normalizeProtocolName] accepts,
    is never among them. *)
Theorem only_lifi_and_across_routes_leave
    (s : AggregatedRoute) (sourceToken userAddress : string) (now : number)
    (d : ContractExecutionData) :
  generateContractExecutionData s sourceToken userAddress now = Return d ->
  Forall2
    (fun r pr =>
       (lifi_route r pr \/ across_route userAddress r pr)
       /\ normalizeProtocolName (protocol_of r) <> Return "CCIP"
       /\ pr_protocol pr <> "CCIP"%string)
    (used_routes s) (protocolRoutes d).
Proof.
  intros H.
  assert (Hkind : forall r pr,
            lifi_route r pr \/ across_route userAddress r pr ->
            (lifi_route r pr \/ across_route userAddress r pr)
            /\ normalizeProtocolName (protocol_of r) <> Return "CCIP"
            /\ pr_protocol pr <> "CCIP"%string).
  { intros r pr Hk. split; [exact Hk |].
    destruct Hk as [(Hn & Hp & _) | (Hn & Hp & _)]; rewrite Hn, Hp;
      split; discriminate. }
  unfold used_routes.
  destruct (data_kind _ _ _ _ _ H) as [[Hs Hd] | (Hs & Hne & Hd)].
  - rewrite Hs. cbn [String.eqb Ascii.eqb Bool.eqb andb].
    replace (String.eqb "best-single-route" "best-single-route") with true
      by (symmetry; apply String.eqb_refl).
    apply single_data_spec in Hd
      as (route & rest & pr & agg & Hr & -> & _ & Hk & _).
    rewrite Hr. cbn [protocolRoutes]. simpl.
    constructor; [now apply Hkind | constructor].
  - rewrite Hne. apply split_data_spec in Hd as (prs & agg & -> & Hall & _).
    cbn [protocolRoutes]. apply Forall2_fmap_l.
    eapply Forall2_impl; [exact Hall |]. intros x pr [_ Hk].
    now apply Hkind.
Qed.

(** X23. What the execution data hold.  When
    [generateContractExecutionData] returns, the data name
    [executeAggregatedRoute] with the source token and the serialized
    strategy as parameters; the strategy carries the very routes listed
    beside it, the total amount as an integer and a deadline one hour after
    the given time; and the value to send is the sum of the routes' values.
    A best single route gives a "single-route" strategy of one route, whose
    amount is the route's [fromAmount] or else the total amount; a
    multi-protocol split gives a "split-route" strategy with one route per
    split, whose amount is the split's amount rounded down. *)
Theorem execution_data_carry_the_routes
    (s : AggregatedRoute) (sourceToken userAddress : string) (now : number)
    (d : ContractExecutionData) :
  generateContractExecutionData s sourceToken userAddress now = Return d ->
  success d = true
  /\ ced_strategy d = s
  /\ functionName d = "executeAggregatedRoute"%string
  /\ parameters d = (sourceToken, serializeStrategy (aggregatedStrategy d))
  /\ ars_routes (aggregatedStrategy d) = protocolRoutes d
  /\ ced_value d = bigint_toString (total_value (protocolRoutes d))
  /\ deadline (aggregatedStrategy d) = (Math_floor (now / 1000) + 3600)%float
  /\ BigInt (Number (totalAmount s))
     = Some (ars_totalAmount (aggregatedStrategy d))
  /\ ((strategy s = "best-single-route"%string
       /\ strategyType (aggregatedStrategy d) = "single-route"%string
       /\ exists route rest pr,
            routes s = route :: rest
            /\ protocolRoutes d = [pr]
            /\ BigInt (amount_or (fromAmount (fields route)) (totalAmount s))
               = Some (pr_amount pr))
      \/ (strategy s = "multi-protocol-split"%string
          /\ strategyType (aggregatedStrategy d) = "split-route"%string
          /\ Forall2
               (fun split pr =>
                  BigInt (Number (Math_floor (split_amount split)))
                  = Some (pr_amount pr))
               (splits s) (protocolRoutes d))).
Proof.
  intros H.
  destruct (data_kind _ _ _ _ _ H) as [[Hs Hd] | (Hs & Hne & Hd)].
  - apply single_data_spec in Hd
      as (route & rest & pr & agg & Hr & -> & Hamount & _ & Hagg).
    apply strategy_of_spec in Hagg
      as (Hty & Hrs & Htotal & _ & Hdl & _).
    cbn [success ced_strategy functionName parameters ced_value
         protocolRoutes aggregatedStrategy].
    replace (total_value [pr]) with (pr_value pr)
      by (unfold total_value; simpl; lia).
    repeat (split; [first [reflexivity | assumption] |]).
    left. repeat (split; [assumption |]).
    exists route, rest, pr. auto.
  - apply split_data_spec in Hd as (prs & agg & -> & Hall & Hagg).
    apply strategy_of_spec in Hagg
      as (Hty & Hrs & Htotal & _ & Hdl & _).
    cbn [success ced_strategy functionName parameters ced_value
         protocolRoutes aggregatedStrategy].
    repeat (split; [first [reflexivity | assumption] |]).
    right. repeat (split; [assumption |]).
    eapply Forall2_impl; [exact Hall |]. intros x pr [Ha _]. exact Ha.
Qed.

(** X24. The minimum output is 98 percent of the quotes.  When
    [generateContractExecutionData] returns, each route the strategy is
    built from quotes an output that [BigInt] reads, and the strategy's
    [minOutput] is 98 percent of their sum, rounded towards zero; for a sum
    that is not negative it lies within one unit below 98 percent and never
    above the sum. *)
Theorem minimum_output_is_98_percent_of_the_quotes
    (s : AggregatedRoute) (sourceToken userAddress : string) (now : number)
    (d : ContractExecutionData) :
  generateContractExecutionData s sourceToken userAddress now = Return d ->
  exists outs,
    quoted_outputs (used_routes s) outs
    /\ minOutput (aggregatedStrategy d) = Z.quot (sum_of outs * 98) 100
    /\ (0 <= sum_of outs ->
        0 <= minOutput (aggregatedStrategy d) <= sum_of outs
        /\ 98 * sum_of outs - 100
           < 100 * minOutput (aggregatedStrategy d)
           <= 98 * sum_of outs).
Proof.
  intros H. unfold used_routes.
  destruct (data_kind _ _ _ _ _ H) as [[Hs Hd] | (Hs & Hne & Hd)].
  - rewrite Hs.
    replace (String.eqb "best-single-route" "best-single-route") with true
      by (symmetry; apply String.eqb_refl).
    apply single_data_spec in Hd
      as (route & rest & pr & agg & Hr & -> & _ & _ & Hagg).
    cbn [aggregatedStrategy].
    apply strategy_of_spec in Hagg as (_ & _ & _ & Hmin & _).
    apply calculateMinOutput_spec in Hmin as (out & Hq & Hm).
    rewrite Hr. exists [out]. change (take 1 (route :: rest)) with [route].
    unfold sum_of. simpl. rewrite Z.add_0_r.
    split; [exact Hq |]. split; [exact Hm |].
    rewrite Hm. apply percent_98.
  - rewrite Hne. apply split_data_spec in Hd as (prs & agg & -> & _ & Hagg).
    cbn [aggregatedStrategy].
    apply strategy_of_spec in Hagg as (_ & _ & _ & Hmin & _).
    unfold SmartAggregatorBridge.calculateMinOutputForSplit in Hmin.
    returns Hmin. injection Hmin as Hm.
    apply sum_outputs_spec in Ha as (outs & Hq & ->).
    exists outs. rewrite Z.add_0_l in Hm.
    split; [exact Hq |]. split; [now rewrite <- Hm |].
    rewrite <- Hm. apply percent_98.
Qed.

End Ethers.

(** The split over a Li.Fi and an Across quote. *)
Lemma only_lifi_and_across_routes_leave_witness :
  Forall2
    (fun r pr =>
       (lifi_route r pr
        \/ across_route BigInt_plain text_of encoder_stub "0xUser" r pr)
       /\ normalizeProtocolName (protocol_of r) <> Return "CCIP"
       /\ pr_protocol pr <> "CCIP"%string)
    (used_routes split_of_quotes) (protocolRoutes split_data).
Proof.
  apply (only_lifi_and_across_routes_leave BigInt_plain text_of encoder_stub
           error_stub split_of_quotes "0xToken" "0xUser" 1700000000000).
  vm_compute. reflexivity.
Defined.

Lemma execution_data_carry_the_routes_witness :
  ced_value split_data = bigint_toString (total_value (protocolRoutes split_data))
  /\ ced_value split_data = "5"%string
  /\ deadline (aggregatedStrategy split_data) = 1700003600%float.
Proof.
  pose proof (execution_data_carry_the_routes BigInt_plain text_of
                encoder_stub error_stub split_of_quotes "0xToken" "0xUser"
                1700000000000 split_data ltac:(vm_compute; reflexivity))
    as (_ & _ & _ & _ & _ & Hvalue & Hdeadline & _).
  split; [exact Hvalue |]. split; [vm_compute; reflexivity |].
  rewrite Hdeadline. vm_compute. reflexivity.
Defined.

Lemma minimum_output_is_98_percent_of_the_quotes_witness :
  exists outs,
    quoted_outputs BigInt_plain (used_routes split_of_quotes) outs
    /\ minOutput (aggregatedStrategy split_data)
       = Z.quot (sum_of outs * 98) 100
    /\ (0 <= sum_of outs ->
        0 <= minOutput (aggregatedStrategy split_data) <= sum_of outs
        /\ 98 * sum_of outs - 100
           < 100 * minOutput (aggregatedStrategy split_data)
           <= 98 * sum_of outs).
Proof.
  apply (minimum_output_is_98_percent_of_the_quotes BigInt_plain text_of
           encoder_stub error_stub split_of_quotes "0xToken" "0xUser"
           1700000000000).
  vm_compute. reflexivity.
Defined.

End SmartAggregatorBridgeRuns.

(* ===================================================================== *)
(** * The bridge service and the contract it feeds *)
(* ===================================================================== *)

Module BridgeAndContract.
Import JS SmartAggregatorBridge SmartAggregatorBridgeTerms.
Import MultiProtocolAggregator (completion, Return, Throw).

Lemma own_entry (o : list (string * string)) (key : string) (a : string) :
  get_property o key = Some (Own a) -> own_property o key = Some a.
Proof.
  unfold get_property. destruct (own_property o key) as [v |].
  - now intros [= ->].
  - destruct (existsb _ _); discriminate.
Qed.

Lemma deployed_storage initialOwner _feeRecipient _lifiDiamond st :
  OmniFlowSmartAggregator.constructor initialOwner _feeRecipient _lifiDiamond
  = Ok st ->
  OmniFlowSmartAggregator.acrossSpokePools st
  = <[8453 := OmniFlowSmartAggregator.spokePool_base]>
      (<[137 := OmniFlowSmartAggregator.spokePool_polygon]>
         (<[10 := OmniFlowSmartAggregator.spokePool_optimism]>
            (<[42161 := OmniFlowSmartAggregator.spokePool_arbitrum]>
               (<[1 := OmniFlowSmartAggregator.spokePool_ethereum]> ∅))))
  /\ forall pool,
       In pool [ OmniFlowSmartAggregator.spokePool_base;
                 OmniFlowSmartAggregator.spokePool_polygon;
                 OmniFlowSmartAggregator.spokePool_optimism;
                 OmniFlowSmartAggregator.spokePool_arbitrum;
                 OmniFlowSmartAggregator.spokePool_ethereum ] ->
       mget_bool (OmniFlowSmartAggregator.trustedBridges st) pool = true.
Proof.
  unfold OmniFlowSmartAggregator.constructor. intros H.
  unfold mbind, result_bind, require in H.
  destruct (initialOwner =? 0); simpl in H; [discriminate |].
  destruct (_feeRecipient =? 0); simpl in H; [discriminate |].
  destruct (_lifiDiamond =? 0); simpl in H; [discriminate |].
  injection H as <-. simpl. split; [reflexivity |].
  intros pool Hin. rewrite !MappingFacts.mget_bool_insert.
  repeat (destruct Hin as [<- | Hin];
          [repeat match goal with
                  | |- context [decide ?P] =>
                      destruct (decide P); [reflexivity |]
                  end;
           congruence |]).
  destruct Hin.
Qed.

(** The entry of a table that answers the goal. *)
Ltac pick_entry l :=
  match l with
  | (?k, ?a) :: ?rest =>
      first [ exists k, a;
              split; [unfold spokePools; simpl; tauto |];
              split; vm_compute; reflexivity
            | pick_entry rest ]
  end.

(** X25. The service and the contract hold the same spoke pools.  On a
    contract as deployed, the bridge [getBridgeAddress] names for an Across
    route writes the address the contract holds for the route's source
    chain, a bridge the contract trusts; and every pool the contract holds
    is in the table of the service under the text of its chain. *)
Theorem spoke_pools_agree_with_the_contract
    (value_toString : value -> string)
    (initialOwner _feeRecipient _lifiDiamond : address)
    (st : OmniFlowSmartAggregator.Storage) :
  OmniFlowSmartAggregator.constructor initialOwner _feeRecipient _lifiDiamond
  = Ok st ->
  (forall protocol' r a,
      normalizeProtocolName protocol' = Return "Across" ->
      getBridgeAddress value_toString protocol' r = Return (Own a) ->
      exists chainId pool,
        chain_of_key (value_toString (estimate_inputToken_chainId r))
        = Some chainId
        /\ address_of_text a = Some pool
        /\ OmniFlowSmartAggregator.acrossSpokePools st !! chainId = Some pool
        /\ pool <> 0
        /\ mget_bool (OmniFlowSmartAggregator.trustedBridges st) pool = true)
  /\ (forall chainId pool,
         OmniFlowSmartAggregator.acrossSpokePools st !! chainId = Some pool ->
         exists key a,
           In (key, a) spokePools
           /\ chain_of_key key = Some chainId
           /\ address_of_text a = Some pool).
Proof.
  intros Hst. destruct (deployed_storage _ _ _ _ Hst) as [Hpools Htrusted].
  rewrite Hpools. split.
  - intros protocol' r a Hnorm Hbridge.
    unfold getBridgeAddress in Hbridge. rewrite Hnorm in Hbridge.
    cbn in Hbridge.
    destruct (truthy_value (estimate_inputToken_chainId r)); [| discriminate].
    cbn [negb] in Hbridge.
    remember (value_toString (estimate_inputToken_chainId r)) as key.
    destruct (get_property spokePools key) as [p |] eqn:Hp; [| discriminate].
    injection Hbridge as ->. apply own_entry in Hp.
    unfold spokePools in Hp. cbn [own_property] in Hp.
    repeat match type of Hp with
           | (if String.eqb key ?k then _ else _) = _ =>
               destruct (String.eqb_spec key k) as [-> | _];
               [injection Hp as <-;
                eexists _, _;
                split; [vm_compute; reflexivity |];
                split; [vm_compute; reflexivity |];
                split; [reflexivity |];
                split; [discriminate |];
                apply Htrusted; simpl; auto 10 |]
           end.
    discriminate.
  - intros chainId pool H.
    repeat (apply lookup_insert_Some in H as [[<- <-] | [_ H]];
            [let l := eval unfold spokePools in spokePools in pick_entry l |]).
    rewrite lookup_empty in H. discriminate.
Qed.

(** The Across quote from Ethereum against the contract of the examples. *)
Lemma spoke_pools_agree_with_the_contract_witness :
  exists chainId pool,
    chain_of_key (text_of (estimate_inputToken_chainId across_quote))
    = Some chainId
    /\ address_of_text "0x5c7BCd6E7De5423a257D81B442095A1a6ced35C5" = Some pool
    /\ OmniFlowSmartAggregator.acrossSpokePools AggregatorSpec.demo_storage
       !! chainId = Some pool
    /\ pool <> 0
    /\ mget_bool
         (OmniFlowSmartAggregator.trustedBridges AggregatorSpec.demo_storage)
         pool = true.
Proof.
  apply (proj1 (spoke_pools_agree_with_the_contract text_of 1 600 900
                  AggregatorSpec.demo_storage eq_refl) "across" across_quote
           "0x5c7BCd6E7De5423a257D81B442095A1a6ced35C5");
    vm_compute; reflexivity.
Defined.

End BridgeAndContract.
